(** * SolSight backend: matching engine, signaling relay and reward queue

    A shallow embedding of the three backend services of the SolSight
    application and of the properties stated about them:

    - [Matching]  : class [MatchingService]   (services/matching)
    - [Signaling] : class [WebRTCService]     (services/webrtc)
    - [Rewards]   : class [BlockchainService] (services/blockchain)
    - [CallsRoute]: the reputation update of [POST /:callId/end] (routes/calls)

    JavaScript numbers that hold fractions (scores, SOL amounts) are
    modelled as exact rationals [Q]; millisecond timestamps and counters
    as [Z] or [nat].  The rounding of doubles is therefore not part of
    the model, and a number field that is not optional here is taken to
    hold a number (not [NaN]).  [Map] objects are finite maps ([gmap]), so the
    iteration order of a [Map] is not part of the model.  Objects the
    code mutates in place are rebuilt and stored back; no object of
    these services is referenced from two places at once.  Calls to
    collaborators (database, ledger, clock, timers) are inputs of the
    handlers, and the requests made to them are kept in explicit logs. *)

From Stdlib Require Import ZArith QArith Qminmax Lia Lqa List.
From stdpp Require Import gmap strings list fin_maps pretty.

Local Open Scope Z_scope.

(** JavaScript truthiness of an optional string field:
    [undefined], [null] and the empty string are falsy. *)
Definition truthy (o : option string) : bool :=
  match o with
  | Some s => negb (bool_decide (s = ""%string))
  | None => false
  end.

(* ===================================================================== *)
(** * Server configuration (config/server.js) *)
(* ===================================================================== *)

Module Config.
(** [config.matching] *)
Definition maxWaitTime : Z := 2 * 60 * 1000.
Definition reputationWeight : Q := 1 # 10.

(** [config.rewards], in SOL *)
Definition shortCall : Q := 1 # 100.
Definition mediumCall : Q := 25 # 1000.
Definition longCall : Q := 5 # 100.
Definition perfectRating : Q := 5 # 1000.
Definition quickResponse : Q := 3 # 1000.
Definition calls10 : Q := 1 # 10.
Definition calls50 : Q := 5 # 10.
Definition calls100 : Q := 1.
Definition calls500 : Q := 5.
Definition calls1000 : Q := 10.
End Config.

(* ===================================================================== *)
(** * Matching engine: [MatchingService] *)
(* ===================================================================== *)

Module Matching.

(** A user document of the [users] collection, as the matching code
    reads it.  [skills] and [averageResponseTime] may be absent.
    Volunteers and help-seekers ([userType] "blind") share the type. *)
Record User := {
  id : string;
  userType : string;
  firstName : string;
  reputationScore : Q;
  totalCalls : Z;
  skills : option (list string);
  averageResponseTime : option Q;
  isOnline : bool;
}.

(** [waitingInfo] objects of the waiting queue. *)
Record WaitingInfo := {
  w_userId : string;
  helpCategory : string;
  priority : Z;
  startTime : Z;
  timeout : Z;
  w_status : string;
}.

(** Entries of [activeMatches].  A match object has no [acceptedAt]
    property until [acceptMatch] sets it. *)
Record MatchInfo := {
  m_callId : string;
  blindUserId : string;
  volunteerUserId : string;
  m_roomId : string;
  m_status : string;
  matchedAt : Z;
  acceptedAt : option Z;
}.

(** The four maps of the service object. *)
Record Service := {
  waitingQueue : gmap string WaitingInfo;
  activeMatches : gmap string MatchInfo;
  volunteerLastCall : gmap string Z;
  callCount : gmap string Z;
}.

Definition new_service : Service :=
  {| waitingQueue := ∅; activeMatches := ∅;
     volunteerLastCall := ∅; callCount := ∅ |}.

(** [map.get(k) || 0] *)
Definition get_or_zero (m : gmap string Z) (k : string) : Z :=
  match m !! k with
  | Some v => v
  | None => 0
  end.

(** [volunteer.skills && volunteer.skills.includes(helpCategory)] *)
Definition hasSkill (v : User) (helpCategory : string) : bool :=
  match skills v with
  | Some l => bool_decide (helpCategory ∈ l)
  | None => false
  end.

(** [volunteer.averageResponseTime && volunteer.averageResponseTime < 30000]:
    a missing value and the number 0 are both falsy. *)
Definition fastResponder (v : User) : bool :=
  match averageResponseTime v with
  | Some t => negb (Qeq_bool t 0) && negb (Qle_bool 30000 t)
  | None => false
  end.

(** [idleHours]: [(Date.now() - lastCallTime) / (1000 * 60 * 60)] *)
Definition idleHours (s : Service) (now : Z) (v : User) : Q :=
  let lastCallTime := get_or_zero (volunteerLastCall s) (id v) in
  let idleTime := now - lastCallTime in
  inject_Z idleTime / inject_Z (1000 * 60 * 60).

Definition callCountToday (s : Service) (v : User) : Z :=
  get_or_zero (callCount s) (id v).

(** [calculateVolunteerScore(volunteer, helpCategory, priority)];
    [now] is the value of [Date.now()]. *)
Definition calculateVolunteerScore
    (s : Service) (now : Z) (v : User)
    (helpCategory : string) (priority : Z) : Q :=
  let score := 0%Q in
  let score := (score + reputationScore v * Config.reputationWeight)%Q in
  let score := (score + Qmin (idleHours s now v * 2) 10)%Q in
  let score := (score - Qmin (inject_Z (callCountToday s v) * 1) 5)%Q in
  let score := if hasSkill v helpCategory then (score + 10)%Q else score in
  let score := if fastResponder v then (score + 5)%Q else score in
  let score := if negb (isOnline v) then (score - 20)%Q else score in
  Qmax score 0.



(** ** Collaborators

    Replies of the awaited database calls, the errors the service
    throws, and the requests it sends out. *)

Inductive Reply (A : Type) : Type :=
| Ok (a : A)
| Throws (msg : string).
Arguments Ok {A} a.
Arguments Throws {A} msg.

Inductive Error : Type :=
| NotFoundError (resource : string)
| MatchingError (msg : string)
| DatabaseError (msg : string).

Inductive Outcome (A : Type) : Type :=
| Returned (a : A)
| Thrown (e : Error).
Arguments Returned {A} a.
Arguments Thrown {A} e.

Inductive Effect : Type :=
| Delay (ms : Z)
| SetVolunteerAvailability (volunteerId : string) (isAvailable : bool)
| CreateCall (blind volunteer category roomId : string)
| UpdateCall (callId : string) (status : string) (feedbackText : option string)
| LogRematchFailed (blind : string) (e : Error).

(** What one pass of the loop of [attemptMatch] observes. *)
Record AttemptEnv := {
  e_now : Z;                          (* Date.now() at the timeout check *)
  e_blindUser : Reply (option User);  (* getUser(blindUserId) *)
  e_volunteers : Reply (list User);   (* getActiveVolunteers() *)
  e_scoreNow : Z;                     (* Date.now() while scoring *)
  e_roomId : string;                  (* generateRoomId() *)
  e_createCall : Reply string;        (* id given by createCall *)
  e_matchedAt : Z;                    (* Date.now() once the call exists *)
}.

(** Stable sort by [matchScore], highest first:
    [scoredVolunteers.sort((a, b) => b.matchScore - a.matchScore)]. *)
Fixpoint insert_desc (x : User * Q) (l : list (User * Q)) : list (User * Q) :=
  match l with
  | [] => [x]
  | y :: l' =>
      if Qle_bool (snd y) (snd x) then x :: l else y :: insert_desc x l'
  end.

Definition sort_desc (l : list (User * Q)) : list (User * Q) :=
  foldr insert_desc [] l.

(** [findBestMatch(blindUserId, helpCategory, priority)] *)
Definition findBestMatch
    (s : Service) (env : AttemptEnv)
    (blindUserId helpCategory : string) (priority : Z) : Outcome (User * Q) :=
  match e_blindUser env with
  | Throws msg => Thrown (DatabaseError msg)
  | Ok blindUser =>
      let is_blind :=
        match blindUser with
        | Some u => bool_decide (userType u = "blind"%string)
        | None => false
        end in
      if negb is_blind then Thrown (NotFoundError "Blind user")
      else
        match e_volunteers env with
        | Throws msg => Thrown (DatabaseError msg)
        | Ok availableVolunteers =>
            if (length availableVolunteers =? 0)%nat then
              Thrown (MatchingError "No volunteers available at the moment")
            else
              let scoredVolunteers :=
                map (fun v => (v, calculateVolunteerScore
                                    s (e_scoreNow env) v helpCategory priority))
                    availableVolunteers in
              match sort_desc scoredVolunteers with
              | [] => Thrown (MatchingError "No volunteers available at the moment")
              | bestVolunteer :: _ =>
                  if Qle_bool (snd bestVolunteer) 0 then
                    Thrown (MatchingError "No suitable volunteers available")
                  else Returned bestVolunteer
              end
        end
  end.

(** The object [attemptMatch] returns on success. *)
Record MatchResult := {
  res_volunteerId : string;
  res_callId : string;
  res_roomId : string;
  res_helpCategory : string;
}.

Definition maxAttempts : nat := 3.
Definition attemptDelay : Z := 2000.

Definition drop_waiting (s : Service) (blind : string) : Service :=
  {| waitingQueue := delete blind (waitingQueue s);
     activeMatches := activeMatches s;
     volunteerLastCall := volunteerLastCall s;
     callCount := callCount s |}.

(** The body of the [try] block of one loop pass.  It yields the
    service state, the requests sent, and either the value returned
    or the error that reaches the [catch] block. *)
Definition attempt_body
    (s : Service) (env : AttemptEnv) (blind : string) (w : WaitingInfo)
  : Service * list Effect * Outcome MatchResult :=
  if e_now env >? timeout w then
    (drop_waiting s blind, [],
     Thrown (MatchingError "Matching timeout - no volunteers found"))
  else
    match findBestMatch s env blind (helpCategory w) (priority w) with
    | Thrown e => (s, [], Thrown e)
    | Returned (volunteer, _) =>
        let create := CreateCall blind (id volunteer) (helpCategory w) (e_roomId env) in
        match e_createCall env with
        | Throws msg => (s, [create], Thrown (DatabaseError msg))
        | Ok callId =>
            let m := {| m_callId := callId; blindUserId := blind;
                        volunteerUserId := id volunteer;
                        m_roomId := e_roomId env; m_status := "matched";
                        matchedAt := e_matchedAt env; acceptedAt := None |} in
            let s' :=
              {| waitingQueue := delete blind (waitingQueue s);
                 activeMatches := <[e_roomId env := m]> (activeMatches s);
                 volunteerLastCall :=
                   <[id volunteer := e_matchedAt env]> (volunteerLastCall s);
                 callCount :=
                   <[id volunteer := get_or_zero (callCount s) (id volunteer) + 1]>
                     (callCount s) |} in
            (s', [create; SetVolunteerAvailability (id volunteer) false],
             Returned {| res_volunteerId := id volunteer; res_callId := callId;
                         res_roomId := e_roomId env;
                         res_helpCategory := helpCategory w |})
        end
    end.

(** [for (let attempt = ...; attempt <= maxAttempts; attempt++)]:
    [fuel] passes remain, the current one has number [attempt] and
    observes [envs attempt]. *)
Fixpoint attempt_loop
    (fuel attempt : nat) (s : Service) (envs : nat -> AttemptEnv)
    (blind : string) (w : WaitingInfo)
  : Service * list Effect * option (Outcome MatchResult) :=
  match fuel with
  | O => (s, [], None)
  | S fuel' =>
      match attempt_body s (envs attempt) blind w with
      | (s', tr, Returned r) => (s', tr, Some (Returned r))
      | (s', tr, Thrown e) =>
          if (attempt =? maxAttempts)%nat then
            (drop_waiting s' blind, tr, Some (Thrown e))
          else
            let '(s'', tr', out) :=
              attempt_loop fuel' (S attempt) s' envs blind w in
            (s'', tr ++ Delay attemptDelay :: tr', out)
      end
  end.

(** [attemptMatch(blindUserId, waitingInfo)] *)
Definition attemptMatch
    (s : Service) (envs : nat -> AttemptEnv) (blind : string) (w : WaitingInfo)
  : Service * list Effect * option (Outcome MatchResult) :=
  attempt_loop maxAttempts 1 s envs blind w.

(** [startMatching(blindUserId, { helpCategory, priority, timeoutMs })];
    [now] is [Date.now()] when the entry is built. *)
Definition startMatching
    (s : Service) (now : Z) (envs : nat -> AttemptEnv)
    (blind category : string) (prio timeoutMs : Z)
  : Service * list Effect * option (Outcome MatchResult) :=
  match waitingQueue s !! blind with
  | Some _ =>
      (drop_waiting s blind, [],
       Some (Thrown (MatchingError "User is already in the matching queue")))
  | None =>
      let waitingInfo :=
        {| w_userId := blind; helpCategory := category; priority := prio;
           startTime := now; timeout := now + timeoutMs;
           w_status := "waiting" |} in
      let s1 :=
        {| waitingQueue := <[blind := waitingInfo]> (waitingQueue s);
           activeMatches := activeMatches s;
           volunteerLastCall := volunteerLastCall s;
           callCount := callCount s |} in
      match attemptMatch s1 envs blind waitingInfo with
      | (s2, tr, Some (Thrown e)) => (drop_waiting s2 blind, tr, Some (Thrown e))
      | r => r
      end
  end.

(** The number of [setTimeout(resolve, attemptDelay)] waits in a trace. *)
Definition delays (tr : list Effect) : nat :=
  length (List.filter (fun e => match e with Delay _ => true | _ => false end) tr).

(** The rematch [declineMatch] starts and does not await. *)
Record Background := {
  bg_blind : string;
  bg_waitingInfo : WaitingInfo;
}.

(** [declineMatch(roomId, volunteerId, reason)]; [now] is [Date.now()]
    and [updateReply] the reply of the awaited [updateCall]. *)
Definition declineMatch
    (s : Service) (now : Z) (updateReply : Reply unit)
    (roomId volunteerId reason : string)
  : Service * list Effect * Outcome unit * option Background :=
  match activeMatches s !! roomId with
  | None => (s, [], Thrown (NotFoundError "Active match"), None)
  | Some m =>
      if negb (bool_decide (volunteerUserId m = volunteerId)) then
        (s, [], Thrown (MatchingError "Volunteer not authorized for this match"), None)
      else
        let avail := SetVolunteerAvailability volunteerId true in
        let upd := UpdateCall (m_callId m) "failed" (Some reason) in
        match updateReply with
        | Throws msg => (s, [avail; upd], Thrown (DatabaseError msg), None)
        | Ok _ =>
            let s' :=
              {| waitingQueue := waitingQueue s;
                 activeMatches := delete roomId (activeMatches s);
                 volunteerLastCall := volunteerLastCall s;
                 callCount := callCount s |} in
            let waitingInfo :=
              {| w_userId := blindUserId m; helpCategory := "general";
                 priority := 5; startTime := now; timeout := now + 60000;
                 w_status := "rematching" |} in
            (s', [avail; upd], Returned tt,
             Some {| bg_blind := blindUserId m; bg_waitingInfo := waitingInfo |})
        end
  end.

(** [this.attemptMatch(blindUserId, waitingInfo).catch(error => log)]:
    the background task; an error it throws ends in the log. *)
Definition run_rematch
    (s : Service) (envs : nat -> AttemptEnv) (bg : Background)
  : Service * list Effect :=
  match attemptMatch s envs (bg_blind bg) (bg_waitingInfo bg) with
  | (s', tr, Some (Thrown e)) => (s', tr ++ [LogRematchFailed (bg_blind bg) e])
  | (s', tr, _) => (s', tr)
  end.



(** ** The rest of the call lifecycle *)

(** [cancelMatching(blindUserId)] *)
Definition cancelMatching (s : Service) (blind : string) : Service * Outcome unit :=
  match waitingQueue s !! blind with
  | None => (s, Thrown (MatchingError "User is not in the matching queue"))
  | Some _ => (drop_waiting s blind, Returned tt)
  end.

(** Requests of [acceptMatch] and [endCall], beside the earlier ones. *)
Inductive Request : Type :=
| Plain (e : Effect)
| ActivateCall (callId : string)
| CompleteCall (callId : string) (durationSeconds : Z) (endReason endedBy : string).

(** What [acceptMatch] returns. *)
Record Accepted := {
  a_roomId : string;
  a_blindUserId : string;
}.

(** [match.status = 'accepted'; match.acceptedAt = Date.now()] *)
Definition accepted (m : MatchInfo) (now : Z) : MatchInfo :=
  {| m_callId := m_callId m; blindUserId := blindUserId m;
     volunteerUserId := volunteerUserId m; m_roomId := m_roomId m;
     m_status := "accepted"; matchedAt := matchedAt m;
     acceptedAt := Some now |}.

Definition set_matches (f : gmap string MatchInfo -> gmap string MatchInfo)
    (s : Service) : Service :=
  {| waitingQueue := waitingQueue s; activeMatches := f (activeMatches s);
     volunteerLastCall := volunteerLastCall s; callCount := callCount s |}.

(** [acceptMatch(roomId, volunteerId)]; the match object is marked
    accepted before [updateCall] is awaited.  [now] is [Date.now()]. *)
Definition acceptMatch
    (s : Service) (now : Z) (updateReply : Reply unit)
    (roomId volunteerId : string)
  : Service * list Request * Outcome Accepted :=
  match activeMatches s !! roomId with
  | None => (s, [], Thrown (NotFoundError "Active match"))
  | Some m =>
      if negb (bool_decide (volunteerUserId m = volunteerId)) then
        (s, [], Thrown (MatchingError "Volunteer not authorized for this match"))
      else
        let s' := set_matches (insert roomId (accepted m now)) s in
        let reqs := [ActivateCall (m_callId m)] in
        match updateReply with
        | Throws msg => (s', reqs, Thrown (DatabaseError msg))
        | Ok _ =>
            (s', reqs,
             Returned {| a_roomId := m_roomId m; a_blindUserId := blindUserId m |})
        end
  end.

(** [endCall(roomId, endedBy, endReason)]; it returns
    [durationSeconds = Math.floor((Date.now() - match.matchedAt) / 1000)]. *)
Definition endCall
    (s : Service) (now : Z) (updateReply : Reply unit)
    (roomId endedBy endReason : string)
  : Service * list Request * Outcome Z :=
  match activeMatches s !! roomId with
  | None => (s, [], Thrown (NotFoundError "Active call"))
  | Some m =>
      let duration := now - matchedAt m in
      let upd := CompleteCall (m_callId m) (duration / 1000) endReason endedBy in
      match updateReply with
      | Throws msg => (s, [upd], Thrown (DatabaseError msg))
      | Ok _ =>
          (set_matches (delete roomId) s,
           [upd; Plain (SetVolunteerAvailability (volunteerUserId m) true)],
           Returned (duration / 1000))
      end
  end.

(** [cleanup()], run every minute; [now] is [Date.now()]. *)
Definition cleanup (s : Service) (now : Z) : Service :=
  let oneDayAgo := now - 24 * 60 * 60 * 1000 in
  {| waitingQueue := filter (fun kv => ¬ now > timeout (snd kv)) (waitingQueue s);
     activeMatches := filter (fun kv => ¬ matchedAt (snd kv) < oneDayAgo) (activeMatches s);
     volunteerLastCall := volunteerLastCall s;
     callCount := callCount s |}.

(** ** Everything that drives the matching service

    A request runs to its end before the next one starts; the rematch
    that [declineMatch] leaves behind is a step of its own. *)
Inductive Event : Type :=
| Start (now : Z) (envs : nat -> AttemptEnv) (blind category : string) (prio timeoutMs : Z)
| Cancel (blind : string)
| Accept (now : Z) (reply : Reply unit) (roomId volunteerId : string)
| Decline (now : Z) (reply : Reply unit) (roomId volunteerId reason : string)
| Rematch (envs : nat -> AttemptEnv) (bg : Background)
| EndCall (now : Z) (reply : Reply unit) (roomId endedBy endReason : string)
| Cleanup (now : Z).

Definition step (s : Service) (e : Event) : Service :=
  match e with
  | Start now envs blind category prio timeoutMs =>
      fst (fst (startMatching s now envs blind category prio timeoutMs))
  | Cancel blind => fst (cancelMatching s blind)
  | Accept now reply roomId volunteerId =>
      fst (fst (acceptMatch s now reply roomId volunteerId))
  | Decline now reply roomId volunteerId reason =>
      fst (fst (fst (declineMatch s now reply roomId volunteerId reason)))
  | Rematch envs bg => fst (run_rematch s envs bg)
  | EndCall now reply roomId endedBy endReason =>
      fst (fst (endCall s now reply roomId endedBy endReason))
  | Cleanup now => cleanup s now
  end.

Definition run (es : list Event) (s : Service) : Service := foldl step s es.

(** What the maps of the service keep: a match is stored under its own
    room id, and a volunteer has a call count exactly when it has a
    last-call time, the count being at least 1. *)
Record service_inv (s : Service) : Prop := {
  inv_room : forall r m, activeMatches s !! r = Some m -> m_roomId m = r;
  inv_count : forall v n, callCount s !! v = Some n -> 1 <= n;
  inv_stats : forall v, is_Some (callCount s !! v) <-> is_Some (volunteerLastCall s !! v);
}.

(** [h] is the first element of [l] with the highest score. *)
Definition first_best (l : list (User * Q)) (h : User * Q) : Prop :=
  exists l1 l2, l = l1 ++ h :: l2
    /\ Forall (fun y => (snd y < snd h)%Q) l1
    /\ Forall (fun y => (snd y <= snd h)%Q) l2.

End Matching.

(* ===================================================================== *)
(** * Signaling relay: [WebRTCService] *)
(* ===================================================================== *)

Module Signaling.

Record Participant := {
  p_connectionId : nat;
  p_userId : string;
  p_userType : string;
  joinedAt : Z;
  isReady : bool;
}.

(** A room object.  [handleJoinRoom] creates it without a [callId]
    property; the handlers only ever read [room.callId]. *)
Record Room := {
  r_id : string;
  participants : gmap string Participant;
  createdAt : Z;
  status : string;
  callId : option string;
}.

(** [connectionInfo]; [readyState] is the state of its socket
    (1 = OPEN), which the transport owns. *)
Record ConnectionInfo := {
  c_id : nat;
  userId : option string;
  userType : option string;
  roomId : option string;
  connectedAt : Z;
  isAlive : bool;
  readyState : nat;
}.

(** Messages the server sends.  The participant lists of [user_joined]
    and [room_joined] are kept as their lengths. *)
Inductive Message : Type :=
| connected (connectionId : nat)
| user_joined (user type roomStatus : string) (participantCount : nat)
| room_joined (room roomStatus : string) (participantCount : nat)
| user_left (user : option string) (remainingParticipants : nat)
| room_left (room : string)
| relayed (kind payload : string) (fromUserId fromUserType : option string)
| call_status (st : string) (reason : option string) (updatedBy : option string)
| user_disconnected (user type : option string) (reason : string)
| pong
| error (text : string).

(** The argument of one [updateCall(room.callId, {...})] request. *)
Record CallUpdate := {
  u_callId : option string;
  u_status : string;
  u_feedbackText : string;
}.

(** The service object, with the messages handed to sockets and the
    [updateCall] requests made so far. *)
Record State := {
  rooms : gmap string Room;
  connections : gmap nat ConnectionInfo;
  connectionCounter : nat;
  outbox : list (nat * Message);
  callUpdates : list CallUpdate;
}.

Definition init : State :=
  {| rooms := ∅; connections := ∅; connectionCounter := 0;
     outbox := []; callUpdates := [] |}.

Definition set_rooms (f : gmap string Room -> gmap string Room) (s : State) : State :=
  {| rooms := f (rooms s); connections := connections s;
     connectionCounter := connectionCounter s;
     outbox := outbox s; callUpdates := callUpdates s |}.

Definition set_connections
    (f : gmap nat ConnectionInfo -> gmap nat ConnectionInfo) (s : State) : State :=
  {| rooms := rooms s; connections := f (connections s);
     connectionCounter := connectionCounter s;
     outbox := outbox s; callUpdates := callUpdates s |}.

Definition push_out (l : list (nat * Message)) (s : State) : State :=
  {| rooms := rooms s; connections := connections s;
     connectionCounter := connectionCounter s;
     outbox := outbox s ++ l; callUpdates := callUpdates s |}.

Definition push_update (u : CallUpdate) (s : State) : State :=
  {| rooms := rooms s; connections := connections s;
     connectionCounter := connectionCounter s;
     outbox := outbox s; callUpdates := callUpdates s ++ [u] |}.

Definition with_room (c : ConnectionInfo) (r : option string) : ConnectionInfo :=
  {| c_id := c_id c; userId := userId c; userType := userType c;
     roomId := r; connectedAt := connectedAt c;
     isAlive := isAlive c; readyState := readyState c |}.

Definition with_alive (c : ConnectionInfo) (b : bool) : ConnectionInfo :=
  {| c_id := c_id c; userId := userId c; userType := userType c;
     roomId := roomId c; connectedAt := connectedAt c;
     isAlive := b; readyState := readyState c |}.

Definition with_readyState (c : ConnectionInfo) (n : nat) : ConnectionInfo :=
  {| c_id := c_id c; userId := userId c; userType := userType c;
     roomId := roomId c; connectedAt := connectedAt c;
     isAlive := isAlive c; readyState := n |}.

Definition with_status (r : Room) (st : string) : Room :=
  {| r_id := r_id r; participants := participants r;
     createdAt := createdAt r; status := st; callId := callId r |}.

Definition with_participants (r : Room) (ps : gmap string Participant) : Room :=
  {| r_id := r_id r; participants := ps;
     createdAt := createdAt r; status := status r; callId := callId r |}.

(** [room.participants.delete(userId)] with the connection's [userId],
    which is [null] before the first join. *)
Definition remove_participant (r : Room) (u : option string) : Room :=
  match u with
  | Some u => with_participants r (delete u (participants r))
  | None => r
  end.

(** [sendMessage(connectionId, message)]: delivered only to a known
    connection whose socket is open. *)
Definition can_send (s : State) (cid : nat) : bool :=
  match connections s !! cid with
  | Some c => (readyState c =? 1)%nat
  | None => false
  end.

Definition sendMessage (s : State) (cid : nat) (m : Message) : State :=
  if can_send s cid then push_out [(cid, m)] s else s.

Definition sendError (s : State) (cid : nat) (text : string) : State :=
  sendMessage s cid (error text).

(** [broadcastToRoom(roomId, message, excludeConnectionId)] *)
Definition recipients (s : State) (r : Room) (exclude : option nat) : list nat :=
  List.filter
    (fun cid => negb (bool_decide (Some cid = exclude)) && can_send s cid)
    (map (fun kv => p_connectionId (snd kv)) (map_to_list (participants r))).

Definition broadcastToRoom
    (s : State) (room : string) (m : Message) (exclude : option nat) : State :=
  match rooms s !! room with
  | None => s
  | Some r => push_out (map (fun cid => (cid, m)) (recipients s r exclude)) s
  end.

(** [handleConnection(connection, req)] *)
Definition handleConnection (s : State) (now : Z) : State :=
  let connectionId := S (connectionCounter s) in
  let connectionInfo :=
    {| c_id := connectionId; userId := None; userType := None;
       roomId := None; connectedAt := now; isAlive := true;
       readyState := 1 |} in
  let s1 :=
    {| rooms := rooms s;
       connections := <[connectionId := connectionInfo]> (connections s);
       connectionCounter := connectionId;
       outbox := outbox s; callUpdates := callUpdates s |} in
  sendMessage s1 connectionId (connected connectionId).

(** [handleLeaveRoom(connectionId)] *)
Definition handleLeaveRoom (s : State) (cid : nat) : State :=
  match connections s !! cid with
  | None => s
  | Some connectionInfo =>
      if negb (truthy (roomId connectionInfo)) then s
      else
        let rid := default ""%string (roomId connectionInfo) in
        let uid := userId connectionInfo in
        let s1 :=
          match rooms s !! rid with
          | None => s
          | Some room =>
              let room1 := remove_participant room uid in
              let s_removed := set_rooms (insert rid room1) s in
              let s_told :=
                broadcastToRoom s_removed rid
                  (user_left uid (size (participants room1))) (Some cid) in
              if (size (participants room1) =? 0)%nat
              then set_rooms (delete rid) s_told
              else set_rooms (insert rid (with_status room1 "waiting")) s_told
          end in
        let s2 := set_connections (insert cid (with_room connectionInfo None)) s1 in
        sendMessage s2 cid (room_left rid)
  end.

Record JoinData := {
  j_roomId : option string;
  j_userId : option string;
  j_userType : option string;
}.

(** [handleJoinRoom(connectionId, data)]; [now] is [Date.now()]. *)
Definition handleJoinRoom (s : State) (now : Z) (cid : nat) (data : JoinData) : State :=
  match connections s !! cid with
  | None => sendError s cid "Failed to join room: Connection not found"
  | Some connectionInfo =>
      if negb (truthy (j_roomId data) && truthy (j_userId data)
               && truthy (j_userType data)) then
        sendError s cid
          "Failed to join room: Missing required fields: roomId, userId, userType"
      else
        let rid := default ""%string (j_roomId data) in
        let uid := default ""%string (j_userId data) in
        let utype := default ""%string (j_userType data) in
        if negb (bool_decide (utype = "blind"%string)
                 || bool_decide (utype = "volunteer"%string)) then
          sendError s cid "Failed to join room: Invalid user type"
        else
          (* Leave existing room if any *)
          let s1 := if truthy (roomId connectionInfo)
                    then handleLeaveRoom s cid else s in
          (* Get or create room *)
          let room :=
            match rooms s1 !! rid with
            | Some room => room
            | None => {| r_id := rid; participants := ∅; createdAt := now;
                         status := "waiting"; callId := None |}
            end in
          (* Add user to room *)
          let participant :=
            {| p_connectionId := cid; p_userId := uid; p_userType := utype;
               joinedAt := now; isReady := false |} in
          let room1 := with_participants room (<[uid := participant]> (participants room)) in
          (* Update room status *)
          let room2 := if (size (participants room1) =? 2)%nat
                       then with_status room1 "ready" else room1 in
          let s2 := set_rooms (insert rid room2) s1 in
          (* Update connection info *)
          let s3 :=
            set_connections
              (alter (fun c =>
                 {| c_id := c_id c; userId := Some uid; userType := Some utype;
                    roomId := Some rid; connectedAt := connectedAt c;
                    isAlive := isAlive c; readyState := readyState c |}) cid) s2 in
          let s4 :=
            broadcastToRoom s3 rid
              (user_joined uid utype (status room2) (size (participants room2)))
              (Some cid) in
          sendMessage s4 cid
            (room_joined rid (status room2) (size (participants room2)))
  end.

Record RelayData := {
  payload : option string;
  targetUserId : option string;
}.

(** [handleOffer], [handleAnswer] and [handleIceCandidate] have one
    body: they differ in the name of the payload in error texts
    ([label]), in the type of the forwarded message ([msgType]) and in
    whether [fromUserType] is forwarded ([withUserType]). *)
Definition relay (label msgType : string) (withUserType : bool)
    (s : State) (cid : nat) (data : RelayData) : State :=
  let fail msg := sendError s cid ("Failed to send " +:+ label +:+ ": " +:+ msg) in
  match connections s !! cid with
  | None => fail "Not in a room"
  | Some connectionInfo =>
      if negb (truthy (roomId connectionInfo)) then fail "Not in a room"
      else if negb (truthy (payload data) && truthy (targetUserId data)) then
        fail ("Missing " +:+ label +:+ " or targetUserId")
      else
        match rooms s !! default ""%string (roomId connectionInfo) with
        | None => fail "Cannot read properties of undefined"
        | Some room =>
            match participants room !! default ""%string (targetUserId data) with
            | None => fail "Target user in room not found"
            | Some targetParticipant =>
                sendMessage s (p_connectionId targetParticipant)
                  (relayed msgType (default ""%string (payload data))
                     (userId connectionInfo)
                     (if withUserType then userType connectionInfo else None))
            end
        end
  end.

Definition handleOffer := relay "offer" "offer" true.
Definition handleAnswer := relay "answer" "answer" true.
Definition handleIceCandidate := relay "ICE candidate" "ice_candidate" false.

Record StatusData := {
  d_status : option string;
  d_reason : option string;
}.

(** [['completed', 'failed', 'ended'].includes(status)] *)
Definition call_ended (st : string) : bool :=
  bool_decide (st = "completed"%string) || bool_decide (st = "failed"%string)
  || bool_decide (st = "ended"%string).

(** [handleCallStatus(connectionId, data)].  A rejected [updateCall]
    is only logged, so its reply does not enter the model. *)
Definition handleCallStatus (s : State) (cid : nat) (data : StatusData) : State :=
  let fail msg := sendError s cid ("Failed to update call status: " +:+ msg) in
  match connections s !! cid with
  | None => fail "Not in a room"
  | Some connectionInfo =>
      if negb (truthy (roomId connectionInfo)) then fail "Not in a room"
      else if negb (truthy (d_status data)) then fail "Missing status"
      else
        let rid := default ""%string (roomId connectionInfo) in
        let st := default ""%string (d_status data) in
        match rooms s !! rid with
        | None => fail "Cannot set properties of undefined"
        | Some room =>
            (* Update room status *)
            let s1 := set_rooms (insert rid (with_status room st)) s in
            (* Update database if call ended *)
            let s2 :=
              if call_ended st then
                push_update
                  {| u_callId := callId room;
                     u_status := if bool_decide (st = "completed"%string)
                                 then "completed" else "failed";
                     u_feedbackText :=
                       if truthy (d_reason data)
                       then default ""%string (d_reason data)
                       else "Call ended via WebRTC" |} s1
              else s1 in
            (* Broadcast status to room *)
            broadcastToRoom s2 rid
              (call_status st (d_reason data) (userId connectionInfo)) (Some cid)
        end
  end.

(** [['active', 'connected'].includes(room.status)] *)
Definition in_call (st : string) : bool :=
  bool_decide (st = "active"%string) || bool_decide (st = "connected"%string).

(** [handleDisconnection(connectionId)], run on the socket's [close]
    event (a missed heartbeat terminates the socket, which closes it). *)
Definition handleDisconnection (s : State) (cid : nat) : State :=
  match connections s !! cid with
  | None => s
  | Some connectionInfo =>
      let uid := userId connectionInfo in
      let s2 :=
        if truthy (roomId connectionInfo) then
          let rid := default ""%string (roomId connectionInfo) in
          match rooms s !! rid with
          | None => s
          | Some room =>
              let room1 := remove_participant room uid in
              let s_removed := set_rooms (insert rid room1) s in
              (* Notify other participants *)
              let s_told :=
                broadcastToRoom s_removed rid
                  (user_disconnected uid (userType connectionInfo) "Connection lost")
                  (Some cid) in
              (* Clean up empty rooms *)
              let room2 := if (size (participants room1) =? 0)%nat
                           then room1 else with_status room1 "waiting" in
              let s_cleaned :=
                if (size (participants room1) =? 0)%nat
                then set_rooms (delete rid) s_told
                else set_rooms (insert rid room2) s_told in
              (* Update database if user was in active call *)
              if in_call (status room2) then
                push_update
                  {| u_callId := callId room2;
                     u_status := "failed";
                     u_feedbackText :=
                       "User " +:+ default "null"%string uid +:+ " disconnected" |}
                  s_cleaned
              else s_cleaned
          end
        else s in
      (* Remove connection *)
      set_connections (delete cid) s2
  end.

(** The 30-second heartbeat of one connection: a connection that did
    not answer the previous ping has its socket terminated. *)
Definition heartbeat (s : State) (cid : nat) : State :=
  match connections s !! cid with
  | None => s
  | Some c =>
      if negb (isAlive c)
      then set_connections (insert cid (with_readyState c 3)) s
      else set_connections (insert cid (with_alive c false)) s
  end.

Definition on_pong (s : State) (cid : nat) : State :=
  set_connections (alter (fun c => with_alive c true) cid) s.

(** [cleanup()], run every minute. *)
Definition cleanup (s : State) (now : Z) : State :=
  let maxAge := 5 * 60 * 1000 in
  let oneHourAgo := now - 60 * 60 * 1000 in
  let s1 :=
    set_connections
      (filter (fun kv => ¬ (now - connectedAt (snd kv) > maxAge
                            ∧ isAlive (snd kv) = false))) s in
  set_rooms
    (filter (fun kv => ¬ (size (participants (snd kv)) = 0%nat
                          ∧ createdAt (snd kv) < oneHourAgo))) s1.

(** Messages a client sends, after [JSON.parse]. *)
Inductive ClientMessage : Type :=
| join_room (data : JoinData)
| leave_room
| offer (data : RelayData)
| answer (data : RelayData)
| ice_candidate (data : RelayData)
| call_status_msg (data : StatusData)
| ping
| unknown (type : string)
| invalid_json.

(** [handleMessage(connectionId, message)] *)
Definition handleMessage (s : State) (now : Z) (cid : nat) (m : ClientMessage) : State :=
  match connections s !! cid with
  | None => s
  | Some _ =>
      match m with
      | invalid_json => sendError s cid "Invalid JSON message format"
      | join_room data => handleJoinRoom s now cid data
      | leave_room => handleLeaveRoom s cid
      | offer data => handleOffer s cid data
      | answer data => handleAnswer s cid data
      | ice_candidate data => handleIceCandidate s cid data
      | call_status_msg data => handleCallStatus s cid data
      | ping => sendMessage s cid pong
      | unknown type => sendError s cid ("Unknown message type: " +:+ type)
      end
  end.

(** Everything that drives the relay. *)
Inductive Event : Type :=
| Connect (now : Z)
| Receive (now : Z) (cid : nat) (m : ClientMessage)
| Close (cid : nat)
| Heartbeat (cid : nat)
| Pong (cid : nat)
| SocketState (cid : nat) (readyState : nat)
| Cleanup (now : Z).

Definition step (s : State) (e : Event) : State :=
  match e with
  | Connect now => handleConnection s now
  | Receive now cid m => handleMessage s now cid m
  | Close cid => handleDisconnection s cid
  | Heartbeat cid => heartbeat s cid
  | Pong cid => on_pong s cid
  | SocketState cid n =>
      set_connections (alter (fun c => with_readyState c n) cid) s
  | Cleanup now => cleanup s now
  end.

Definition run (es : list Event) (s : State) : State := foldl step s es.

Definition reachable (s : State) : Prop := exists es, s = run es init.

(** A property of every room of the rooms map. *)
Definition rooms_all (P : Room -> Prop) (m : gmap string Room) : Prop :=
  map_Forall (fun _ r => P r) m.

Definition nonempty (r : Room) : Prop := size (participants r) <> 0%nat.

(** The room object was not given a [callId]. *)
Definition uncalled (r : Room) : Prop := callId r = None.


(** ** What the relay hands out, and what its maps keep *)

(** The connection ids in use: every connection is stored under its
    own id, which was handed out by the counter. *)
Definition ids_ok (s : State) : Prop :=
  forall cid c, connections s !! cid = Some c ->
    c_id c = cid /\ (1 <= cid <= connectionCounter s)%nat.

Definition is_error (m : Message) : bool :=
  match m with error _ => true | _ => false end.

(** The messages handed out between [s] and [s']. *)
Definition sent (s s' : State) (l : list (nat * Message)) : Prop :=
  outbox s' = outbox s ++ l.

(** What a handler hands out on behalf of connection [cid]: messages
    for open sockets only, errors for [cid] only. *)
Definition hands_out (cid : nat) (s s' : State) : Prop :=
  (forall c, can_send s' c = can_send s c)
  /\ exists l, sent s s' l
       /\ Forall (fun x => can_send s (fst x) = true
                           /\ (is_error (snd x) = true -> fst x = cid)) l.

(** What [handleJoinRoom] validates before it adds a participant. *)
Definition participant_ok (u : string) (p : Participant) : Prop :=
  p_userId p = u /\ u <> ""%string
  /\ (p_userType p = "blind"%string \/ p_userType p = "volunteer"%string).

Definition room_ok (rid : string) (r : Room) : Prop :=
  r_id r = rid /\ rid <> ""%string /\ map_Forall participant_ok (participants r).

End Signaling.

(* ===================================================================== *)
(** * Reward queue: [BlockchainService] *)
(* ===================================================================== *)

Module Rewards.

(** A [users] document as the reward code reads it.  A count that is
    missing or not a number is [None]. *)
Record UserDoc := {
  userType : string;
  walletAddress : option string;
  totalCalls : option Z;
  totalHelpMinutes : option Z;
  lastActiveCall : option string;
  reputationScore : option Q;
}.

(** A [calls] document ([callData]).  The statistics that
    [processCompletedCall] reads from it are optional fields. *)
Record CallDoc := {
  c_status : string;
  volunteerUserId : string;
  durationSeconds : Z;
  rating : option Z;
  responseTimeMs : option Z;
  c_totalCalls : option Z;
  c_totalHelpMinutes : option Z;
  c_reputationScore : option Q;
}.

Inductive TxStatus : Type := queued | completed.

(** A transaction object of the queue. *)
Record Transaction := {
  id : string;
  userId : string;
  t_walletAddress : string;
  amount : Q;
  reason : string;
  callId : option string;
  type : string;
  status : TxStatus;
  createdAt : Z;
  retryCount : nat;
  signature : option string;
  lastError : option string;
}.

Definition maxRetries : nat := 3.

(** Where the single consumer ([processTransactionQueue]) is
    suspended: at one of its [await]s, holding the transaction it
    shifted off the queue, or not running. *)
Inductive Consumer : Type :=
| Idle
| AwaitBalance (tx : Transaction)       (* connection.getBalance(...) *)
| AwaitSend (tx : Transaction)          (* sendSOL(...) *)
| AwaitTxRecord (tx : Transaction)      (* db.collection('transactions').add *)
| AwaitRewardRecord (tx : Transaction)  (* db.collection('rewards').add *)
| Wait60                                (* setTimeout(resolve, 60000) *)
| Wait1.                                (* setTimeout(resolve, 1000) *)

(** The service object, the two collections it reads, the confirmed
    transfers, and [settled]: the transaction objects whose pass ended
    without an error (the code keeps no reference to them). *)
Record State := {
  transactionQueue : list Transaction;
  isProcessingQueue : bool;
  failedTransactions : gmap string Transaction;
  serverKeypair : bool;
  consumer : Consumer;
  users : gmap string UserDoc;
  calls : gmap string CallDoc;
  transfers : list (string * Q);
  settled : list Transaction;
}.

Definition init (keypair : bool) : State :=
  {| transactionQueue := []; isProcessingQueue := false;
     failedTransactions := ∅; serverKeypair := keypair; consumer := Idle;
     users := ∅; calls := ∅; transfers := []; settled := [] |}.

Definition set_queue (q : list Transaction) (s : State) : State :=
  {| transactionQueue := q; isProcessingQueue := isProcessingQueue s;
     failedTransactions := failedTransactions s;
     serverKeypair := serverKeypair s; consumer := consumer s;
     users := users s; calls := calls s;
     transfers := transfers s; settled := settled s |}.

Definition set_failed (f : gmap string Transaction) (s : State) : State :=
  {| transactionQueue := transactionQueue s;
     isProcessingQueue := isProcessingQueue s;
     failedTransactions := f;
     serverKeypair := serverKeypair s; consumer := consumer s;
     users := users s; calls := calls s;
     transfers := transfers s; settled := settled s |}.

Definition set_consumer (c : Consumer) (s : State) : State :=
  {| transactionQueue := transactionQueue s;
     isProcessingQueue := isProcessingQueue s;
     failedTransactions := failedTransactions s;
     serverKeypair := serverKeypair s; consumer := c;
     users := users s; calls := calls s;
     transfers := transfers s; settled := settled s |}.

Definition set_processing (b : bool) (s : State) : State :=
  {| transactionQueue := transactionQueue s;
     isProcessingQueue := b;
     failedTransactions := failedTransactions s;
     serverKeypair := serverKeypair s; consumer := consumer s;
     users := users s; calls := calls s;
     transfers := transfers s; settled := settled s |}.

Definition set_users (u : gmap string UserDoc) (s : State) : State :=
  {| transactionQueue := transactionQueue s;
     isProcessingQueue := isProcessingQueue s;
     failedTransactions := failedTransactions s;
     serverKeypair := serverKeypair s; consumer := consumer s;
     users := u; calls := calls s;
     transfers := transfers s; settled := settled s |}.

Definition set_calls (c : gmap string CallDoc) (s : State) : State :=
  {| transactionQueue := transactionQueue s;
     isProcessingQueue := isProcessingQueue s;
     failedTransactions := failedTransactions s;
     serverKeypair := serverKeypair s; consumer := consumer s;
     users := users s; calls := c;
     transfers := transfers s; settled := settled s |}.

Definition add_transfer (w : string) (a : Q) (s : State) : State :=
  {| transactionQueue := transactionQueue s;
     isProcessingQueue := isProcessingQueue s;
     failedTransactions := failedTransactions s;
     serverKeypair := serverKeypair s; consumer := consumer s;
     users := users s; calls := calls s;
     transfers := transfers s ++ [(w, a)]; settled := settled s |}.

Definition add_settled (tx : Transaction) (s : State) : State :=
  {| transactionQueue := transactionQueue s;
     isProcessingQueue := isProcessingQueue s;
     failedTransactions := failedTransactions s;
     serverKeypair := serverKeypair s; consumer := consumer s;
     users := users s; calls := calls s;
     transfers := transfers s; settled := settled s ++ [tx] |}.

(** [transaction.retryCount++] and, in the [catch] block,
    [transaction.lastError = error.message]. *)
Definition bump (tx : Transaction) (err : option string) : Transaction :=
  {| id := id tx; userId := userId tx; t_walletAddress := t_walletAddress tx;
     amount := amount tx; reason := reason tx; callId := callId tx;
     type := type tx; status := status tx; createdAt := createdAt tx;
     retryCount := S (retryCount tx); signature := signature tx;
     lastError := match err with Some e => Some e | None => lastError tx end |}.

(** [transaction.status = 'completed'; transaction.signature = signature] *)
Definition complete (tx : Transaction) (sig : string) : Transaction :=
  {| id := id tx; userId := userId tx; t_walletAddress := t_walletAddress tx;
     amount := amount tx; reason := reason tx; callId := callId tx;
     type := type tx; status := completed; createdAt := createdAt tx;
     retryCount := retryCount tx; signature := Some sig;
     lastError := lastError tx |}.

(** [transaction.retryCount = 0] *)
Definition reset_retries (tx : Transaction) : Transaction :=
  {| id := id tx; userId := userId tx; t_walletAddress := t_walletAddress tx;
     amount := amount tx; reason := reason tx; callId := callId tx;
     type := type tx; status := status tx; createdAt := createdAt tx;
     retryCount := 0; signature := signature tx;
     lastError := lastError tx |}.

(** ** The consumer loop *)

(** The head of [while (this.transactionQueue.length > 0)]: shift the
    next transaction and await the balance, or leave the loop through
    [finally]. *)
Definition loop_head (s : State) : State :=
  match transactionQueue s with
  | [] => set_consumer Idle (set_processing false s)
  | tx :: q => set_consumer (AwaitBalance tx) (set_queue q s)
  end.

(** [processTransactionQueue()], up to its first [await]. *)
Definition processTransactionQueue (s : State) : State :=
  if isProcessingQueue s || negb (serverKeypair s) then s
  else loop_head (set_processing true s).

(** Re-queue, or move to the failed set once the retries are used up. *)
Definition requeue_or_fail (tx : Transaction) (s : State) : State * bool :=
  if (retryCount tx <? maxRetries)%nat
  then (set_queue (transactionQueue s ++ [tx]) s, true)
  else (set_failed (<[id tx := tx]> (failedTransactions s)) s, false).

(** The [catch] block of a pass, then the 1-second delay. *)
Definition on_error (s : State) (tx : Transaction) (msg : string) : State :=
  set_consumer Wait1 (fst (requeue_or_fail (bump tx (Some msg)) s)).

(** What the consumer is resumed with. *)
Inductive Resumption : Type :=
| BalanceIs (lamports : Z)
| SignatureIs (sig : string)
| Stored
| Rejected (msg : string)
| TimerFired.

(** [balanceSOL < transaction.amount + 0.002] *)
Definition insufficient (lamports : Z) (tx : Transaction) : bool :=
  let balanceSOL := (inject_Z lamports / inject_Z 1000000000)%Q in
  negb (Qle_bool (amount tx + (2 # 1000)) balanceSOL).

(** The consumer goes on from the [await] it is suspended at, with
    the outcome [r] of the awaited call; an outcome that does not fit
    the [await] leaves the state as it is. *)
Definition resume (s : State) (r : Resumption) : State :=
  match consumer s, r with
  | AwaitBalance tx, BalanceIs lamports =>
      if insufficient lamports tx then
        match requeue_or_fail (bump tx None) s with
        | (s', true) => set_consumer Wait60 s'
        | (s', false) => loop_head s'
        end
      else set_consumer (AwaitSend tx) s
  | AwaitSend tx, SignatureIs sig =>
      set_consumer (AwaitTxRecord (complete tx sig))
        (add_transfer (t_walletAddress tx) (amount tx) s)
  | AwaitTxRecord tx, Stored => set_consumer (AwaitRewardRecord tx) s
  | AwaitRewardRecord tx, Stored => set_consumer Wait1 (add_settled tx s)
  | AwaitBalance tx, Rejected msg
  | AwaitSend tx, Rejected msg
  | AwaitTxRecord tx, Rejected msg
  | AwaitRewardRecord tx, Rejected msg => on_error s tx msg
  | Wait60, TimerFired => loop_head s
  | Wait1, TimerFired => loop_head s
  | _, _ => s
  end.

(** ** Queueing *)

Inductive Error : Type :=
| NotFoundError (resource : string)
| ValidationError (msg : string).

Inductive Outcome (A : Type) : Type :=
| Returned (a : A)
| Thrown (e : Error).
Arguments Returned {A} a.
Arguments Thrown {A} e.

(** What one call of [queueRewardTransaction] observes:
    the generated id, [Date.now()], and the verdict of
    [validateWalletAddress]. *)
Record QueueEnv := {
  q_txid : string;
  q_now : Z;
  q_walletValid : bool;
}.

(** [queueRewardTransaction(userId, amount, reason, callId, type)] *)
Definition queueRewardTransaction
    (s : State) (env : QueueEnv)
    (uid : string) (amt : Q) (why : string)
    (cid : option string) (ty : string) : State * Outcome string :=
  match users s !! uid with
  | None => (s, Thrown (NotFoundError "User"))
  | Some user =>
      if negb (truthy (walletAddress user)) then
        (s, Thrown (ValidationError "User must have a wallet address"))
      else if negb (q_walletValid env) then
        (s, Thrown (ValidationError "Invalid wallet address"))
      else if Qle_bool amt 0 then
        (s, Thrown (ValidationError "Reward amount must be positive"))
      else
        let transaction :=
          {| id := q_txid env; userId := uid;
             t_walletAddress := default ""%string (walletAddress user);
             amount := amt; reason := why; callId := cid; type := ty;
             status := queued; createdAt := q_now env; retryCount := 0;
             signature := None; lastError := None |} in
        let s1 := set_queue (transactionQueue s ++ [transaction]) s in
        (processTransactionQueue s1, Returned (id transaction))
  end.

(** [calculateRewardAmount(callData)] *)
Definition calculateRewardAmount (callData : CallDoc) : Q :=
  let reward :=
    if durationSeconds callData <=? 1800 then Config.shortCall
    else if durationSeconds callData <=? 3600 then Config.mediumCall
    else Config.longCall in
  let reward :=
    if bool_decide (rating callData = Some 5)
    then (reward + Config.perfectRating)%Q else reward in
  let reward :=
    match responseTimeMs callData with
    | Some t => if negb (t =? 0) && (t <? 30000)
                then (reward + Config.quickResponse)%Q else reward
    | None => reward
    end in
  reward.

(** [calculateMilestoneReward(userId)].  The early [return 0] has no
    [reward] property: it is [None] here. *)
Definition calculateMilestoneReward (s : State) (uid : string)
  : option (Q * string) :=
  match users s !! uid with
  | None => None
  | Some user =>
      if negb (bool_decide (userType user = "volunteer"%string)) then None
      else
        match totalCalls user with
        | Some 10 => Some (Config.calls10, "10 calls milestone"%string)
        | Some 50 => Some (Config.calls50, "50 calls milestone"%string)
        | Some 100 => Some (Config.calls100, "100 calls milestone"%string)
        | Some 500 => Some (Config.calls500, "500 calls milestone"%string)
        | Some 1000 => Some (Config.calls1000, "1000 calls milestone"%string)
        | _ => Some (0%Q, ""%string)
        end
  end.

(** [x + n] on a count that may be missing: [undefined + n] is [NaN]. *)
Definition js_add (x : option Z) (n : Z) : option Z :=
  match x with
  | Some m => Some (m + n)
  | None => None
  end.

Definition js_succ (x : option Z) : option Z := js_add x 1.

(** [Math.ceil(durationSeconds / 60)] *)
Definition minutes (seconds : Z) : Z := - ((- seconds) / 60).

(** [updateUserReputation(userId, newScore, reason)] *)
Definition updateUserReputation
    (s : State) (uid : string) (newScore : option Q) : State * Outcome unit :=
  match users s !! uid with
  | None => (s, Thrown (NotFoundError "User"))
  | Some user =>
      if negb (truthy (walletAddress user)) then
        (s, Thrown (ValidationError "User must have a wallet address"))
      else
        (set_users
           (<[uid := {| userType := userType user;
                        walletAddress := walletAddress user;
                        totalCalls := totalCalls user;
                        totalHelpMinutes := totalHelpMinutes user;
                        lastActiveCall := lastActiveCall user;
                        reputationScore := newScore |}]> (users s)) s,
         Returned tt)
  end.

(** The [rewards] part of the object [processCompletedCall] returns. *)
Record CallRewards := {
  callCompletion : Q;
  milestone : option Q;
}.

(** [if (milestoneReward.reward > 0) { await this.queueRewardTransaction(...) }] *)
Definition queue_milestone
    (s : State) (env : QueueEnv) (uid cid : string)
    (milestoneReward : option (Q * string)) : State * Outcome string :=
  match milestoneReward with
  | Some (reward, why) =>
      if negb (Qle_bool reward 0) then
        queueRewardTransaction s env uid reward why (Some cid) "milestone"
      else (s, Returned ""%string)
  | None => (s, Returned ""%string)
  end.

(** [updateUser(callData.volunteerUserId, { totalCalls: callData.totalCalls + 1, ... })] *)
Definition update_statistics (s : State) (callData : CallDoc) (cid : string) : State :=
  set_users
    (alter (fun u =>
       {| userType := userType u;
          walletAddress := walletAddress u;
          totalCalls := js_succ (c_totalCalls callData);
          totalHelpMinutes :=
            js_add (c_totalHelpMinutes callData)
              (minutes (durationSeconds callData));
          lastActiveCall := Some cid;
          reputationScore := reputationScore u |})
       (volunteerUserId callData) (users s)) s.

(** [processCompletedCall(callId)].  Its awaited steps run here as
    one step; [env1] and [env2] belong to its two queue requests. *)
Definition processCompletedCall
    (s : State) (env1 env2 : QueueEnv) (cid : string)
  : State * Outcome CallRewards :=
  match calls s !! cid with
  | None => (s, Thrown (NotFoundError "Call"))
  | Some callData =>
      if negb (bool_decide (c_status callData = "completed"%string)) then
        (s, Thrown (ValidationError "Call must be completed to process rewards"))
      else
        (* Queue call completion reward *)
        let rewardAmount := calculateRewardAmount callData in
        match queueRewardTransaction s env1 (volunteerUserId callData)
                rewardAmount
                ("Completed " +:+ pretty (minutes (durationSeconds callData))
                   +:+ "-minute call")
                (Some cid) "call_completion" with
        | (s1, Thrown e) => (s1, Thrown e)
        | (s1, Returned _) =>
            (* Check for milestone rewards *)
            let milestoneReward :=
              calculateMilestoneReward s1 (volunteerUserId callData) in
            match queue_milestone s1 env2 (volunteerUserId callData) cid
                    milestoneReward with
            | (s2, Thrown e) => (s2, Thrown e)
            | (s2, Returned _) =>
                (* Update volunteer statistics *)
                let s3 := update_statistics s2 callData cid in
                (* Update reputation *)
                let newReputation :=
                  match c_reputationScore callData with
                  | Some r => Some (r + 10)%Q
                  | None => None
                  end in
                match updateUserReputation s3 (volunteerUserId callData)
                        newReputation with
                | (s4, Thrown e) => (s4, Thrown e)
                | (s4, Returned _) =>
                    (s4, Returned {| callCompletion := rewardAmount;
                                     milestone := option_map fst milestoneReward |})
                end
            end
        end
  end.

(** [retryFailedTransactions()]: the state and [retriedCount]. *)
Definition retryable (s : State) : list Transaction :=
  List.filter (fun tx => (retryCount tx <? maxRetries)%nat)
    (map snd (map_to_list (failedTransactions s))).

Definition retry_one (s : State) (tx : Transaction) : State :=
  set_queue (transactionQueue s ++ [reset_retries tx])
    (set_failed (delete (id tx) (failedTransactions s)) s).

Definition retryFailedTransactions (s : State) : State * nat :=
  let l := retryable s in
  (processTransactionQueue (foldl retry_one s l), length l).

(** ** Everything that drives the reward queue *)

Inductive Event : Type :=
| QueueReward (env : QueueEnv) (uid : string) (amt : Q) (why : string)
    (cid : option string) (ty : string)
| ProcessCompletedCall (env1 env2 : QueueEnv) (cid : string)
| Tick
| RetryFailed
| Resume (r : Resumption)
| SetUser (uid : string) (doc : option UserDoc)
| SetCall (cid : string) (doc : option CallDoc).

Definition step (s : State) (e : Event) : State :=
  match e with
  | QueueReward env uid amt why cid ty =>
      fst (queueRewardTransaction s env uid amt why cid ty)
  | ProcessCompletedCall env1 env2 cid =>
      fst (processCompletedCall s env1 env2 cid)
  | Tick => processTransactionQueue s
  | RetryFailed => fst (retryFailedTransactions s)
  | Resume r => resume s r
  | SetUser uid doc => set_users (partial_alter (fun _ => doc) uid (users s)) s
  | SetCall cid doc => set_calls (partial_alter (fun _ => doc) cid (calls s)) s
  end.

Definition run (es : list Event) (s : State) : State := foldl step s es.

(** Every transaction object the service still refers to, and the
    settled ones. *)
Definition in_flight (c : Consumer) : list Transaction :=
  match c with
  | AwaitBalance tx | AwaitSend tx | AwaitTxRecord tx | AwaitRewardRecord tx => [tx]
  | Idle | Wait60 | Wait1 => []
  end.

Definition failed_list (s : State) : list Transaction :=
  map snd (map_to_list (failedTransactions s)).

Definition all_transactions (s : State) : list Transaction :=
  transactionQueue s ++ in_flight (consumer s) ++ failed_list s ++ settled s.

(** Completed call-completion transactions of one call. *)
Definition is_completion_of (cid : string) (tx : Transaction) : bool :=
  bool_decide (type tx = "call_completion"%string)
  && bool_decide (callId tx = Some cid).

Definition completed_for (cid : string) (s : State) : list Transaction :=
  List.filter
    (fun tx => is_completion_of cid tx
               && match status tx with completed => true | queued => false end)
    (all_transactions s).

(** A resumption that makes the current pass fail: the balance does
    not cover the amount, or an awaited call is rejected. *)
Definition is_failure (c : Consumer) (r : Resumption) : bool :=
  match c, r with
  | AwaitBalance tx, BalanceIs lamports => insufficient lamports tx
  | AwaitBalance _, Rejected _
  | AwaitSend _, Rejected _
  | AwaitTxRecord _, Rejected _
  | AwaitRewardRecord _, Rejected _ => true
  | _, _ => false
  end.

(** Requests for a call-completion reward of call [cid]. *)
Definition is_request (cid : string) (e : Event) : bool :=
  match e with
  | QueueReward _ _ _ _ c ty =>
      bool_decide (ty = "call_completion"%string) && bool_decide (c = Some cid)
  | ProcessCompletedCall _ _ c => bool_decide (c = cid)
  | _ => false
  end.

Definition requests (cid : string) (es : list Event) : nat :=
  length (List.filter (is_request cid) es).

(** The number of call-completion transactions of call [cid] in a
    list, and in the whole state. *)
Definition cnt (cid : string) (l : list Transaction) : nat :=
  length (List.filter (is_completion_of cid) l).

Definition total (cid : string) (s : State) : nat :=
  (cnt cid (transactionQueue s) + cnt cid (in_flight (consumer s))
   + cnt cid (failed_list s) + cnt cid (settled s))%nat.

(** Retry counts: below the ceiling everywhere but in the failed set,
    where they equal it. *)
Definition fresh (tx : Transaction) : Prop := (retryCount tx < maxRetries)%nat.
Definition exhausted (tx : Transaction) : Prop := retryCount tx = maxRetries.

Record retry_inv (s : State) : Prop := {
  inv_queue : Forall fresh (transactionQueue s);
  inv_flight : Forall fresh (in_flight (consumer s));
  inv_failed : map_Forall (fun _ tx => exhausted tx) (failedTransactions s);
  inv_settled : Forall fresh (settled s);
}.


(** ** Payments *)

(** The transactions the consumer still has to deal with, in the order
    in which it will: the one in flight, then the queue. *)
Definition pending (s : State) : list Transaction :=
  in_flight (consumer s) ++ transactionQueue s.

(** What [queueRewardTransaction] checks before it accepts, and how
    [status] and [signature] go together. *)
Definition valid (tx : Transaction) : Prop :=
  (0 < amount tx)%Q /\ t_walletAddress tx <> ""%string
  /\ (status tx = completed <-> is_Some (signature tx)).

(** A transaction marked completed has had its transfer confirmed. *)
Definition paid (s : State) (tx : Transaction) : Prop :=
  status tx = completed -> (t_walletAddress tx, amount tx) ∈ transfers s.

(** The consumer is past the transfer of the transaction in flight. *)
Definition sent_flight (c : Consumer) : list Transaction :=
  match c with
  | AwaitTxRecord tx | AwaitRewardRecord tx => [tx]
  | _ => []
  end.

Record pay_inv (s : State) : Prop := {
  pay_queue : Forall (fun tx => valid tx /\ paid s tx) (transactionQueue s);
  pay_flight : Forall (fun tx => valid tx /\ paid s tx) (in_flight (consumer s));
  pay_failed : map_Forall (fun _ tx => valid tx /\ paid s tx) (failedTransactions s);
  pay_settled :
    Forall (fun tx => valid tx /\ status tx = completed /\ paid s tx) (settled s);
  pay_sent : Forall (fun tx => status tx = completed) (sent_flight (consumer s));
  pay_transfers :
    Forall (fun wa => fst wa <> ""%string /\ (0 < snd wa)%Q) (transfers s);
  pay_count :
    (length (settled s) + length (sent_flight (consumer s)) <= length (transfers s))%nat;
}.

(** The consumer runs exactly while [isProcessingQueue] is set, and
    with a server keypair it does not stop before the queue is empty. *)
Record consumer_inv (s : State) : Prop := {
  cons_flag : isProcessingQueue s = true <-> consumer s <> Idle;
  cons_drained : serverKeypair s = true -> consumer s = Idle -> transactionQueue s = [];
}.

(** A service without a server keypair that has processed nothing. *)
Record inert (s : State) : Prop := {
  inert_keypair : serverKeypair s = false;
  inert_consumer : consumer s = Idle;
  inert_flag : isProcessingQueue s = false;
  inert_transfers : transfers s = [];
  inert_settled : settled s = [];
  inert_failed : failedTransactions s = ∅;
}.

End Rewards.

(* ===================================================================== *)
(** * Ending a call: [POST /:callId/end] (routes/calls.js) *)
(* ===================================================================== *)

Module CallsRoute.

(** The change of the volunteer's reputation for a call the blind user
    rated: [let reputationChange = 10], a bonus for [rating >= 4] and a
    penalty for [rating <= 2]. *)
Definition reputationChange (rating : Q) : Q :=
  let reputationChange := 10%Q in
  let reputationChange :=
    if Qle_bool 4 rating then (reputationChange + (rating - 3) * 5)%Q
    else reputationChange in
  let reputationChange :=
    if Qle_bool rating 2 then (reputationChange - (3 - rating) * 5)%Q
    else reputationChange in
  reputationChange.

(** [Math.max(0, (volunteer.reputationScore || 0) + reputationChange)];
    a score that is missing or not a number counts as 0. *)
Definition newReputation (stored : option Q) (rating : Q) : Q :=
  Qmax 0 (default 0%Q stored + reputationChange rating).

End CallsRoute.

(* ===================================================================== *)
(** * Concrete scenarios *)
(* ===================================================================== *)

Module MatchingScenario.
Import Matching.

Definition blind1 : User :=
  {| id := "b1"; userType := "blind"; firstName := "Bea"; reputationScore := 0;
     totalCalls := 0; skills := None; averageResponseTime := None;
     isOnline := true |}.

Definition no_volunteers_env : AttemptEnv :=
  {| e_now := 1000; e_blindUser := Ok (Some blind1); e_volunteers := Ok [];
     e_scoreNow := 1000; e_roomId := "room"; e_createCall := Ok "call"%string;
     e_matchedAt := 1000 |}.

Definition match1 : MatchInfo :=
  {| m_callId := "call-1"; blindUserId := "b1"; volunteerUserId := "v1";
     m_roomId := "room-1"; m_status := "matched"; matchedAt := 500;
     acceptedAt := None |}.

Definition matched_service : Service :=
  {| waitingQueue := ∅; activeMatches := {[ "room-1"%string := match1 ]};
     volunteerLastCall := {[ "v1"%string := 500 ]};
     callCount := {[ "v1"%string := 1 ]} |}.




(** A second volunteer without skills, never called before. *)
Definition newcomer : User :=
  {| id := "v3"; userType := "volunteer"; firstName := "Noa";
     reputationScore := 0; totalCalls := 0; skills := None;
     averageResponseTime := None; isOnline := true |}.

(** A volunteer whose penalty for calls made outweighs every bonus. *)
Definition busy_service : Service :=
  {| waitingQueue := ∅; activeMatches := ∅;
     volunteerLastCall := {[ "v3"%string := 4600000 ]};
     callCount := {[ "v3"%string := 40 ]} |}.

Definition busy_env : AttemptEnv :=
  {| e_now := 1000; e_blindUser := Ok (Some blind1);
     e_volunteers := Ok [newcomer];
     e_scoreNow := 4600000; e_roomId := "room"; e_createCall := Ok "call"%string;
     e_matchedAt := 1000 |}.

Definition waiting1 : WaitingInfo :=
  {| w_userId := "b1"; helpCategory := "reading"; priority := 1;
     startTime := 0; timeout := 60000; w_status := "waiting" |}.

Definition waiting_service : Service :=
  {| waitingQueue := {[ "b1"%string := waiting1 ]}; activeMatches := ∅;
     volunteerLastCall := ∅; callCount := ∅ |}.

End MatchingScenario.

Module SignalingScenario.
Import Signaling.

Definition join (room user type : string) : ClientMessage :=
  join_room {| j_roomId := Some room; j_userId := Some user;
               j_userType := Some type |}.

Definition set_status (st : string) : ClientMessage :=
  call_status_msg {| d_status := Some st; d_reason := None |}.

(** Two users in room "R", the call reported active by connection 1. *)
Definition active_call : State :=
  run [Connect 0; Connect 0;
       Receive 1 1 (join "R" "b1" "blind");
       Receive 2 2 (join "R" "v1" "volunteer");
       Receive 3 1 (set_status "active")] init.

(** Three connections join the same room under three user ids. *)
Definition three_joined : State :=
  run [Connect 0; Connect 0; Connect 0;
       Receive 1 1 (join "R" "b1" "blind");
       Receive 2 2 (join "R" "v1" "volunteer");
       Receive 3 3 (join "R" "v2" "volunteer")] init.

Definition two_joined : State :=
  run [Connect 0; Connect 0; Connect 0;
       Receive 1 1 (join "R" "b1" "blind");
       Receive 2 2 (join "R" "v1" "volunteer")] init.

(** A single user in room "R" reports the call active. *)
Definition alone_in_call : State :=
  run [Connect 0;
       Receive 1 1 (join "R" "b1" "blind");
       Receive 2 1 (set_status "active")] init.

(** Connection 1 as [handleConnection] registers it at time 0. *)
Definition new_connection : ConnectionInfo :=
  {| c_id := 1; userId := None; userType := None; roomId := None;
     connectedAt := 0; isAlive := true; readyState := 1 |}.

Definition one_connected : State := run [Connect 0] init.

(** Connection 1 of [two_joined], in room "R" as the blind user. *)
Definition blind_connection : ConnectionInfo :=
  {| c_id := 1; userId := Some "b1"%string; userType := Some "blind"%string;
     roomId := Some "R"%string; connectedAt := 0; isAlive := true; readyState := 1 |}.

(** The room the first join of [alone_in_call] creates. *)
Definition first_join : list Event := [Connect 0; Receive 1 1 (join "R" "b1" "blind")].

Definition first_room : Room :=
  {| r_id := "R";
     participants :=
       {[ "b1"%string := {| p_connectionId := 1; p_userId := "b1"; p_userType := "blind";
                             joinedAt := 1; isReady := false |} ]};
     createdAt := 1; status := "waiting"; callId := None |}.

End SignalingScenario.

Module RewardsScenario.
Import Rewards.

(** A volunteer as [register] stores it ([totalCalls: 0]), with a wallet. *)
Definition volunteer (calls : option Z) : UserDoc :=
  {| userType := "volunteer"; walletAddress := Some "Wallet1111"%string;
     totalCalls := calls; totalHelpMinutes := Some 0;
     lastActiveCall := None; reputationScore := Some 50%Q |}.

(** A completed ten-minute call as [createCall] and the end-call
    route write it: no [totalCalls] field. *)
Definition finished_call : CallDoc :=
  {| c_status := "completed"; volunteerUserId := "v1"; durationSeconds := 600;
     rating := None; responseTimeMs := None; c_totalCalls := None;
     c_totalHelpMinutes := None; c_reputationScore := None |}.

(** The same, for a store that would copy the volunteer's count
    into the call document. *)
Definition counted_call (n : Z) : CallDoc :=
  {| c_status := "completed"; volunteerUserId := "v1"; durationSeconds := 600;
     rating := None; responseTimeMs := None; c_totalCalls := Some n;
     c_totalHelpMinutes := Some 0; c_reputationScore := Some 50%Q |}.

Definition env (txid : string) : QueueEnv :=
  {| q_txid := txid; q_now := 0; q_walletValid := true |}.

Definition with_volunteer (calls : option Z) (call : CallDoc) : State :=
  run [SetUser "v1" (Some (volunteer calls)); SetCall "c" (Some call)] (init true).

Definition milestones (s : State) : list Transaction :=
  List.filter (fun tx => bool_decide (type tx = "milestone"%string))
    (all_transactions s).

(** The [n]-th call of the volunteer ends and is processed. *)
Definition finish_call (n : nat) : list Event :=
  [SetCall ("call-" +:+ pretty n) (Some finished_call);
   ProcessCompletedCall (env ("reward-" +:+ pretty n)) (env ("milestone-" +:+ pretty n))
     ("call-" +:+ pretty n)].

(** The first ten completed calls of a newly registered volunteer. *)
Definition ten_calls : list Event :=
  SetUser "v1" (Some (volunteer (Some 0))) :: flat_map finish_call (seq 1 10).

(** One full successful pass of the consumer. *)
Definition pay (sig : string) : list Event :=
  [Resume (BalanceIs 5000000000); Resume (SignatureIs sig);
   Resume Stored; Resume Stored; Resume TimerFired].

(** The same completed call processed twice, both payouts sent. *)
Definition processed_twice : State :=
  run ([SetUser "v1" (Some (volunteer (Some 0))); SetCall "c" (Some finished_call);
        ProcessCompletedCall (env "tx1") (env "m1") "c";
        ProcessCompletedCall (env "tx2") (env "m2") "c"]
       ++ pay "sig1" ++ pay "sig2") (init true).

(** A transaction whose submission was rejected twice is in flight. *)
Definition two_failures : State :=
  run [SetUser "v1" (Some (volunteer (Some 0)));
       QueueReward (env "tx1") "v1" (1 # 100) "bonus" None "bonus";
       Resume (Rejected "rpc"); Resume TimerFired;
       Resume (Rejected "rpc"); Resume TimerFired] (init true).

Definition retried_twice : Transaction :=
  {| id := "tx1"; userId := "v1"; t_walletAddress := "Wallet1111";
     amount := 1 # 100; reason := "bonus"; callId := None; type := "bonus";
     status := queued; createdAt := 0; retryCount := 2;
     signature := None; lastError := Some "rpc"%string |}.

(** A bonus of 0.01 SOL whose balance check has passed: the consumer
    awaits the transfer, and the queue is empty. *)
Definition bonus_tx : Transaction :=
  {| id := "tx1"; userId := "v1"; t_walletAddress := "Wallet1111";
     amount := 1 # 100; reason := "bonus"; callId := None; type := "bonus";
     status := queued; createdAt := 0; retryCount := 0;
     signature := None; lastError := None |}.

Definition sending : State :=
  run [SetUser "v1" (Some (volunteer (Some 0)));
       QueueReward (env "tx1") "v1" (1 # 100) "bonus" None "bonus";
       Resume (BalanceIs 5000000000)] (init true).

End RewardsScenario.

(* ===================================================================== *)
(** * Properties of the matching engine *)
(* ===================================================================== *)

Section MatchingProperties.
Import Matching.

(** ** Retrying when nobody is available *)

(** With no available volunteer, a pass of the loop always ends in its
    [catch] block. *)
Lemma attempt_body_throws s env blind w :
  e_volunteers env = Ok [] ->
  exists s' e, attempt_body s env blind w = (s', [], Thrown e)
    /\ (s' = s \/ s' = drop_waiting s blind)
    /\ (e_now env <= timeout w -> forall u, e_blindUser env = Ok (Some u) ->
        userType u = "blind"%string ->
        s' = s /\ e = MatchingError "No volunteers available at the moment").
Proof.
  intros Hv. unfold attempt_body.
  destruct (e_now env >? timeout w) eqn:Ht.
  - eexists _, _. split; [reflexivity|]. split; [by right|].
    intros Hle. apply Z.gtb_lt in Ht. lia.
  - unfold findBestMatch. rewrite Hv.
    destruct (e_blindUser env) as [[u|]|msg] eqn:Hb; simpl.
    + destruct (bool_decide (userType u = "blind"%string)) eqn:Hu; simpl.
      * eexists _, _. split; [reflexivity|]. split; [by left|]. done.
      * eexists _, _. split; [reflexivity|]. split; [by left|].
        intros _ u' [= <-] Hu'. apply bool_decide_eq_false in Hu. done.
    + eexists _, _. split; [reflexivity|]. split; [by left|]. intros _ u' [=].
    + eexists _, _. split; [reflexivity|]. split; [by left|]. intros _ u' [=].
Qed.

Lemma drop_waiting_lookup s blind : waitingQueue (drop_waiting s blind) !! blind = None.
Proof. simpl. apply lookup_delete_eq. Qed.

Lemma drop_waiting_queue s blind :
  waitingQueue (drop_waiting s blind) = delete blind (waitingQueue s).
Proof. reflexivity. Qed.

Lemma attempt_body_queue s env blind w s' tr out :
  attempt_body s env blind w = (s', tr, out) ->
  match out with
  | Returned _ => waitingQueue s' = delete blind (waitingQueue s)
  | Thrown _ => waitingQueue s' = waitingQueue s
                \/ waitingQueue s' = delete blind (waitingQueue s)
  end.
Proof.
  unfold attempt_body.
  destruct (e_now env >? timeout w).
  { intros [= <- <- <-]. by right. }
  destruct (findBestMatch _ _ _ _ _) as [[v q]|e].
  - destruct (e_createCall env); intros [= <- <- <-]; simpl; auto.
  - intros [= <- <- <-]. by left.
Qed.

Lemma attempt_loop_queue fuel : forall attempt s envs blind w s' tr out,
  (attempt + fuel = 4)%nat -> (1 <= fuel)%nat ->
  attempt_loop fuel attempt s envs blind w = (s', tr, out) ->
  waitingQueue s' = delete blind (waitingQueue s) /\ is_Some out.
Proof.
  induction fuel as [|fuel IH]; intros attempt s envs blind w s' tr out Hsum Hpos; [lia|].
  simpl.
  destruct (attempt_body s (envs attempt) blind w) as [[s1 tr1] [r|e]] eqn:Hb;
    apply attempt_body_queue in Hb.
  - intros [= <- <- <-]. split; [done|by eexists].
  - destruct (attempt =? maxAttempts)%nat eqn:Hlast.
    + intros [= <- <- <-]. split; [|by eexists].
      rewrite drop_waiting_queue.
      destruct Hb as [-> | ->]; [done|]. by rewrite delete_delete_eq.
    + apply Nat.eqb_neq in Hlast. unfold maxAttempts in Hlast.
      destruct (attempt_loop fuel (S attempt) s1 envs blind w) as [[s2 tr2] out2] eqn:Hl.
      intros [= <- <- <-].
      apply IH in Hl; [|lia|lia]. destruct Hl as [Hq Hs]. split; [|done].
      rewrite Hq. destruct Hb as [-> | ->]; [done|]. by rewrite delete_delete_eq.
Qed.

(** C3 (amended).  When the help-seeker is not queued yet and the set
    of available volunteers is empty at every attempt, [startMatching]
    does not fail at once: it goes through all three attempts, waits
    2 seconds twice, removes the queue entry and only then throws.  The
    error is the no-volunteers error when the deadline has not passed at
    the third attempt and the caller is a known blind user. *)
Theorem startMatching_no_volunteers_retries
    (s : Service) (now : Z) (envs : nat -> AttemptEnv)
    (blind category : string) (prio timeoutMs : Z) :
  waitingQueue s !! blind = None ->
  (forall k, e_volunteers (envs k) = Ok []) ->
  exists s' e,
    startMatching s now envs blind category prio timeoutMs
      = (s', [Delay 2000; Delay 2000], Some (Thrown e))
    /\ waitingQueue s' !! blind = None
    /\ (e_now (envs 3%nat) <= now + timeoutMs ->
        forall u, e_blindUser (envs 3%nat) = Ok (Some u) ->
                  userType u = "blind"%string ->
        e = MatchingError "No volunteers available at the moment").
Proof.
  intros Hfree Hvol. unfold startMatching. rewrite Hfree.
  unfold attemptMatch, maxAttempts. simpl attempt_loop.
  set (w := {| w_userId := blind |}).
  set (s1 := {| waitingQueue := <[blind:=w]> (waitingQueue s) |}).
  destruct (attempt_body_throws s1 (envs 1%nat) blind w (Hvol _)) as (sa & ea & -> & _ & _).
  destruct (attempt_body_throws sa (envs 2%nat) blind w (Hvol _)) as (sb & eb & -> & _ & _).
  destruct (attempt_body_throws sb (envs 3%nat) blind w (Hvol _)) as (sc & ec & -> & _ & Hc).
  simpl. eexists _, _. split; [reflexivity|]. split.
  - apply drop_waiting_lookup.
  - intros Ht u Hu Hty. by destruct (Hc Ht u Hu Hty).
Qed.

(** Witness of C3 (amended): a blind user, the default two-minute wait,
    no volunteer at any attempt. *)
Lemma startMatching_no_volunteers_retries_witness :
  exists s' e,
    startMatching new_service 0 (fun _ => MatchingScenario.no_volunteers_env)
      "b1" "general" 5 Config.maxWaitTime
      = (s', [Delay 2000; Delay 2000], Some (Thrown e))
    /\ waitingQueue s' !! "b1"%string = None
    /\ (e_now MatchingScenario.no_volunteers_env <= 0 + Config.maxWaitTime ->
        forall u, e_blindUser MatchingScenario.no_volunteers_env = Ok (Some u) ->
                  userType u = "blind"%string ->
        e = MatchingError "No volunteers available at the moment").
Proof.
  apply (startMatching_no_volunteers_retries new_service 0
           (fun _ => MatchingScenario.no_volunteers_env) "b1" "general" 5 Config.maxWaitTime).
  - reflexivity.
  - intros k. reflexivity.
Defined.

(** Counterexample to C3 as stated: with zero available volunteers the
    no-volunteers error comes after two 2-second delays, not none. *)
Lemma startMatching_no_volunteers_not_immediate :
  let run := startMatching new_service 0 (fun _ => MatchingScenario.no_volunteers_env)
               "b1" "general" 5 Config.maxWaitTime in
  e_volunteers MatchingScenario.no_volunteers_env = Ok []
  /\ snd run = Some (Thrown (MatchingError "No volunteers available at the moment"))
  /\ delays (snd (fst run)) = 2%nat
  /\ delays (snd (fst run)) <> 0%nat.
Proof. vm_compute. repeat split; congruence. Qed.

(** ** Declining a match *)

(** C8 (what the code does).  A successful [declineMatch] asks for the
    volunteer to be available again, marks the call failed, drops the
    active match and starts a rematch with a fresh 60-second deadline
    in the background; it returns success whatever the rematch does,
    and a rematch that throws only writes a log entry.  But the
    help-seeker is not re-entered into the waiting queue: the
    [waitingInfo] that [declineMatch] builds (status "rematching") is
    handed to [attemptMatch] without the [waitingQueue.set] that
    [startMatching] does first, so [declineMatch] leaves the queue as
    it was, and after the rematch the queue holds no entry for the
    help-seeker. *)
Theorem declineMatch_rematch_outside_queue
    (s : Service) (now : Z) (roomId volunteerId reason : string) (m : MatchInfo) :
  activeMatches s !! roomId = Some m ->
  volunteerUserId m = volunteerId ->
  exists s' bg,
    declineMatch s now (Ok tt) roomId volunteerId reason
      = (s', [SetVolunteerAvailability volunteerId true;
              UpdateCall (m_callId m) "failed" (Some reason)],
         Returned tt, Some bg)
    /\ activeMatches s' !! roomId = None
    /\ waitingQueue s' = waitingQueue s
    /\ bg_blind bg = blindUserId m
    /\ timeout (bg_waitingInfo bg) = now + 60000
    /\ w_status (bg_waitingInfo bg) = "rematching"%string
    /\ forall envs,
         waitingQueue (fst (run_rematch s' envs bg)) !! blindUserId m = None
         /\ forall s2 tr e,
              attemptMatch s' envs (bg_blind bg) (bg_waitingInfo bg)
                = (s2, tr, Some (Thrown e)) ->
              run_rematch s' envs bg
                = (s2, tr ++ [LogRematchFailed (blindUserId m) e]).
Proof.
  intros Hm Hv. unfold declineMatch. rewrite Hm.
  rewrite (bool_decide_eq_true_2 _ Hv). simpl.
  eexists _, _. split; [reflexivity|]. simpl.
  split; [apply lookup_delete_eq|].
  do 4 (split; [reflexivity|]).
  intros envs. split.
  - unfold run_rematch. simpl.
    match goal with |- context [attemptMatch ?a ?b ?c ?d] =>
      destruct (attemptMatch a b c d) as [[s2 tr] out] eqn:Hrun end.
    unfold attemptMatch in Hrun.
    apply attempt_loop_queue in Hrun; [|reflexivity|unfold maxAttempts; lia].
    destruct Hrun as [Hq _].
    assert (waitingQueue s2 !! blindUserId m = None) as Hnone.
    { rewrite Hq. apply lookup_delete_eq. }
    destruct out as [[r|e]|]; exact Hnone.
  - intros s2 tr e Hrun. unfold run_rematch. simpl in *. by rewrite Hrun.
Qed.

(** Witness of C8: volunteer "v1" declines the match of room
    "room-1". *)
Lemma declineMatch_rematch_outside_queue_witness :
  activeMatches MatchingScenario.matched_service !! "room-1"%string = Some MatchingScenario.match1
  /\ volunteerUserId MatchingScenario.match1 = "v1"%string
  /\ exists s' bg,
    declineMatch MatchingScenario.matched_service 1000 (Ok tt) "room-1" "v1" "busy"
      = (s', [SetVolunteerAvailability "v1" true; UpdateCall "call-1" "failed" (Some "busy"%string)],
         Returned tt, Some bg)
    /\ activeMatches s' !! "room-1"%string = None
    /\ waitingQueue s' = waitingQueue MatchingScenario.matched_service
    /\ bg_blind bg = "b1"%string
    /\ timeout (bg_waitingInfo bg) = 1000 + 60000
    /\ w_status (bg_waitingInfo bg) = "rematching"%string
    /\ forall envs,
         waitingQueue (fst (run_rematch s' envs bg)) !! "b1"%string = None
         /\ forall s2 tr e,
              attemptMatch s' envs (bg_blind bg) (bg_waitingInfo bg)
                = (s2, tr, Some (Thrown e)) ->
              run_rematch s' envs bg
                = (s2, tr ++ [LogRematchFailed "b1" e]).
Proof.
  split; [reflexivity|]. split; [reflexivity|].
  apply (declineMatch_rematch_outside_queue MatchingScenario.matched_service 1000
           "room-1" "v1" "busy" MatchingScenario.match1); reflexivity.
Defined.

(** C8 at the failing input: after a successful decline there is no
    [WaitingEntry] for the help-seeker "b1". *)
Lemma declineMatch_leaves_no_waiting_entry :
  let r := declineMatch MatchingScenario.matched_service 1000 (Ok tt) "room-1" "v1" "busy" in
  snd (fst r) = Returned tt
  /\ waitingQueue (fst (fst (fst r))) !! "b1"%string = None.
Proof. vm_compute. split; reflexivity. Qed.

(** ** Scoring *)




End MatchingProperties.

(* ===================================================================== *)
(** * Properties of the signaling relay *)
(* ===================================================================== *)

Create Rewrite HintDb relay_frame.

Ltac frame := repeat (progress (simpl; autorewrite with relay_frame)).

Section SignalingProperties.
Import Signaling.

(** ** Frame lemmas: what sending messages leaves alone *)

Lemma rooms_sendMessage s cid m : rooms (sendMessage s cid m) = rooms s.
Proof. unfold sendMessage. by destruct (can_send s cid). Qed.

Lemma updates_sendMessage s cid m : callUpdates (sendMessage s cid m) = callUpdates s.
Proof. unfold sendMessage. by destruct (can_send s cid). Qed.

Lemma connections_sendMessage s cid m : connections (sendMessage s cid m) = connections s.
Proof. unfold sendMessage. by destruct (can_send s cid). Qed.

Lemma rooms_broadcastToRoom s rid m ex : rooms (broadcastToRoom s rid m ex) = rooms s.
Proof. unfold broadcastToRoom. by destruct (rooms s !! rid). Qed.

Lemma updates_broadcastToRoom s rid m ex :
  callUpdates (broadcastToRoom s rid m ex) = callUpdates s.
Proof. unfold broadcastToRoom. by destruct (rooms s !! rid). Qed.

Lemma connections_broadcastToRoom s rid m ex :
  connections (broadcastToRoom s rid m ex) = connections s.
Proof. unfold broadcastToRoom. by destruct (rooms s !! rid). Qed.

Lemma outbox_broadcastToRoom s rid r m ex :
  rooms s !! rid = Some r ->
  outbox (broadcastToRoom s rid m ex)
  = outbox s ++ map (fun cid => (cid, m)) (recipients s r ex).
Proof. intros H. unfold broadcastToRoom. by rewrite H. Qed.

#[local] Hint Rewrite rooms_sendMessage updates_sendMessage connections_sendMessage
  rooms_broadcastToRoom updates_broadcastToRoom connections_broadcastToRoom
  : relay_frame.

(** ** Properties that every room of the map keeps

    A property of rooms that survives a status change, the removal of
    a participant that leaves somebody behind, and a join, holds for
    every room of the map in every reachable state. *)

Lemma relay_rooms label ty b s cid data : rooms (relay label ty b s cid data) = rooms s.
Proof.
  unfold relay, sendError.
  repeat (match goal with
          | |- context [match ?x with _ => _ end] => destruct x
          end; frame; try done).
Qed.

Section RoomInvariant.
Variable P : Room -> Prop.
Hypothesis P_status : forall r st, P r -> P (with_status r st).
Hypothesis P_removed :
  forall r u, P r -> size (participants (remove_participant r u)) <> 0%nat ->
              P (remove_participant r u).
Hypothesis P_joined :
  forall r uid p, P r -> P (with_participants r (<[uid := p]> (participants r))).
Hypothesis P_created :
  forall rid now uid p,
    P (with_participants
         {| r_id := rid; participants := ∅; createdAt := now;
            status := "waiting"; callId := None |}
         (<[uid := p]> ∅)).

Lemma rooms_all_insert m rid r :
  rooms_all P m -> P r -> rooms_all P (<[rid := r]> m).
Proof. intros Hm Hr. by apply map_Forall_insert_2. Qed.

Lemma rooms_all_delete m rid : rooms_all P m -> rooms_all P (delete rid m).
Proof. intros Hm. by apply map_Forall_delete. Qed.

Lemma handleLeaveRoom_rooms_all s cid :
  rooms_all P (rooms s) -> rooms_all P (rooms (handleLeaveRoom s cid)).
Proof.
  intros Hok. unfold handleLeaveRoom.
  destruct (connections s !! cid) as [c|]; [|done].
  destruct (truthy (roomId c)); simpl; [|done].
  frame.
  destruct (rooms s !! default ""%string (roomId c)) as [room|] eqn:Hroom; [|done].
  destruct (size (participants (remove_participant room (userId c))) =? 0)%nat eqn:Hsz;
    frame.
  - rewrite delete_insert_eq. by apply rooms_all_delete.
  - apply Nat.eqb_neq in Hsz.
    rewrite insert_insert_eq. apply rooms_all_insert; [done|].
    apply P_status, P_removed; [|done]. by apply (Hok _ _ Hroom).
Qed.

Lemma handleJoinRoom_rooms_all s now cid data :
  rooms_all P (rooms s) -> rooms_all P (rooms (handleJoinRoom s now cid data)).
Proof.
  intros Hok. unfold handleJoinRoom, sendError.
  destruct (connections s !! cid) as [c|]; [|by frame].
  destruct (negb (truthy (j_roomId data) && truthy (j_userId data)
                  && truthy (j_userType data))); [by frame|].
  destruct (negb _); [by frame|].
  frame.
  set (s1 := if truthy (roomId c) then handleLeaveRoom s cid else s).
  assert (rooms_all P (rooms s1)) as Hok1.
  { unfold s1. destruct (truthy (roomId c)); [by apply handleLeaveRoom_rooms_all|done]. }
  apply rooms_all_insert; [done|].
  match goal with |- context [if ?b then _ else _] => destruct b end;
    try apply P_status;
    (destruct (rooms s1 !! default ""%string (j_roomId data)) as [room|] eqn:Hroom;
     [apply P_joined; by apply (Hok1 _ _ Hroom) | apply P_created]).
Qed.

Lemma handleCallStatus_rooms_all s cid data :
  rooms_all P (rooms s) -> rooms_all P (rooms (handleCallStatus s cid data)).
Proof.
  intros Hok. unfold handleCallStatus, sendError.
  destruct (connections s !! cid) as [c|]; [|by frame].
  destruct (negb (truthy (roomId c))); [by frame|].
  destruct (negb (truthy (d_status data))); [by frame|].
  destruct (rooms s !! default ""%string (roomId c)) as [room|] eqn:Hroom; [|by frame].
  frame.
  assert (rooms_all P (<[default ""%string (roomId c) :=
            with_status room (default ""%string (d_status data))]> (rooms s))).
  { apply rooms_all_insert; [done|]. apply P_status. by apply (Hok _ _ Hroom). }
  by destruct (call_ended _).
Qed.

Lemma handleDisconnection_rooms_all s cid :
  rooms_all P (rooms s) -> rooms_all P (rooms (handleDisconnection s cid)).
Proof.
  intros Hok. unfold handleDisconnection.
  destruct (connections s !! cid) as [c|]; [|done].
  simpl.
  destruct (truthy (roomId c)); [|done].
  destruct (rooms s !! default ""%string (roomId c)) as [room|] eqn:Hroom; [|done].
  destruct (size (participants (remove_participant room (userId c))) =? 0)%nat eqn:Hsz.
  - assert (rooms_all P (delete (default ""%string (roomId c))
               (<[default ""%string (roomId c) := remove_participant room (userId c)]>
                  (rooms s)))) by (rewrite delete_insert_eq; by apply rooms_all_delete).
    destruct (in_call _); frame; done.
  - apply Nat.eqb_neq in Hsz.
    assert (rooms_all P (<[default ""%string (roomId c) :=
                          with_status (remove_participant room (userId c)) "waiting"]>
               (<[default ""%string (roomId c) := remove_participant room (userId c)]>
                  (rooms s)))).
    { rewrite insert_insert_eq. apply rooms_all_insert; [done|].
      apply P_status, P_removed; [|done]. by apply (Hok _ _ Hroom). }
    destruct (in_call _); frame; done.
Qed.

Lemma cleanup_rooms_all s now :
  rooms_all P (rooms s) -> rooms_all P (rooms (cleanup s now)).
Proof.
  intros Hok. unfold cleanup. simpl.
  intros rid r Hr. apply map_lookup_filter_Some in Hr as [Hr _]. by apply (Hok _ _ Hr).
Qed.

Lemma step_rooms_all s e : rooms_all P (rooms s) -> rooms_all P (rooms (step s e)).
Proof.
  intros Hok. destruct e as [now|now cid m|cid|cid|cid|cid n|now]; simpl.
  - unfold handleConnection. by frame.
  - unfold handleMessage. destruct (connections s !! cid); [|done].
    destruct m; unfold sendError, handleOffer, handleAnswer, handleIceCandidate;
      rewrite ?relay_rooms; frame; try done.
    + by apply handleJoinRoom_rooms_all.
    + by apply handleLeaveRoom_rooms_all.
    + by apply handleCallStatus_rooms_all.
  - by apply handleDisconnection_rooms_all.
  - unfold heartbeat. destruct (connections s !! cid) as [c|]; [|done].
    by destruct (negb (isAlive c)).
  - done.
  - done.
  - by apply cleanup_rooms_all.
Qed.

Lemma run_rooms_all es : forall s, rooms_all P (rooms s) -> rooms_all P (rooms (run es s)).
Proof.
  induction es as [|e es IH]; intros s Hok; [done|].
  simpl. apply IH. by apply step_rooms_all.
Qed.

Lemma reachable_rooms_all es : rooms_all P (rooms (run es init)).
Proof. apply run_rooms_all. apply map_Forall_empty. Qed.

End RoomInvariant.

(** No room of the map is empty. *)
Lemma reachable_rooms_nonempty es : rooms_all nonempty (rooms (run es init)).
Proof.
  apply reachable_rooms_all; unfold nonempty.
  - intros r st H. exact H.
  - intros r u _ H. exact H.
  - intros r uid p _. simpl. intros H. apply map_size_empty_inv in H.
    by apply insert_non_empty in H.
  - intros rid now uid p. simpl. intros H. apply map_size_empty_inv in H.
    by apply insert_non_empty in H.
Qed.

(** The relay never gives a room a [callId]: the handlers read
    [room.callId] of an object that has no such property. *)
Lemma reachable_rooms_uncalled es : rooms_all uncalled (rooms (run es init)).
Proof.
  apply reachable_rooms_all; unfold uncalled.
  - intros r st H. exact H.
  - intros r [u|] H _; exact H.
  - intros r uid p H. exact H.
  - reflexivity.
Qed.

Lemma truthy_Some s : s <> ""%string -> truthy (Some s) = true.
Proof. intros H. simpl. by rewrite bool_decide_eq_false_2. Qed.

(** Leaving touches no room but the one the connection is in. *)
Lemma handleLeaveRoom_other_room (s : State) (cid : nat) (rid : string) :
  (forall c, connections s !! cid = Some c -> default ""%string (roomId c) <> rid) ->
  rooms (handleLeaveRoom s cid) !! rid = rooms s !! rid.
Proof.
  intros Hne. unfold handleLeaveRoom.
  destruct (connections s !! cid) as [c|] eqn:Hc; [|done].
  specialize (Hne c eq_refl).
  destruct (truthy (roomId c)); simpl; [|done].
  frame.
  destruct (rooms s !! default ""%string (roomId c)) as [room|] eqn:Hroom; [|done].
  destruct (size (participants (remove_participant room (userId c))) =? 0)%nat; frame.
  - rewrite lookup_delete_ne by done. by rewrite lookup_insert_ne.
  - by rewrite !lookup_insert_ne.
Qed.

(** A join by a connection that is not in the room (in no room, or in
    another one, which it leaves first). *)
Lemma handleJoinRoom_adds_participant_from_outside
    (s : State) (now : Z) (cid : nat) (c : ConnectionInfo)
    (rid uid utype : string) (room : Room) :
  connections s !! cid = Some c -> default ""%string (roomId c) <> rid ->
  rid <> ""%string -> uid <> ""%string ->
  utype = "blind"%string \/ utype = "volunteer"%string ->
  rooms s !! rid = Some room ->
  participants room !! uid = None ->
  exists room',
    rooms (handleJoinRoom s now cid
             {| j_roomId := Some rid; j_userId := Some uid; j_userType := Some utype |})
      !! rid = Some room'
    /\ size (participants room') = S (size (participants room)).
Proof.
  intros Hc Hout Hrid Huid Htype Hroom Hfresh.
  unfold handleJoinRoom. rewrite Hc. simpl j_roomId. simpl j_userId. simpl j_userType.
  rewrite !truthy_Some by (done || (destruct Htype; by subst)).
  simpl negb at 1. cbv iota. change (default ""%string (Some utype)) with utype.
  change (default ""%string (Some uid)) with uid.
  change (default ""%string (Some rid)) with rid.
  assert (bool_decide (utype = "blind"%string)
          || bool_decide (utype = "volunteer"%string) = true) as ->.
  { destruct Htype; subst; reflexivity. }
  simpl negb. cbv iota.
  set (s1 := if truthy (roomId c) then handleLeaveRoom s cid else s).
  assert (rooms s1 !! rid = Some room) as Hroom1.
  { unfold s1. destruct (truthy (roomId c)); [|done].
    rewrite handleLeaveRoom_other_room; [done|].
    intros c' Hc'. rewrite Hc in Hc'. by injection Hc' as <-. }
  eexists. split.
  { rewrite rooms_sendMessage, rooms_broadcastToRoom. simpl. apply lookup_insert_eq. }
  rewrite Hroom1.
  assert (size (<[uid:={| p_connectionId := cid; p_userId := uid; p_userType := utype;
                          joinedAt := now; isReady := false |}]> (participants room))
          = S (size (participants room))) as Hsz by (by apply map_size_insert_None).
  match goal with |- context [if ?b then _ else _] => destruct b end; simpl; exact Hsz.
Qed.

Lemma removal_deletes_empty_room
    (s : State) (cid : nat) (c : ConnectionInfo) (room : Room) :
  connections s !! cid = Some c -> truthy (roomId c) = true ->
  rooms s !! default ""%string (roomId c) = Some room ->
  size (participants (remove_participant room (userId c))) = 0%nat ->
  rooms (handleLeaveRoom s cid) !! default ""%string (roomId c) = None
  /\ rooms (handleDisconnection s cid) !! default ""%string (roomId c) = None.
Proof.
  intros Hc Hin Hroom Hsz. split.
  - unfold handleLeaveRoom. rewrite Hc, Hin. simpl negb. cbv iota.
    frame. rewrite Hroom, Hsz. frame. apply lookup_delete_eq.
  - unfold handleDisconnection. rewrite Hc, Hin. simpl.
    rewrite Hroom, Hsz. simpl.
    destruct (in_call _); frame; apply lookup_delete_eq.
Qed.

(** C4 (amended).  In every reachable state each room of the rooms map
    has at least one participant; a removal ([leave_room] or a
    disconnect) that empties a room deletes it in the same handler
    step.  The count is not capped at 2: a join by a connection that is
    not in that room (it is in no room, or in another one), under a
    user id that is not yet in the room, goes through and raises the
    count by one, whatever it was. *)
Theorem rooms_nonempty_and_uncapped :
  (forall es rid room,
     rooms (run es init) !! rid = Some room -> (1 <= size (participants room))%nat)
  /\ (forall s cid c room,
        connections s !! cid = Some c -> truthy (roomId c) = true ->
        rooms s !! default ""%string (roomId c) = Some room ->
        size (participants (remove_participant room (userId c))) = 0%nat ->
        rooms (handleLeaveRoom s cid) !! default ""%string (roomId c) = None
        /\ rooms (handleDisconnection s cid) !! default ""%string (roomId c) = None)
  /\ (forall s now cid c rid uid utype room,
        connections s !! cid = Some c -> default ""%string (roomId c) <> rid ->
        rid <> ""%string -> uid <> ""%string ->
        utype = "blind"%string \/ utype = "volunteer"%string ->
        rooms s !! rid = Some room ->
        participants room !! uid = None ->
        exists room',
          rooms (handleJoinRoom s now cid
                   {| j_roomId := Some rid; j_userId := Some uid;
                      j_userType := Some utype |}) !! rid = Some room'
          /\ size (participants room') = S (size (participants room))).
Proof.
  split; [|split].
  - intros es rid room Hroom.
    pose proof (reachable_rooms_nonempty es _ _ Hroom) as Hok.
    unfold nonempty in Hok. lia.
  - apply removal_deletes_empty_room.
  - apply handleJoinRoom_adds_participant_from_outside.
Qed.

(** Counterexample to C4 as stated: after three joins under three user
    ids, room "R" has 3 participants. *)
Lemma third_join_goes_through :
  option_map (fun r => size (participants r))
    (rooms SignalingScenario.three_joined !! "R"%string) = Some 3%nat
  /\ ~ (forall r, rooms SignalingScenario.three_joined !! "R"%string = Some r ->
                  (size (participants r) <= 2)%nat).
Proof.
  split; [by vm_compute|].
  intros H.
  destruct (rooms SignalingScenario.three_joined !! "R"%string) as [r|] eqn:Hr; [|by vm_compute in Hr].
  specialize (H r eq_refl).
  assert (option_map (fun r => size (participants r)) (Some r) = Some 3%nat) as Hsz.
  { rewrite <- Hr. by vm_compute. }
  simpl in Hsz. injection Hsz as Hsz. lia.
Qed.

(** Witness of C4 (amended): the third join into a room of two. *)
Lemma rooms_nonempty_and_uncapped_witness :
  exists room',
    rooms (handleJoinRoom SignalingScenario.two_joined 3 3
             {| j_roomId := Some "R"%string; j_userId := Some "v2"%string;
                j_userType := Some "volunteer"%string |}) !! "R"%string = Some room'
    /\ size (participants room') = 3%nat.
Proof.
  destruct rooms_nonempty_and_uncapped as (_ & _ & Hjoin).
  edestruct (Hjoin SignalingScenario.two_joined 3 3%nat
               {| c_id := 3; userId := None; userType := None; roomId := None;
                  connectedAt := 0; isAlive := true; readyState := 1 |}
               "R"%string "v2"%string "volunteer"%string)
    as (room' & Hroom & Hsize).
  - vm_compute. reflexivity.
  - discriminate.
  - discriminate.
  - discriminate.
  - right. reflexivity.
  - vm_compute. reflexivity.
  - vm_compute. reflexivity.
  - exists room'. split; [exact Hroom|]. rewrite Hsize. vm_compute. reflexivity.
Defined.

(** ** Call status reports *)

(** The request of [handleCallStatus]: when a connection that is in an
    existing room sends [call_status] with a status among completed,
    failed and ended, one [updateCall] request is made with the
    [callId] of the room object: with status "completed" for
    "completed" and with status "failed" for the other two ("ended"
    included); any other status makes no request. *)
Theorem handleCallStatus_marks_call
    (s : State) (cid : nat) (c : ConnectionInfo) (room : Room)
    (st : string) (reason : option string) :
  connections s !! cid = Some c ->
  truthy (roomId c) = true ->
  rooms s !! default ""%string (roomId c) = Some room ->
  st <> ""%string ->
  let s' := handleCallStatus s cid {| d_status := Some st; d_reason := reason |} in
  (call_ended st = true ->
     exists u, callUpdates s' = callUpdates s ++ [u]
       /\ u_callId u = callId room
       /\ (st = "completed"%string -> u_status u = "completed"%string)
       /\ (st <> "completed"%string -> u_status u = "failed"%string))
  /\ (call_ended st = false -> callUpdates s' = callUpdates s)
  /\ (st = "ended"%string \/ st = "failed"%string ->
      exists u, callUpdates s' = callUpdates s ++ [u]
        /\ u_status u = "failed"%string).
Proof.
  intros Hc Hin Hroom Hst s'.
  assert (callUpdates s' = callUpdates s ++
            if call_ended st then
              [{| u_callId := callId room;
                  u_status := if bool_decide (st = "completed"%string)
                              then "completed" else "failed";
                  u_feedbackText := if truthy reason then default ""%string reason
                                    else "Call ended via WebRTC" |}]
            else []) as Hup.
  { unfold s', handleCallStatus. rewrite Hc, Hin. cbn [negb d_status d_reason].
    rewrite (truthy_Some _ Hst). cbn [negb default]. rewrite Hroom. frame.
    destruct (call_ended st); simpl; [reflexivity|by rewrite app_nil_r]. }
  split; [|split].
  - intros Hend. rewrite Hend in Hup. eexists. split; [exact Hup|]. simpl.
    split; [reflexivity|]. split.
    + intros ->. reflexivity.
    + intros Hne. by rewrite bool_decide_eq_false_2.
  - intros Hend. rewrite Hend in Hup. by rewrite app_nil_r in Hup.
  - intros Hst'.
    assert (call_ended st = true /\ st <> "completed"%string) as [Hend Hne].
    { destruct Hst' as [-> | ->]; split; (reflexivity || discriminate). }
    rewrite Hend in Hup. eexists. split; [exact Hup|]. simpl.
    by rewrite bool_decide_eq_false_2.
Qed.

(** An instance: the volunteer reports "ended". *)
Lemma handleCallStatus_marks_call_witness :
  truthy (Some "R"%string) = true
  /\ exists u,
       callUpdates (handleCallStatus SignalingScenario.active_call 2
                      {| d_status := Some "ended"%string; d_reason := None |})
         = callUpdates SignalingScenario.active_call ++ [u]
       /\ u_status u = "failed"%string.
Proof.
  split; [reflexivity|].
  edestruct (handleCallStatus_marks_call SignalingScenario.active_call 2%nat) as (_ & _ & H).
  - vm_compute. reflexivity.
  - reflexivity.
  - vm_compute. reflexivity.
  - instantiate (1 := "ended"%string). discriminate.
  - apply H. left. reflexivity.
Defined.

(** ** Which call an update names *)

Lemma updates_handleLeaveRoom s cid : callUpdates (handleLeaveRoom s cid) = callUpdates s.
Proof.
  unfold handleLeaveRoom.
  destruct (connections s !! cid) as [c|]; [|done].
  destruct (truthy (roomId c)); simpl; [|done].
  frame.
  destruct (rooms s !! default ""%string (roomId c)) as [room|]; [|done].
  destruct (size (participants (remove_participant room (userId c))) =? 0)%nat;
    frame; done.
Qed.

Lemma updates_handleJoinRoom s now cid data :
  callUpdates (handleJoinRoom s now cid data) = callUpdates s.
Proof.
  unfold handleJoinRoom, sendError.
  destruct (connections s !! cid) as [c|]; [|by frame].
  destruct (negb (truthy (j_roomId data) && truthy (j_userId data)
                  && truthy (j_userType data))); [by frame|].
  destruct (negb _); [by frame|].
  frame.
  destruct (truthy (roomId c)); [apply updates_handleLeaveRoom|done].
Qed.

Lemma updates_relay label ty b s cid data :
  callUpdates (relay label ty b s cid data) = callUpdates s.
Proof.
  unfold relay, sendError.
  repeat (match goal with
          | |- context [match ?x with _ => _ end] => destruct x
          end; frame; try done).
Qed.

Lemma step_rooms_uncalled s e :
  rooms_all uncalled (rooms s) -> rooms_all uncalled (rooms (step s e)).
Proof.
  apply step_rooms_all; unfold uncalled.
  - intros r st H. exact H.
  - intros r [u|] H _; exact H.
  - intros r uid p H. exact H.
  - reflexivity.
Qed.

Lemma step_updates_uncalled s e :
  rooms_all uncalled (rooms s) ->
  Forall (fun u => u_callId u = None) (callUpdates s) ->
  Forall (fun u => u_callId u = None) (callUpdates (step s e)).
Proof.
  intros Hrooms Hups. destruct e as [now|now cid m|cid|cid|cid|cid n|now]; simpl.
  - unfold handleConnection. by frame.
  - unfold handleMessage. destruct (connections s !! cid) as [c|] eqn:Hc; [|done].
    destruct m; unfold sendError, handleOffer, handleAnswer, handleIceCandidate;
      rewrite ?updates_relay, ?updates_handleJoinRoom, ?updates_handleLeaveRoom;
      frame; try done.
    unfold handleCallStatus, sendError. rewrite Hc.
    destruct (negb (truthy (roomId c))); [by frame|].
    destruct (negb (truthy (d_status data))); [by frame|].
    destruct (rooms s !! default ""%string (roomId c)) as [room|] eqn:Hroom; [|by frame].
    frame. destruct (call_ended _); simpl; [|done].
    apply Forall_app. split; [done|]. constructor; [|done]. simpl.
    by apply (Hrooms _ _ Hroom).
  - unfold handleDisconnection.
    destruct (connections s !! cid) as [c|]; [|done].
    simpl.
    destruct (truthy (roomId c)); [|done].
    destruct (rooms s !! default ""%string (roomId c)) as [room|] eqn:Hroom; [|done].
    assert (callId (remove_participant room (userId c)) = None) as Hnone.
    { pose proof (Hrooms _ _ Hroom) as H. unfold uncalled in H.
      by destruct (userId c). }
    destruct (size (participants (remove_participant room (userId c))) =? 0)%nat;
      destruct (in_call _); frame; try done;
      (apply Forall_app; split; [done|]; constructor; [|done]; simpl; exact Hnone).
  - unfold heartbeat. destruct (connections s !! cid) as [c|]; [|done].
    by destruct (negb (isAlive c)).
  - done.
  - done.
  - done.
Qed.

(** C10 (the code at the failing input).  No handler ever gives a room
    object a [callId], so every [updateCall] request the relay makes
    names no call: in every reachable state all requests made so far
    carry an undefined [callId].  In room "R" with two participants and
    an active call, the volunteer reports "ended": the request made is
    [updateCall(undefined, {status: 'failed'})], which identifies no
    Call record to update. *)
Theorem call_status_update_names_no_call :
  (forall es, Forall (fun u => u_callId u = None) (callUpdates (run es init)))
  /\ option_map callId (rooms SignalingScenario.active_call !! "R"%string) = Some None
  /\ callUpdates (step SignalingScenario.active_call
                    (Receive 4 2 (SignalingScenario.set_status "ended")))
     = [{| u_callId := None; u_status := "failed";
           u_feedbackText := "Call ended via WebRTC" |}].
Proof.
  split; [|by vm_compute].
  assert (forall es s, rooms_all uncalled (rooms s) ->
            Forall (fun u => u_callId u = None) (callUpdates s) ->
            Forall (fun u => u_callId u = None) (callUpdates (run es s))) as Hrun.
  { induction es as [|e es IH]; intros s Hrooms Hups; [done|].
    simpl. apply IH; [by apply step_rooms_uncalled|by apply step_updates_uncalled]. }
  intros es. apply Hrun; [apply map_Forall_empty|constructor].
Qed.

(** ** Disconnects *)

(** When another participant remains, the room's status is reset to
    "waiting" before it is tested, so a disconnect makes no
    [updateCall] request. *)
Lemma handleDisconnection_keeps_call_when_peer_remains
    (s : State) (cid : nat) (c : ConnectionInfo) (room : Room) :
  connections s !! cid = Some c ->
  truthy (roomId c) = true ->
  rooms s !! default ""%string (roomId c) = Some room ->
  size (participants (remove_participant room (userId c))) <> 0%nat ->
  callUpdates (handleDisconnection s cid) = callUpdates s.
Proof.
  intros Hc Hin Hroom Hsz. unfold handleDisconnection.
  rewrite Hc, Hin. simpl. rewrite Hroom.
  apply Nat.eqb_neq in Hsz. rewrite Hsz. simpl. frame. reflexivity.
Qed.

(** C1 (the code at the failing input).  Two participants are in room
    "R" and the room is active; connection 1 closes.  The remaining
    participant is sent [user_disconnected] and the room goes back to
    "waiting", but no [updateCall] request is made: the call is not
    marked failed. *)
Theorem disconnect_in_active_room_leaves_call :
  option_map status (rooms SignalingScenario.active_call !! "R"%string) = Some "active"%string
  /\ option_map (fun r => size (participants r))
       (rooms SignalingScenario.active_call !! "R"%string) = Some 2%nat
  /\ let s' := step SignalingScenario.active_call (Close 1) in
     callUpdates s' = []
     /\ option_map status (rooms s' !! "R"%string) = Some "waiting"%string
     /\ last (outbox s')
        = Some (2%nat, user_disconnected (Some "b1"%string) (Some "blind"%string)
                         "Connection lost").
Proof. vm_compute. repeat split; reflexivity. Qed.

(** The request is made only when the room empties, and then for the
    [callId] the room object never received. *)
Example disconnect_of_sole_participant :
  let s' := step SignalingScenario.alone_in_call (Close 1) in
  callUpdates s'
  = [{| u_callId := None; u_status := "failed";
        u_feedbackText := "User b1 disconnected" |}]
  /\ rooms s' !! "R"%string = None.
Proof. vm_compute. split; reflexivity. Qed.

End SignalingProperties.

(* ===================================================================== *)
(** * Properties of the reward queue *)
(* ===================================================================== *)

Section RewardsProperties.
Import Rewards.

(** ** Retry counts *)

Lemma retry_inv_init kp : retry_inv (init kp).
Proof. split; simpl; try constructor. apply map_Forall_empty. Qed.

Lemma loop_head_inv s : retry_inv s -> retry_inv (loop_head s).
Proof.
  intros [Hq Hf Hx Hs]. unfold loop_head.
  destruct (transactionQueue s) as [|tx q] eqn:Hqueue; split; simpl; auto.
  - rewrite Hqueue. constructor.
  - by inversion Hq.
  - constructor; [|constructor]. by inversion Hq.
Qed.

Lemma processTransactionQueue_inv s : retry_inv s -> retry_inv (processTransactionQueue s).
Proof.
  intros H. unfold processTransactionQueue.
  destruct (isProcessingQueue s || negb (serverKeypair s)); [done|].
  apply loop_head_inv. by destruct H.
Qed.

Lemma requeue_or_fail_inv s tx :
  retry_inv s -> (retryCount tx <= maxRetries)%nat ->
  retry_inv (fst (requeue_or_fail tx s)).
Proof.
  intros [Hq Hf Hx Hs] Hle. unfold requeue_or_fail.
  destruct (retryCount tx <? maxRetries)%nat eqn:Hlt; split; simpl; auto.
  - apply Forall_app. split; [done|]. constructor; [|constructor].
    by apply Nat.ltb_lt in Hlt.
  - apply map_Forall_insert_2; [|done]. apply Nat.ltb_ge in Hlt.
    unfold exhausted. lia.
Qed.

Lemma set_consumer_inv s c :
  retry_inv s -> Forall fresh (in_flight c) -> retry_inv (set_consumer c s).
Proof. intros [Hq Hf Hx Hs] Hc. by split. Qed.

Lemma on_error_inv s tx msg : retry_inv s -> fresh tx -> retry_inv (on_error s tx msg).
Proof.
  intros Hinv Htx. unfold on_error.
  apply set_consumer_inv; [|constructor].
  apply requeue_or_fail_inv; [done|]. unfold fresh in Htx. simpl. lia.
Qed.

Lemma resume_inv s r : retry_inv s -> retry_inv (resume s r).
Proof.
  intros Hinv. pose proof Hinv as [Hq Hf Hx Hs]. unfold resume.
  destruct (consumer s) as [|tx|tx|tx|tx| |] eqn:Hc; simpl in Hf;
    try (assert (fresh tx) as Htx by (by inversion Hf));
    destruct r; try done; try (by apply on_error_inv);
    try (by apply loop_head_inv).
  - destruct (insufficient lamports tx).
    + pose proof (requeue_or_fail_inv s (bump tx None) Hinv) as Hr.
      destruct (requeue_or_fail (bump tx None) s) as [s' [|]]; simpl in Hr.
      * apply set_consumer_inv; [|constructor]. apply Hr.
        unfold fresh in Htx. simpl. lia.
      * apply loop_head_inv. apply Hr. unfold fresh in Htx. simpl. lia.
    + apply set_consumer_inv; [done|]. by constructor.
  - apply set_consumer_inv; [|by constructor].
    split; simpl; rewrite ?Hc; simpl; auto.
  - apply set_consumer_inv; [|constructor].
    split; simpl; rewrite ?Hc; simpl; auto.
    apply Forall_app. split; [done|]. by constructor.
Qed.

Lemma queueRewardTransaction_inv s env uid amt why cid ty :
  retry_inv s -> retry_inv (fst (queueRewardTransaction s env uid amt why cid ty)).
Proof.
  intros Hinv. pose proof Hinv as [Hq Hf Hx Hs]. unfold queueRewardTransaction.
  destruct (users s !! uid) as [user|]; [|done].
  destruct (negb (truthy (walletAddress user))); [done|].
  destruct (negb (q_walletValid env)); [done|].
  destruct (Qle_bool amt 0); [done|]. simpl.
  apply processTransactionQueue_inv. split; simpl; auto.
  apply Forall_app. split; [done|]. constructor; [|constructor].
  unfold fresh, maxRetries. simpl. lia.
Qed.

Lemma set_users_inv s u : retry_inv s -> retry_inv (set_users u s).
Proof. intros [Hq Hf Hx Hs]. by split. Qed.

Lemma set_calls_inv s c : retry_inv s -> retry_inv (set_calls c s).
Proof. intros [Hq Hf Hx Hs]. by split. Qed.

Lemma updateUserReputation_inv s uid r :
  retry_inv s -> retry_inv (fst (updateUserReputation s uid r)).
Proof.
  intros Hinv. unfold updateUserReputation.
  destruct (users s !! uid) as [user|]; [|done].
  destruct (negb (truthy (walletAddress user))); [done|].
  by apply set_users_inv.
Qed.

Lemma queue_milestone_inv s env uid cid ms :
  retry_inv s -> retry_inv (fst (queue_milestone s env uid cid ms)).
Proof.
  intros Hinv. unfold queue_milestone.
  destruct ms as [[reward why]|]; [|done].
  destruct (negb (Qle_bool reward 0)); [|done].
  by apply queueRewardTransaction_inv.
Qed.

Lemma processCompletedCall_inv s env1 env2 cid :
  retry_inv s -> retry_inv (fst (processCompletedCall s env1 env2 cid)).
Proof.
  intros Hinv. unfold processCompletedCall.
  destruct (calls s !! cid) as [callData|]; [|done].
  destruct (negb (bool_decide (c_status callData = "completed"%string))); [done|].
  match goal with |- context [queueRewardTransaction ?a ?b ?c ?d ?e ?f ?g] =>
    pose proof (queueRewardTransaction_inv a b c d e f g Hinv) as H1;
    destruct (queueRewardTransaction a b c d e f g) as [s1 [r1|e1]] end;
    simpl in H1; [|done].
  match goal with |- context [queue_milestone ?a ?b ?c ?d ?e] =>
    pose proof (queue_milestone_inv a b c d e H1) as H2;
    destruct (queue_milestone a b c d e) as [s2 [r2|e2]] end;
    simpl in H2; [|done].
  match goal with |- context [updateUserReputation ?a ?b ?c] =>
    pose proof (updateUserReputation_inv a b c) as H3;
    destruct (updateUserReputation a b c) as [s4 [r4|e4]] end;
    simpl in *; apply H3; by apply set_users_inv.
Qed.

Lemma retryable_nil s : retry_inv s -> retryable s = [].
Proof.
  intros [_ _ Hx _]. unfold retryable.
  apply map_Forall_to_list in Hx.
  induction (map_to_list (failedTransactions s)) as [|[k tx] l IH]; [done|].
  inversion Hx as [|? ? Hhd Htl]; subst. simpl in *.
  unfold exhausted in Hhd. rewrite Hhd. simpl. by apply IH.
Qed.

Lemma retryFailedTransactions_noop s :
  retry_inv s -> retryFailedTransactions s = (processTransactionQueue s, 0%nat).
Proof.
  intros Hinv. unfold retryFailedTransactions. by rewrite (retryable_nil s Hinv).
Qed.

Lemma step_inv s e : retry_inv s -> retry_inv (step s e).
Proof.
  intros Hinv. destruct e; cbn [step].
  - by apply queueRewardTransaction_inv.
  - by apply processCompletedCall_inv.
  - by apply processTransactionQueue_inv.
  - rewrite (retryFailedTransactions_noop s Hinv). simpl.
    by apply processTransactionQueue_inv.
  - by apply resume_inv.
  - by apply set_users_inv.
  - by apply set_calls_inv.
Qed.

Lemma run_inv es : forall s, retry_inv s -> retry_inv (run es s).
Proof.
  induction es as [|e es IH]; intros s Hinv; [done|].
  simpl. apply IH. by apply step_inv.
Qed.

Lemma reachable_inv kp es : retry_inv (run es (init kp)).
Proof. apply run_inv, retry_inv_init. Qed.

(** ** What a failed pass does with the transaction *)

Lemma loop_head_suffix s : transactionQueue (loop_head s) `suffix_of` transactionQueue s.
Proof.
  unfold loop_head. destruct (transactionQueue s) as [|hd q] eqn:Hq; simpl.
  - by rewrite Hq.
  - by apply suffix_cons_r.
Qed.

Lemma loop_head_failed s : failedTransactions (loop_head s) = failedTransactions s.
Proof. unfold loop_head. by destruct (transactionQueue s). Qed.

Lemma failed_pass s r tx :
  in_flight (consumer s) = [tx] -> is_failure (consumer s) r = true ->
  exists tx',
    retryCount tx' = S (retryCount tx) /\ id tx' = id tx
    /\ if (S (retryCount tx) <? maxRetries)%nat
       then transactionQueue (resume s r) = transactionQueue s ++ [tx']
            /\ failedTransactions (resume s r) = failedTransactions s
       else failedTransactions (resume s r) = <[id tx := tx']> (failedTransactions s)
            /\ transactionQueue (resume s r) `suffix_of` transactionQueue s.
Proof.
  intros Hfl Hfail. unfold resume.
  destruct (consumer s) as [|t|t|t|t| |] eqn:Hc; simpl in Hfl; try discriminate;
    injection Hfl as ->; destruct r; simpl in Hfail; try discriminate.
  1: { rewrite Hfail. exists (bump tx None). split; [done|]. split; [done|].
       unfold requeue_or_fail. simpl retryCount.
       destruct (S (retryCount tx) <? maxRetries)%nat; simpl; [done|].
       rewrite loop_head_failed. split; [done|].
       etrans; [apply loop_head_suffix|]. done. }
  all: exists (bump tx (Some msg)); split; [done|]; split; [done|];
    unfold on_error, requeue_or_fail; simpl retryCount;
    destruct (S (retryCount tx) <? maxRetries)%nat; simpl; done.
Qed.

(** C7.  In every reachable state no transaction has a retry count
    above 3 and every queued one is below 3; a failed pass on a
    transaction that has been retried twice puts it into the failed set
    with count 3 and appends nothing to the queue. *)
Theorem retry_ceiling :
  (forall kp es,
     Forall (fun tx => (retryCount tx <= 3)%nat) (all_transactions (run es (init kp))))
  /\ (forall kp es,
        Forall (fun tx => (retryCount tx < 3)%nat) (transactionQueue (run es (init kp))))
  /\ (forall s r tx,
        in_flight (consumer s) = [tx] -> is_failure (consumer s) r = true ->
        retryCount tx = 2%nat ->
        exists tx',
          retryCount tx' = 3%nat
          /\ failedTransactions (resume s r) !! id tx = Some tx'
          /\ transactionQueue (resume s r) `suffix_of` transactionQueue s).
Proof.
  split; [|split].
  - intros kp es. destruct (reachable_inv kp es) as [Hq Hf Hx Hs].
    unfold all_transactions, failed_list. rewrite !Forall_app. repeat split.
    + eapply Forall_impl; [exact Hq|]. unfold fresh, maxRetries. intros; lia.
    + eapply Forall_impl; [exact Hf|]. unfold fresh, maxRetries. intros; lia.
    + apply map_Forall_to_list in Hx. apply Forall_fmap.
      eapply Forall_impl; [exact Hx|]. intros [k tx]. unfold exhausted, maxRetries.
      simpl. intros; lia.
    + eapply Forall_impl; [exact Hs|]. unfold fresh, maxRetries. intros; lia.
  - intros kp es. by destruct (reachable_inv kp es) as [Hq _ _ _].
  - intros s r tx Hfl Hfail Hrc.
    destruct (failed_pass s r tx Hfl Hfail) as (tx' & Hrc' & Hid & Hcase).
    rewrite Hrc in Hcase. simpl in Hcase. destruct Hcase as [Hfailed Hqueue].
    exists tx'. split; [lia|]. split; [|done].
    rewrite Hfailed. apply lookup_insert_eq.
Qed.

(** C9.  In every reachable state each transaction of the failed set
    has a retry count equal to the maximum, so
    [retryFailedTransactions] finds nothing to retry: it returns
    [retriedCount = 0], leaves the failed set alone and appends nothing
    to the queue (it only starts the consumer). *)
Theorem failed_set_is_exhausted (kp : bool) (es : list Event) :
  let s := run es (init kp) in
  map_Forall (fun _ tx => retryCount tx = maxRetries) (failedTransactions s)
  /\ retryable s = []
  /\ retryFailedTransactions s = (processTransactionQueue s, 0%nat)
  /\ failedTransactions (fst (retryFailedTransactions s)) = failedTransactions s
  /\ transactionQueue (fst (retryFailedTransactions s)) `suffix_of` transactionQueue s.
Proof.
  intros s. pose proof (reachable_inv kp es) as Hinv. fold s in Hinv.
  split; [by destruct Hinv|]. split; [by apply retryable_nil|].
  rewrite (retryFailedTransactions_noop s Hinv). split; [done|]. simpl.
  unfold processTransactionQueue.
  destruct (isProcessingQueue s || negb (serverKeypair s)); [done|].
  rewrite loop_head_failed. split; [done|].
  etrans; [apply loop_head_suffix|]. done.
Qed.

(** ** Counting the call-completion transactions of one call *)

Section Counting.
Variable cid : string.

Lemma cnt_app l1 l2 : cnt cid (l1 ++ l2) = (cnt cid l1 + cnt cid l2)%nat.
Proof. unfold cnt. by rewrite List.filter_app, length_app. Qed.

Lemma cnt_all s : cnt cid (all_transactions s) = total cid s.
Proof. unfold all_transactions, total. rewrite !cnt_app. lia. Qed.

Lemma cnt_cons tx l : cnt cid (tx :: l) = (cnt cid [tx] + cnt cid l)%nat.
Proof. apply (cnt_app [tx] l). Qed.

Lemma cnt_perm l1 l2 : l1 ≡ₚ l2 -> cnt cid l1 = cnt cid l2.
Proof.
  induction 1 as [|x l l' _ IH|x y l|l l' l'' _ IH1 _ IH2].
  - done.
  - rewrite (cnt_cons x l), (cnt_cons x l'). lia.
  - rewrite (cnt_cons y), (cnt_cons x), (cnt_cons x (y :: l)), (cnt_cons y l). lia.
  - lia.
Qed.

Lemma cnt_values_insert (m : gmap string Transaction) k tx :
  (cnt cid (map snd (map_to_list (<[k := tx]> m)))
   <= cnt cid (map snd (map_to_list m)) + cnt cid [tx])%nat.
Proof.
  assert (forall m' : gmap string Transaction, m' !! k = None ->
            cnt cid (map snd (map_to_list (<[k := tx]> m')))
            = (cnt cid [tx] + cnt cid (map snd (map_to_list m')))%nat) as Hfresh.
  { intros m' Hnone.
    rewrite (cnt_perm _ (map snd ((k, tx) :: map_to_list m'))).
    - simpl. apply cnt_cons.
    - apply fmap_Permutation. by apply map_to_list_insert. }
  destruct (m !! k) as [old|] eqn:Hk.
  - rewrite <- (insert_delete_eq m k tx).
    rewrite Hfresh by apply lookup_delete_eq.
    rewrite (cnt_perm (map snd (map_to_list m))
               (map snd ((k, old) :: map_to_list (delete k m)))).
    + simpl. rewrite (cnt_cons old). lia.
    + apply fmap_Permutation. symmetry. by apply map_to_list_delete.
  - rewrite Hfresh by done. lia.
Qed.

Lemma cnt_nil : cnt cid [] = 0%nat.
Proof. reflexivity. Qed.

Lemma total_loop_head s :
  (total cid (loop_head s) + cnt cid (in_flight (consumer s)) <= total cid s)%nat.
Proof.
  unfold loop_head, total, failed_list.
  destruct (transactionQueue s) as [|tx q] eqn:Hq; simpl; rewrite ?Hq, ?cnt_nil.
  - lia.
  - rewrite (cnt_cons tx q). lia.
Qed.

Lemma total_processTransactionQueue s :
  (total cid (processTransactionQueue s) <= total cid s)%nat.
Proof.
  unfold processTransactionQueue.
  destruct (isProcessingQueue s || negb (serverKeypair s)); [done|].
  pose proof (total_loop_head (set_processing true s)) as H.
  unfold total, failed_list in *. simpl in *. lia.
Qed.

Lemma total_requeue_or_fail s tx :
  (total cid (fst (requeue_or_fail tx s)) <= total cid s + cnt cid [tx])%nat.
Proof.
  unfold requeue_or_fail, total, failed_list.
  destruct (retryCount tx <? maxRetries)%nat; simpl.
  - rewrite cnt_app. lia.
  - pose proof (cnt_values_insert (failedTransactions s) (id tx) tx). lia.
Qed.

Lemma total_set_consumer s c :
  (total cid (set_consumer c s) + cnt cid (in_flight (consumer s))
   = total cid s + cnt cid (in_flight c))%nat.
Proof. unfold total, failed_list. simpl. lia. Qed.

Lemma cnt_bump tx e : cnt cid [bump tx e] = cnt cid [tx].
Proof. unfold cnt, is_completion_of. simpl. by destruct (_ && _). Qed.

Lemma cnt_complete tx sig : cnt cid [complete tx sig] = cnt cid [tx].
Proof. unfold cnt, is_completion_of. simpl. by destruct (_ && _). Qed.

Lemma total_on_error s tx msg :
  in_flight (consumer s) = [tx] -> (total cid (on_error s tx msg) <= total cid s)%nat.
Proof.
  intros Hfl. unfold on_error.
  pose proof (total_requeue_or_fail s (bump tx (Some msg))) as Hr.
  pose proof (total_set_consumer (fst (requeue_or_fail (bump tx (Some msg)) s)) Wait1) as Hc.
  assert (consumer (fst (requeue_or_fail (bump tx (Some msg)) s)) = consumer s) as Heq.
  { unfold requeue_or_fail. by destruct (_ <? _)%nat. }
  rewrite Heq, Hfl in Hc. rewrite cnt_bump in Hr.
  change (cnt cid (in_flight Wait1)) with 0%nat in Hc. lia.
Qed.

Lemma total_resume s r : (total cid (resume s r) <= total cid s)%nat.
Proof.
  unfold resume.
  destruct (consumer s) as [|tx|tx|tx|tx| |] eqn:Hc; destruct r; try done;
    try (apply total_on_error; by rewrite Hc);
    try (pose proof (total_loop_head s); lia).
  - destruct (insufficient lamports tx).
    + pose proof (total_requeue_or_fail s (bump tx None)) as Hr.
      assert (consumer (fst (requeue_or_fail (bump tx None) s)) = consumer s) as Heq.
      { unfold requeue_or_fail. by destruct (_ <? _)%nat. }
      destruct (requeue_or_fail (bump tx None) s) as [s' [|]]; simpl in *.
      * pose proof (total_set_consumer s' Wait60) as Hs.
        rewrite Heq, Hc in Hs. simpl in Hs. rewrite cnt_bump in Hr.
        rewrite cnt_nil in Hs. lia.
      * pose proof (total_loop_head s') as Hl.
        rewrite Heq, Hc in Hl. simpl in Hl. rewrite cnt_bump in Hr. lia.
    + pose proof (total_set_consumer s (AwaitSend tx)) as Hs.
      rewrite Hc in Hs. simpl in Hs. lia.
  - pose proof (total_set_consumer (add_transfer (t_walletAddress tx) (amount tx) s)
                  (AwaitTxRecord (complete tx sig))) as Hs.
    change (consumer (add_transfer _ _ s)) with (consumer s) in Hs.
    change (total cid (add_transfer (t_walletAddress tx) (amount tx) s)) with (total cid s) in Hs.
    rewrite Hc in Hs. cbn [in_flight] in Hs. rewrite cnt_complete in Hs. lia.
  - pose proof (total_set_consumer s (AwaitRewardRecord tx)) as Hs.
    rewrite Hc in Hs. simpl in Hs. lia.
  - pose proof (total_set_consumer (add_settled tx s) Wait1) as Hs.
    change (consumer (add_settled tx s)) with (consumer s) in Hs.
    rewrite Hc in Hs. cbn [in_flight] in Hs. rewrite cnt_nil in Hs.
    assert (total cid (add_settled tx s) = (total cid s + cnt cid [tx])%nat) as Ht.
    { unfold total, failed_list. simpl. rewrite cnt_app. lia. }
    lia.
Qed.

Lemma cnt_single tx : cnt cid [tx] = if is_completion_of cid tx then 1%nat else 0%nat.
Proof. unfold cnt. simpl. by destruct (is_completion_of cid tx). Qed.

Lemma total_set_users s u : total cid (set_users u s) = total cid s.
Proof. reflexivity. Qed.

Lemma total_queueRewardTransaction s env uid amt why c ty :
  (total cid (fst (queueRewardTransaction s env uid amt why c ty))
   <= total cid s + if bool_decide (ty = "call_completion"%string)
                   && bool_decide (c = Some cid) then 1 else 0)%nat.
Proof.
  unfold queueRewardTransaction.
  destruct (users s !! uid) as [user|]; [|simpl; lia].
  destruct (negb (truthy (walletAddress user))); [simpl; lia|].
  destruct (negb (q_walletValid env)); [simpl; lia|].
  destruct (Qle_bool amt 0); [simpl; lia|].
  cbn [fst].
  match goal with |- context [processTransactionQueue ?a] =>
    pose proof (total_processTransactionQueue a) as Hp;
    assert (total cid a = (total cid s + cnt cid [{| id := q_txid env; userId := uid;
               t_walletAddress := default ""%string (walletAddress user);
               amount := amt; reason := why; callId := c; type := ty;
               status := queued; createdAt := q_now env; retryCount := 0;
               signature := None; lastError := None |}])%nat) as Ha
  end.
  { unfold total, failed_list. simpl. rewrite cnt_app. lia. }
  rewrite Ha, cnt_single in Hp. unfold is_completion_of in Hp. cbn [type callId] in Hp.
  exact Hp.
Qed.

Lemma total_queue_milestone s env uid c ms :
  (total cid (fst (queue_milestone s env uid c ms)) <= total cid s)%nat.
Proof.
  unfold queue_milestone.
  destruct ms as [[reward why]|]; [|done].
  destruct (negb (Qle_bool reward 0)); [|done].
  pose proof (total_queueRewardTransaction s env uid reward why (Some c) "milestone") as H.
  simpl in H. lia.
Qed.

Lemma total_updateUserReputation s uid r :
  total cid (fst (updateUserReputation s uid r)) = total cid s.
Proof.
  unfold updateUserReputation.
  destruct (users s !! uid) as [user|]; [|done].
  by destruct (negb (truthy (walletAddress user))).
Qed.

Lemma total_processCompletedCall s env1 env2 c :
  (total cid (fst (processCompletedCall s env1 env2 c))
   <= total cid s + if bool_decide (c = cid) then 1 else 0)%nat.
Proof.
  unfold processCompletedCall.
  destruct (calls s !! c) as [callData|]; [|simpl; lia].
  destruct (negb (bool_decide (c_status callData = "completed"%string))); [simpl; lia|].
  match goal with |- context [queueRewardTransaction ?a ?b ?c ?d ?e ?f ?g] =>
    pose proof (total_queueRewardTransaction a b c d e f g) as H1;
    destruct (queueRewardTransaction a b c d e f g) as [s1 [r1|e1]] end;
    simpl in H1.
  2: { simpl. destruct (bool_decide (Some c = Some cid)) eqn:Hd;
       destruct (bool_decide (c = cid)) eqn:Hd'; try lia.
       apply bool_decide_eq_true in Hd. apply bool_decide_eq_false in Hd'. congruence. }
  assert (total cid s1 <= total cid s + if bool_decide (c = cid) then 1 else 0)%nat as H1'.
  { destruct (bool_decide (Some c = Some cid)) eqn:Hd;
      destruct (bool_decide (c = cid)) eqn:Hd'; try lia.
    apply bool_decide_eq_true in Hd. apply bool_decide_eq_false in Hd'. congruence. }
  clear H1.
  match goal with |- context [queue_milestone ?a ?b ?c ?d ?e] =>
    pose proof (total_queue_milestone a b c d e) as H2;
    destruct (queue_milestone a b c d e) as [s2 [r2|e2]] end;
    simpl in H2; [|simpl; lia].
  match goal with |- context [updateUserReputation ?a ?b ?c] =>
    pose proof (total_updateUserReputation a b c) as H3;
    destruct (updateUserReputation a b c) as [s4 [r4|e4]] end;
    simpl in *; unfold update_statistics in H3; rewrite total_set_users in H3; lia.
Qed.

Lemma total_step s e :
  retry_inv s ->
  (total cid (step s e) <= total cid s + if is_request cid e then 1 else 0)%nat.
Proof.
  intros Hinv. destruct e; cbn [step is_request].
  - apply total_queueRewardTransaction.
  - apply total_processCompletedCall.
  - pose proof (total_processTransactionQueue s). lia.
  - rewrite (retryFailedTransactions_noop s Hinv). simpl.
    pose proof (total_processTransactionQueue s). lia.
  - pose proof (total_resume s r). lia.
  - rewrite total_set_users. lia.
  - change (total cid (set_calls _ s)) with (total cid s). lia.
Qed.

Lemma total_run es : forall s,
  retry_inv s -> (total cid (run es s) <= total cid s + requests cid es)%nat.
Proof.
  induction es as [|e es IH]; intros s Hinv.
  - simpl. unfold requests. simpl. lia.
  - simpl. pose proof (IH (step s e) (step_inv s e Hinv)) as H1.
    pose proof (total_step s e Hinv) as H2.
    unfold requests in *. simpl. destruct (is_request cid e); simpl; lia.
Qed.

Lemma completed_for_le s : (length (completed_for cid s) <= cnt cid (all_transactions s))%nat.
Proof.
  unfold completed_for, cnt.
  induction (all_transactions s) as [|tx l IH]; [done|].
  simpl. destruct (is_completion_of cid tx); simpl; [|lia].
  destruct (status tx); simpl; lia.
Qed.

End Counting.


(** C5 (amended).  The queue does not de-duplicate by call: over any
    sequence of operations, the number of completed call-completion
    transactions of a call is at most the number of requests made for
    it (runs of [processCompletedCall] on it and direct
    [queueRewardTransaction] calls with type call_completion). *)
Theorem completions_bounded_by_requests (kp : bool) (es : list Event) (cid : string) :
  (length (completed_for cid (run es (init kp))) <= requests cid es)%nat.
Proof.
  etrans; [apply completed_for_le|]. rewrite cnt_all.
  pose proof (total_run cid es (init kp) (retry_inv_init kp)) as H.
  change (total cid (init kp)) with 0%nat in H. lia.
Qed.

(** Counterexample to C5 as stated: the same completed call processed
    twice yields two completed call-completion transactions and two
    transfers. *)
Lemma same_call_completed_twice :
  map id (completed_for "c" RewardsScenario.processed_twice) = ["tx1"; "tx2"]%string
  /\ transfers RewardsScenario.processed_twice
     = [("Wallet1111"%string, Config.shortCall); ("Wallet1111"%string, Config.shortCall)]
  /\ ~ (length (completed_for "c" RewardsScenario.processed_twice) <= 1)%nat.
Proof.
  split; [by vm_compute|]. split; [by vm_compute|].
  assert (length (completed_for "c" RewardsScenario.processed_twice) = 2%nat) as ->
    by (by vm_compute).
  lia.
Qed.

(** Witness of C7: the third rejection of a transaction. *)
Lemma retry_ceiling_witness :
  exists tx',
    retryCount tx' = 3%nat
    /\ failedTransactions (resume RewardsScenario.two_failures (Rejected "rpc"))
         !! "tx1"%string = Some tx'
    /\ transactionQueue (resume RewardsScenario.two_failures (Rejected "rpc"))
         `suffix_of` transactionQueue RewardsScenario.two_failures.
Proof.
  destruct retry_ceiling as (_ & _ & Hmove).
  apply (Hmove RewardsScenario.two_failures (Rejected "rpc") RewardsScenario.retried_twice).
  - vm_compute. reflexivity.
  - vm_compute. reflexivity.
  - vm_compute. reflexivity.
Defined.

(** The failed set is not empty in general: after the third rejection
    it holds the transaction, and a retry moves nothing. *)
Example retry_of_exhausted_transaction :
  let s := resume RewardsScenario.two_failures (Rejected "rpc") in
  size (failedTransactions s) = 1%nat
  /\ snd (retryFailedTransactions s) = 0%nat
  /\ size (failedTransactions (fst (retryFailedTransactions s))) = 1%nat.
Proof. by vm_compute. Qed.

(** ** Milestones *)

(** The 10-calls milestone is computed exactly when the stored count,
    read before [processCompletedCall] updates it, is 10. *)
Lemma milestone_only_at_stored_count s uid u :
  users s !! uid = Some u -> userType u = "volunteer"%string ->
  (calculateMilestoneReward s uid = Some (Config.calls10, "10 calls milestone"%string)
   <-> totalCalls u = Some 10).
Proof.
  intros Hu Hty. unfold calculateMilestoneReward. rewrite Hu.
  rewrite (bool_decide_eq_true_2 _ Hty). simpl negb. cbv iota.
  split.
  - destruct (totalCalls u) as [z|]; [|discriminate].
    destruct (decide (z = 10)) as [->|Hne]; [done|].
    intros H. exfalso.
    repeat (match type of H with
            | context [match ?p with _ => _ end] => destruct p
            end; try discriminate; try (by apply Hne)).
  - intros ->. reflexivity.
Qed.

(** C2 (the code at the failing inputs).  Ten completed calls of a newly
    registered volunteer queue no milestone reward, and the stored count
    ends up not a number.  Even with a stored count of 9 kept in step by
    the call document, the 10th call queues no milestone (the count is
    read before it is raised to 10); the [calls10] reward is queued
    while the next, 11th call is processed. *)
Theorem tenth_call_queues_no_milestone :
  (let s := run RewardsScenario.ten_calls (init true) in
   length (all_transactions s) = 10%nat
   /\ RewardsScenario.milestones s = []
   /\ option_map totalCalls (users s !! "v1"%string) = Some None)
  /\ (let r := processCompletedCall
                 (RewardsScenario.with_volunteer (Some 9) (RewardsScenario.counted_call 9))
                 (RewardsScenario.env "a") (RewardsScenario.env "b") "c" in
      snd r = Returned {| callCompletion := Config.shortCall; milestone := Some 0%Q |}
      /\ RewardsScenario.milestones (fst r) = []
      /\ option_map totalCalls (users (fst r) !! "v1"%string) = Some (Some 10))
  /\ (let r := processCompletedCall
                 (RewardsScenario.with_volunteer (Some 10) (RewardsScenario.counted_call 10))
                 (RewardsScenario.env "a") (RewardsScenario.env "b") "c" in
      snd r = Returned {| callCompletion := Config.shortCall;
                          milestone := Some Config.calls10 |}
      /\ map (fun tx => (amount tx, reason tx)) (RewardsScenario.milestones (fst r))
         = [(Config.calls10, "10 calls milestone"%string)]).
Proof. by vm_compute. Qed.

End RewardsProperties.

(* ===================================================================== *)
(** * The call lifecycle of the matching engine *)
(* ===================================================================== *)

Section MatchingLifecycle.
Import Matching MatchingScenario.
Lemma delays_app tr1 tr2 : delays (tr1 ++ tr2) = (delays tr1 + delays tr2)%nat.
Proof. unfold delays. by rewrite List.filter_app, length_app. Qed.

Lemma attempt_body_no_delay s env blind w s' tr out :
  attempt_body s env blind w = (s', tr, out) -> delays tr = 0%nat.
Proof.
  unfold attempt_body.
  destruct (e_now env >? timeout w); [by intros [= <- <- <-]|].
  destruct (findBestMatch _ _ _ _ _) as [[v q]|e]; [|by intros [= <- <- <-]].
  destruct (e_createCall env); by intros [= <- <- <-].
Qed.

Lemma attempt_loop_delays fuel : forall attempt s envs blind w s' tr out,
  (attempt + fuel = 4)%nat -> (1 <= fuel)%nat ->
  attempt_loop fuel attempt s envs blind w = (s', tr, out) ->
  (delays tr + attempt <= 3)%nat.
Proof.
  induction fuel as [|fuel IH]; intros attempt s envs blind w s' tr out Hsum Hpos; [lia|].
  simpl.
  destruct (attempt_body s (envs attempt) blind w) as [[s1 tr1] [r|e]] eqn:Hb;
    apply attempt_body_no_delay in Hb.
  - intros [= <- <- <-]. lia.
  - destruct (attempt =? maxAttempts)%nat eqn:Hlast.
    + intros [= <- <- <-]. lia.
    + apply Nat.eqb_neq in Hlast. unfold maxAttempts in Hlast.
      destruct (attempt_loop fuel (S attempt) s1 envs blind w) as [[s2 tr2] out2] eqn:Hl.
      intros [= <- <- <-].
      apply IH in Hl; [|lia|lia].
      rewrite delays_app. change (Delay attemptDelay :: tr2) with ([Delay attemptDelay] ++ tr2).
      rewrite delays_app. change (delays [Delay attemptDelay]) with 1%nat. lia.
Qed.

(** X1.  However it ends, [startMatching] ends: it returns or throws
    after at most two 2-second waits, and the caller has no entry in
    the waiting queue afterwards (an entry the caller had before
    included). *)
Theorem startMatching_finishes_and_releases
    (s : Service) (now : Z) (envs : nat -> AttemptEnv)
    (blind category : string) (prio timeoutMs : Z) :
  let r := startMatching s now envs blind category prio timeoutMs in
  is_Some (snd r)
  /\ (delays (snd (fst r)) <= 2)%nat
  /\ waitingQueue (fst (fst r)) !! blind = None.
Proof.
  unfold startMatching.
  destruct (waitingQueue s !! blind) as [old|] eqn:Hq; simpl.
  { split; [by eexists|]. split; [unfold delays; simpl; lia|]. apply lookup_delete_eq. }
  match goal with |- context [attemptMatch ?a ?b ?c ?d] =>
    destruct (attemptMatch a b c d) as [[s2 tr] out] eqn:Hrun end.
  unfold attemptMatch in Hrun.
  pose proof Hrun as Hdel.
  apply attempt_loop_queue in Hrun as [Hqueue Hsome];
    [|reflexivity|unfold maxAttempts; lia].
  apply attempt_loop_delays in Hdel; [|reflexivity|unfold maxAttempts; lia].
  assert (waitingQueue s2 !! blind = None) as Hnone.
  { rewrite Hqueue. apply lookup_delete_eq. }
  destruct out as [[r|e]|]; simpl.
  - split; [by eexists|]. split; [lia|done].
  - split; [by eexists|]. split; [lia|]. apply lookup_delete_eq.
  - by destruct Hsome.
Qed.

(** ** Which volunteer is selected *)

Lemma sort_desc_head (l : list (User * Q)) :
  match sort_desc l with
  | [] => l = []
  | h :: _ => first_best l h
  end.
Proof.
  induction l as [|x l IH]; [done|].
  unfold sort_desc in *. simpl.
  destruct (foldr insert_desc [] l) as [|h0 rest]; simpl.
  - subst l. exists [], []. repeat split; constructor.
  - destruct IH as (l1 & l2 & -> & Hlt & Hle).
    destruct (Qle_bool (snd h0) (snd x)) eqn:Hcmp.
    + apply Qle_bool_iff in Hcmp.
      exists [], (l1 ++ h0 :: l2). split; [done|]. split; [constructor|].
      apply Forall_app. split.
      * eapply Forall_impl; [exact Hlt|]. intros y Hy. simpl in Hy.
        apply Qlt_le_weak. eapply Qlt_le_trans; eauto.
      * constructor; [done|].
        eapply Forall_impl; [exact Hle|]. intros y Hy. simpl in Hy.
        eapply Qle_trans; eauto.
    + assert (snd x < snd h0)%Q as Hx.
      { apply Qnot_le_lt. intros H. apply Qle_bool_iff in H. congruence. }
      exists (x :: l1), l2. split; [done|]. split; [|done].
      by constructor.
Qed.

(** X3.  When every available volunteer scores 0 (the floor of the
    score), [findBestMatch] selects nobody and throws the
    no-suitable-volunteers error, although the list is not empty. *)
Theorem findBestMatch_rejects_zero_scores
    (s : Service) (env : AttemptEnv) (blind category : string) (prio : Z)
    (b : User) (l : list User) :
  e_blindUser env = Ok (Some b) -> userType b = "blind"%string ->
  e_volunteers env = Ok l -> l <> [] ->
  Forall (fun u => (calculateVolunteerScore s (e_scoreNow env) u category prio <= 0)%Q) l ->
  findBestMatch s env blind category prio
  = Thrown (MatchingError "No suitable volunteers available").
Proof.
  intros Hb Hty Hl Hne Hall. unfold findBestMatch.
  rewrite Hb, (bool_decide_eq_true_2 _ Hty), Hl. simpl negb. cbv iota.
  destruct l as [|u l']; [done|]. simpl length. simpl Nat.eqb. cbv iota.
  set (f := fun u => (u, calculateVolunteerScore s (e_scoreNow env) u category prio)).
  pose proof (sort_desc_head (map f (u :: l'))) as Hhead.
  destruct (sort_desc (map f (u :: l'))) as [|best rest]; [discriminate|].
  destruct Hhead as (l1 & l2 & Hsplit & _ & _).
  assert (snd best <= 0)%Q as Hle.
  { assert (best ∈ map f (u :: l')) as Hin.
    { rewrite Hsplit. apply elem_of_app. right. by left. }
    apply list_elem_of_fmap in Hin as (u0 & -> & Hu0).
    rewrite Forall_forall in Hall. simpl. by apply Hall. }
  apply Qle_bool_iff in Hle. by rewrite Hle.
Qed.

(** ** Accepting, declining and ending *)

(** X4.  Only the volunteer a match was assigned to can accept or
    decline it: for anybody else both throw the not-authorized error,
    make no request and leave the service as it is. *)
Theorem only_assigned_volunteer_decides
    (s : Service) (now : Z) (reply : Reply unit)
    (roomId volunteerId reason : string) (m : MatchInfo) :
  activeMatches s !! roomId = Some m ->
  volunteerUserId m <> volunteerId ->
  acceptMatch s now reply roomId volunteerId
  = (s, [], Thrown (MatchingError "Volunteer not authorized for this match"))
  /\ declineMatch s now reply roomId volunteerId reason
     = (s, [], Thrown (MatchingError "Volunteer not authorized for this match"), None).
Proof.
  intros Hm Hne. unfold acceptMatch, declineMatch. rewrite Hm.
  by rewrite (bool_decide_eq_false_2 _ Hne).
Qed.

(** X5.  Accepting can be repeated: after a successful [acceptMatch]
    the match is stored as accepted at the time of the call, and the
    same volunteer accepting again succeeds again with the same answer
    and asks once more for the call to be activated; the second accept
    changes nothing but [acceptedAt], which it overwrites, so that the
    service is as after a single accept at the later time. *)
Theorem acceptMatch_repeatable
    (s : Service) (now now' : Z) (roomId volunteerId : string) (m : MatchInfo) :
  activeMatches s !! roomId = Some m ->
  volunteerUserId m = volunteerId ->
  let answer := Returned {| a_roomId := m_roomId m; a_blindUserId := blindUserId m |} in
  exists s1 s2,
    acceptMatch s now (Ok tt) roomId volunteerId
    = (s1, [ActivateCall (m_callId m)], answer)
    /\ activeMatches s1 !! roomId = Some (accepted m now)
    /\ acceptMatch s1 now' (Ok tt) roomId volunteerId
       = (s2, [ActivateCall (m_callId m)], answer)
    /\ activeMatches s2 !! roomId = Some (accepted m now')
    /\ s2 = fst (fst (acceptMatch s now' (Ok tt) roomId volunteerId))
    /\ (now' <> now -> s2 <> s1).
Proof.
  intros Hm Hv answer. unfold acceptMatch. rewrite Hm.
  rewrite (bool_decide_eq_true_2 _ Hv). simpl negb. cbv iota.
  eexists _, _. split; [reflexivity|]. simpl.
  rewrite lookup_insert_eq. split; [done|]. simpl.
  rewrite (bool_decide_eq_true_2 _ Hv). simpl.
  split; [reflexivity|]. simpl. rewrite lookup_insert_eq.
  split; [done|]. split.
  - unfold set_matches. simpl. by rewrite insert_insert_eq.
  - intros Hne Heq.
    assert (activeMatches (set_matches (insert roomId (accepted (accepted m now) now'))
                             (set_matches (insert roomId (accepted m now)) s)) !! roomId
            = activeMatches (set_matches (insert roomId (accepted m now)) s) !! roomId)
      as Hsame by (by rewrite Heq).
    simpl in Hsame. rewrite !lookup_insert_eq in Hsame.
    injection Hsame as Hsame. done.
Qed.

(** X6.  [endCall] asks nothing about who ends the call: for any
    [endedBy] it completes the call of an existing match with
    [floor((now - matchedAt) / 1000)] seconds, frees the volunteer and
    removes the match and no other; from then on accepting, declining
    and ending that room all throw not-found and change nothing. *)
Theorem endCall_closes_the_match
    (s : Service) (now : Z) (roomId endedBy endReason : string) (m : MatchInfo) :
  activeMatches s !! roomId = Some m ->
  let seconds := (now - matchedAt m) / 1000 in
  exists s1,
    endCall s now (Ok tt) roomId endedBy endReason
    = (s1, [CompleteCall (m_callId m) seconds endReason endedBy;
            Plain (SetVolunteerAvailability (volunteerUserId m) true)],
       Returned seconds)
    /\ (seconds * 1000 <= now - matchedAt m < (seconds + 1) * 1000)
    /\ activeMatches s1 !! roomId = None
    /\ (forall r, r <> roomId -> activeMatches s1 !! r = activeMatches s !! r)
    /\ (forall now' reply who why,
          acceptMatch s1 now' reply roomId who
          = (s1, [], Thrown (NotFoundError "Active match"))
          /\ declineMatch s1 now' reply roomId who why
             = (s1, [], Thrown (NotFoundError "Active match"), None)
          /\ endCall s1 now' reply roomId who why
             = (s1, [], Thrown (NotFoundError "Active call"))).
Proof.
  intros Hm seconds. unfold endCall at 1. rewrite Hm.
  eexists. split; [reflexivity|]. split.
  { unfold seconds. pose proof (Z.div_mod (now - matchedAt m) 1000 ltac:(lia)).
    pose proof (Z.mod_pos_bound (now - matchedAt m) 1000 ltac:(lia)). lia. }
  simpl. split; [apply lookup_delete_eq|]. split.
  { intros r Hr. by apply lookup_delete_ne. }
  intros now' reply who why. unfold acceptMatch, declineMatch, endCall. simpl.
  by rewrite lookup_delete_eq.
Qed.

(** X7.  When the awaited [updateCall] is rejected, [declineMatch] and
    [endCall] throw and leave the service as it was, but [acceptMatch]
    throws with the match already marked accepted. *)
Theorem database_error_during_lifecycle
    (s : Service) (now : Z) (msg roomId who why : string) (m : MatchInfo) :
  activeMatches s !! roomId = Some m ->
  volunteerUserId m = who ->
  (fst (fst (fst (declineMatch s now (Throws msg) roomId who why))) = s
   /\ snd (fst (declineMatch s now (Throws msg) roomId who why))
      = Thrown (DatabaseError msg))
  /\ (fst (fst (endCall s now (Throws msg) roomId who why)) = s
      /\ snd (endCall s now (Throws msg) roomId who why) = Thrown (DatabaseError msg))
  /\ (snd (acceptMatch s now (Throws msg) roomId who) = Thrown (DatabaseError msg)
      /\ m_status <$> activeMatches (fst (fst (acceptMatch s now (Throws msg) roomId who)))
                        !! roomId
         = Some "accepted"%string).
Proof.
  intros Hm Hv. unfold declineMatch, endCall, acceptMatch. rewrite Hm.
  rewrite (bool_decide_eq_true_2 _ Hv). simpl.
  repeat split. by rewrite lookup_insert_eq.
Qed.

(** ** Cancelling *)

Lemma startMatching_releases s now envs blind category prio timeoutMs :
  waitingQueue (fst (fst (startMatching s now envs blind category prio timeoutMs)))
    !! blind = None.
Proof.
  unfold startMatching.
  destruct (waitingQueue s !! blind) as [old|] eqn:Hq; simpl.
  { apply lookup_delete_eq. }
  match goal with |- context [attemptMatch ?a ?b ?c ?d] =>
    destruct (attemptMatch a b c d) as [[s2 tr] out] eqn:Hrun end.
  unfold attemptMatch in Hrun.
  apply attempt_loop_queue in Hrun as [Hqueue Hsome];
    [|reflexivity|unfold maxAttempts; lia].
  assert (waitingQueue s2 !! blind = None) as Hnone.
  { rewrite Hqueue. apply lookup_delete_eq. }
  destruct out as [[r|e]|]; simpl; [done|apply lookup_delete_eq|done].
Qed.

(** X8.  [cancelMatching] removes the caller's entry and nothing else,
    and a second cancel throws the not-in-queue error. *)
Theorem cancelMatching_removes_only_caller
    (s : Service) (blind : string) (w : WaitingInfo) :
  waitingQueue s !! blind = Some w ->
  exists s1,
    cancelMatching s blind = (s1, Returned tt)
    /\ waitingQueue s1 !! blind = None
    /\ (forall b, b <> blind -> waitingQueue s1 !! b = waitingQueue s !! b)
    /\ activeMatches s1 = activeMatches s
    /\ cancelMatching s1 blind
       = (s1, Thrown (MatchingError "User is not in the matching queue")).
Proof.
  intros Hw. unfold cancelMatching at 1. rewrite Hw. eexists. split; [reflexivity|].
  simpl. split; [apply lookup_delete_eq|]. split.
  { intros b Hb. by apply lookup_delete_ne. }
  split; [done|]. unfold cancelMatching. simpl. by rewrite lookup_delete_eq.
Qed.

(** X9.  Once a caller's [startMatching] has ended, however it ended,
    there is nothing left to cancel: [cancelMatching] throws the
    not-in-queue error and changes nothing. *)
Theorem cancelMatching_after_startMatching
    (s : Service) (now : Z) (envs : nat -> AttemptEnv)
    (blind category : string) (prio timeoutMs : Z) :
  let s2 := fst (fst (startMatching s now envs blind category prio timeoutMs)) in
  cancelMatching s2 blind
  = (s2, Thrown (MatchingError "User is not in the matching queue")).
Proof.
  intros s2. unfold cancelMatching, s2. by rewrite startMatching_releases.
Qed.

(** ** The periodic sweep *)

(** X10.  [cleanup] keeps exactly the waiting entries whose deadline
    has not passed and the matches made within the last 24 hours, does
    not touch the per-volunteer statistics, and a second sweep at the
    same time changes nothing more. *)
Theorem cleanup_keeps_exactly_the_live (s : Service) (now : Z) :
  (forall b w, waitingQueue (cleanup s now) !! b = Some w
               <-> waitingQueue s !! b = Some w /\ now <= timeout w)
  /\ (forall r m, activeMatches (cleanup s now) !! r = Some m
                  <-> activeMatches s !! r = Some m
                      /\ now - 24 * 60 * 60 * 1000 <= matchedAt m)
  /\ callCount (cleanup s now) = callCount s
  /\ volunteerLastCall (cleanup s now) = volunteerLastCall s
  /\ cleanup (cleanup s now) now = cleanup s now.
Proof.
  assert (forall b w, waitingQueue (cleanup s now) !! b = Some w
               <-> waitingQueue s !! b = Some w /\ now <= timeout w) as Hq.
  { intros b w. unfold cleanup. simpl. rewrite map_lookup_filter_Some. simpl.
    split; intros [H1 H2]; (split; [done|lia]). }
  assert (forall r m, activeMatches (cleanup s now) !! r = Some m
                  <-> activeMatches s !! r = Some m
                      /\ now - 24 * 60 * 60 * 1000 <= matchedAt m) as Hm.
  { intros r m. unfold cleanup. simpl. rewrite map_lookup_filter_Some. simpl.
    split; intros [H1 H2]; (split; [done|lia]). }
  split; [done|]. split; [done|]. split; [done|]. split; [done|].
  assert (forall (A : Type) (P : string * A -> Prop) `{!forall x, Decision (P x)}
            (m : gmap string A), filter P (filter P m) = filter P m) as Hidem.
  { intros A P HP m. apply map_eq. intros k. apply option_eq. intros x.
    rewrite !map_lookup_filter_Some. tauto. }
  unfold cleanup. simpl. by rewrite !Hidem.
Qed.

(** ** What the whole service keeps *)

Lemma attempt_body_counts s env blind w s' tr out v :
  attempt_body s env blind w = (s', tr, out) ->
  get_or_zero (callCount s) v <= get_or_zero (callCount s') v.
Proof.
  unfold attempt_body.
  destruct (e_now env >? timeout w); [intros [= <- <- <-]; simpl; lia|].
  destruct (findBestMatch _ _ _ _ _) as [[u q]|e]; [|intros [= <- <- <-]; lia].
  destruct (e_createCall env); intros [= <- <- <-]; [|lia].
  simpl. unfold get_or_zero at 2.
  destruct (decide (id u = v)) as [->|Hne].
  - rewrite lookup_insert_eq. lia.
  - rewrite lookup_insert_ne by done. unfold get_or_zero. lia.
Qed.

Lemma attempt_loop_counts fuel : forall attempt s envs blind w s' tr out v,
  attempt_loop fuel attempt s envs blind w = (s', tr, out) ->
  get_or_zero (callCount s) v <= get_or_zero (callCount s') v.
Proof.
  induction fuel as [|fuel IH]; intros attempt s envs blind w s' tr out v; simpl.
  { intros [= <- <- <-]. lia. }
  destruct (attempt_body s (envs attempt) blind w) as [[s1 tr1] [r|e]] eqn:Hb;
    apply (attempt_body_counts _ _ _ _ _ _ _ v) in Hb.
  - by intros [= <- <- <-].
  - destruct (attempt =? maxAttempts)%nat.
    + by intros [= <- <- <-].
    + destruct (attempt_loop fuel (S attempt) s1 envs blind w) as [[s2 tr2] out2] eqn:Hl.
      intros [= <- <- <-]. apply (IH _ _ _ _ _ _ _ _ v) in Hl. lia.
Qed.

Lemma step_counts s e v :
  get_or_zero (callCount s) v <= get_or_zero (callCount (step s e)) v.
Proof.
  destruct e; simpl.
  - unfold startMatching. destruct (waitingQueue s !! blind); simpl; [lia|].
    match goal with |- context [attemptMatch ?a ?b ?c ?d] =>
      destruct (attemptMatch a b c d) as [[s2 tr] out] eqn:Hrun end.
    apply (attempt_loop_counts _ _ _ _ _ _ _ _ _ v) in Hrun. simpl in Hrun.
    by destruct out as [[r|e]|].
  - unfold cancelMatching. destruct (waitingQueue s !! blind); simpl; lia.
  - unfold acceptMatch. destruct (activeMatches s !! roomId) as [m|]; simpl; [|lia].
    destruct (negb _); simpl; [lia|]. destruct reply; simpl; lia.
  - unfold declineMatch. destruct (activeMatches s !! roomId) as [m|]; simpl; [|lia].
    destruct (negb _); simpl; [lia|]. destruct reply; simpl; lia.
  - unfold run_rematch.
    destruct (attemptMatch s envs (bg_blind bg) (bg_waitingInfo bg))
      as [[s2 tr] out] eqn:Hrun.
    apply (attempt_loop_counts _ _ _ _ _ _ _ _ _ v) in Hrun.
    by destruct out as [[r|e]|].
  - unfold endCall. destruct (activeMatches s !! roomId) as [m|]; simpl; [|lia].
    destruct reply; simpl; lia.
  - lia.
Qed.

(** X11.  The per-volunteer call count that feeds the fairness penalty
    of the score never goes down: no request and no sweep resets it. *)
Theorem callCount_never_decreases (es : list Event) (s : Service) (v : string) :
  get_or_zero (callCount s) v <= get_or_zero (callCount (run es s)) v.
Proof.
  revert s. induction es as [|e es IH]; intros s; simpl; [lia|].
  etrans; [apply (step_counts s e v)|apply IH].
Qed.

Lemma service_inv_queue s q :
  service_inv s ->
  service_inv {| waitingQueue := q; activeMatches := activeMatches s;
                 volunteerLastCall := volunteerLastCall s; callCount := callCount s |}.
Proof. intros [H1 H2 H3]. by split. Qed.

Lemma attempt_body_inv s env blind w s' tr out :
  service_inv s -> attempt_body s env blind w = (s', tr, out) -> service_inv s'.
Proof.
  intros Hinv. unfold attempt_body.
  destruct (e_now env >? timeout w).
  { intros [= <- <- <-]. by apply service_inv_queue. }
  destruct (findBestMatch _ _ _ _ _) as [[u q]|e]; [|by intros [= <- <- <-]].
  destruct (e_createCall env); intros [= <- <- <-]; [|done].
  destruct Hinv as [H1 H2 H3]. split; simpl.
  - intros r m. rewrite lookup_insert. case_decide as Hr.
    + intros [= <-]. by subst.
    + apply H1.
  - intros v n. rewrite lookup_insert. case_decide as Hv.
    + intros [= <-]. unfold get_or_zero.
      destruct (callCount s !! id u) as [k|] eqn:Hk; [|lia].
      apply H2 in Hk. lia.
    + apply H2.
  - intros v. rewrite !lookup_insert. case_decide; [|apply H3].
    split; intros _; by eexists.
Qed.

Lemma attempt_loop_inv fuel : forall attempt s envs blind w s' tr out,
  service_inv s -> attempt_loop fuel attempt s envs blind w = (s', tr, out) ->
  service_inv s'.
Proof.
  induction fuel as [|fuel IH]; intros attempt s envs blind w s' tr out Hinv; simpl.
  { by intros [= <- <- <-]. }
  destruct (attempt_body s (envs attempt) blind w) as [[s1 tr1] [r|e]] eqn:Hb;
    apply attempt_body_inv in Hb; try done.
  - by intros [= <- <- <-].
  - destruct (attempt =? maxAttempts)%nat.
    + intros [= <- <- <-]. by apply service_inv_queue.
    + destruct (attempt_loop fuel (S attempt) s1 envs blind w) as [[s2 tr2] out2] eqn:Hl.
      intros [= <- <- <-]. by apply IH in Hl.
Qed.

Lemma service_inv_matches s f :
  service_inv s ->
  (forall r m, f (activeMatches s) !! r = Some m -> m_roomId m = r) ->
  service_inv (set_matches f s).
Proof. intros [H1 H2 H3] Hf. by split. Qed.

Lemma step_inv_matching s e : service_inv s -> service_inv (step s e).
Proof.
  intros Hinv. destruct e; simpl.
  - unfold startMatching. destruct (waitingQueue s !! blind); simpl.
    { by apply service_inv_queue. }
    match goal with |- context [attemptMatch ?a ?b ?c ?d] =>
      destruct (attemptMatch a b c d) as [[s2 tr] out] eqn:Hrun end.
    apply attempt_loop_inv in Hrun; [|by apply service_inv_queue].
    destruct out as [[r|e]|]; simpl; [done|by apply service_inv_queue|done].
  - unfold cancelMatching. destruct (waitingQueue s !! blind); simpl; [|done].
    by apply service_inv_queue.
  - unfold acceptMatch. destruct (activeMatches s !! roomId) as [m|] eqn:Hm; simpl; [|done].
    destruct (negb _); simpl; [done|].
    assert (service_inv (set_matches (insert roomId (accepted m now)) s)).
    { apply service_inv_matches; [done|]. intros r m'. rewrite lookup_insert.
      case_decide as Hr.
      - intros [= <-]. simpl. subst. by apply (inv_room s Hinv).
      - apply (inv_room s Hinv). }
    by destruct reply.
  - unfold declineMatch. destruct (activeMatches s !! roomId) as [m|] eqn:Hm; simpl; [|done].
    destruct (negb _); simpl; [done|]. destruct reply; simpl; [|done].
    destruct Hinv as [H1 H2 H3]. split; simpl; try done.
    intros r m' Hr. apply lookup_delete_Some in Hr as [_ Hr]. by apply H1.
  - unfold run_rematch.
    destruct (attemptMatch s envs (bg_blind bg) (bg_waitingInfo bg))
      as [[s2 tr] out] eqn:Hrun.
    apply attempt_loop_inv in Hrun; [|done].
    by destruct out as [[r|e]|].
  - unfold endCall. destruct (activeMatches s !! roomId) as [m|] eqn:Hm; simpl; [|done].
    destruct reply; simpl; [|done].
    apply service_inv_matches; [done|].
    intros r m' Hr. apply lookup_delete_Some in Hr as [_ Hr]. by apply (inv_room s Hinv).
  - destruct Hinv as [H1 H2 H3]. split; simpl; try done.
    intros r m Hr. apply map_lookup_filter_Some in Hr as [Hr _]. by apply H1.
Qed.

(** X12.  In every state the service reaches, each active match is
    stored under its own room id, and a volunteer has a call count
    exactly when a last-call time is recorded for it, the count being
    at least 1. *)
Theorem matching_service_invariant (es : list Event) :
  service_inv (run es new_service).
Proof.
  assert (forall s, service_inv s -> service_inv (run es s)) as Hrun.
  { induction es as [|e es IH]; intros s Hs; [done|].
    simpl. apply IH. by apply step_inv_matching. }
  apply Hrun. split; simpl.
  - intros r m Hr. by rewrite lookup_empty in Hr.
  - intros v n Hv. by rewrite lookup_empty in Hv.
  - intros v. rewrite !lookup_empty. done.
Qed.

(** ** Instances *)

Lemma findBestMatch_rejects_zero_scores_witness :
  findBestMatch busy_service busy_env "b1" "reading" 1
  = Thrown (MatchingError "No suitable volunteers available").
Proof.
  apply (findBestMatch_rejects_zero_scores busy_service busy_env "b1" "reading" 1
           blind1 [newcomer]).
  - reflexivity.
  - reflexivity.
  - reflexivity.
  - discriminate.
  - repeat constructor. vm_compute. discriminate.
Defined.

Lemma only_assigned_volunteer_decides_witness :
  acceptMatch matched_service 900 (Ok tt) "room-1" "v2"
  = (matched_service, [], Thrown (MatchingError "Volunteer not authorized for this match"))
  /\ declineMatch matched_service 900 (Ok tt) "room-1" "v2" "busy"
     = (matched_service, [],
        Thrown (MatchingError "Volunteer not authorized for this match"), None).
Proof.
  apply (only_assigned_volunteer_decides matched_service 900 (Ok tt) "room-1" "v2" "busy"
           match1).
  - reflexivity.
  - discriminate.
Defined.

Lemma acceptMatch_repeatable_witness :
  exists s1 s2,
    acceptMatch matched_service 900 (Ok tt) "room-1" "v1"
    = (s1, [ActivateCall "call-1"],
       Returned {| a_roomId := "room-1"; a_blindUserId := "b1" |})
    /\ activeMatches s1 !! "room-1"%string = Some (accepted match1 900)
    /\ acceptMatch s1 950 (Ok tt) "room-1" "v1"
       = (s2, [ActivateCall "call-1"],
          Returned {| a_roomId := "room-1"; a_blindUserId := "b1" |})
    /\ activeMatches s2 !! "room-1"%string = Some (accepted match1 950)
    /\ s2 = fst (fst (acceptMatch matched_service 950 (Ok tt) "room-1" "v1"))
    /\ (950 <> 900 -> s2 <> s1).
Proof.
  apply (acceptMatch_repeatable matched_service 900 950 "room-1" "v1" match1).
  - reflexivity.
  - reflexivity.
Defined.

Lemma endCall_closes_the_match_witness :
  exists s1,
    endCall matched_service 61500 (Ok tt) "room-1" "b1" "done"
    = (s1, [CompleteCall "call-1" 61 "done" "b1";
            Plain (SetVolunteerAvailability "v1" true)],
       Returned 61)
    /\ (61 * 1000 <= 61500 - 500 < (61 + 1) * 1000)
    /\ activeMatches s1 !! "room-1"%string = None
    /\ (forall r, r <> "room-1"%string ->
          activeMatches s1 !! r = activeMatches matched_service !! r)
    /\ (forall now' reply who why,
          acceptMatch s1 now' reply "room-1" who
          = (s1, [], Thrown (NotFoundError "Active match"))
          /\ declineMatch s1 now' reply "room-1" who why
             = (s1, [], Thrown (NotFoundError "Active match"), None)
          /\ endCall s1 now' reply "room-1" who why
             = (s1, [], Thrown (NotFoundError "Active call"))).
Proof.
  apply (endCall_closes_the_match matched_service 61500 "room-1" "b1" "done" match1).
  reflexivity.
Defined.

Lemma database_error_during_lifecycle_witness :
  (fst (fst (fst (declineMatch matched_service 900 (Throws "down") "room-1" "v1" "busy")))
   = matched_service
   /\ snd (fst (declineMatch matched_service 900 (Throws "down") "room-1" "v1" "busy"))
      = Thrown (DatabaseError "down"))
  /\ (fst (fst (endCall matched_service 900 (Throws "down") "room-1" "v1" "busy"))
      = matched_service
      /\ snd (endCall matched_service 900 (Throws "down") "room-1" "v1" "busy")
         = Thrown (DatabaseError "down"))
  /\ (snd (acceptMatch matched_service 900 (Throws "down") "room-1" "v1")
      = Thrown (DatabaseError "down")
      /\ m_status <$> activeMatches
                        (fst (fst (acceptMatch matched_service 900 (Throws "down")
                                     "room-1" "v1"))) !! "room-1"%string
         = Some "accepted"%string).
Proof.
  apply (database_error_during_lifecycle matched_service 900 "down" "room-1" "v1" "busy"
           match1).
  - reflexivity.
  - reflexivity.
Defined.

Lemma cancelMatching_removes_only_caller_witness :
  exists s1,
    cancelMatching waiting_service "b1" = (s1, Returned tt)
    /\ waitingQueue s1 !! "b1"%string = None
    /\ (forall b, b <> "b1"%string -> waitingQueue s1 !! b = waitingQueue waiting_service !! b)
    /\ activeMatches s1 = activeMatches waiting_service
    /\ cancelMatching s1 "b1"
       = (s1, Thrown (MatchingError "User is not in the matching queue")).
Proof.
  apply (cancelMatching_removes_only_caller waiting_service "b1" waiting1).
  reflexivity.
Defined.

End MatchingLifecycle.

(* ===================================================================== *)
(** * Delivery and bookkeeping of the signaling relay *)
(* ===================================================================== *)

Section SignalingDelivery.
Import Signaling SignalingScenario.

#[local] Hint Rewrite rooms_sendMessage updates_sendMessage connections_sendMessage
  rooms_broadcastToRoom updates_broadcastToRoom connections_broadcastToRoom
  : relay_frame.

(** ** Forwarding offers, answers and candidates *)

(** X13.  [handleOffer], [handleAnswer] and [handleIceCandidate] change
    nothing but the outbox, to which they add at most one message:
    either an error for the sender, or the payload for the connection
    under which the named target is registered in the sender's room. *)
Theorem relay_delivers_to_target_only
    (label ty : string) (b : bool) (s : State) (cid : nat) (data : RelayData) :
  let s' := relay label ty b s cid data in
  rooms s' = rooms s /\ connections s' = connections s
  /\ callUpdates s' = callUpdates s /\ connectionCounter s' = connectionCounter s
  /\ (outbox s' = outbox s
      \/ (exists text, outbox s' = outbox s ++ [(cid, error text)])
      \/ (exists c room p,
            connections s !! cid = Some c
            /\ rooms s !! default ""%string (roomId c) = Some room
            /\ participants room !! default ""%string (targetUserId data) = Some p
            /\ outbox s'
               = outbox s ++ [(p_connectionId p,
                               relayed ty (default ""%string (payload data)) (userId c)
                                 (if b then userType c else None))])).
Proof.
  assert (forall to m, let s' := sendMessage s to m in
            rooms s' = rooms s /\ connections s' = connections s
            /\ callUpdates s' = callUpdates s
            /\ connectionCounter s' = connectionCounter s
            /\ (outbox s' = outbox s \/ outbox s' = outbox s ++ [(to, m)])) as Hsend.
  { intros to m. unfold sendMessage. destruct (can_send s to); simpl; auto 10. }
  assert (forall text, let s' := sendError s cid text in
            rooms s' = rooms s /\ connections s' = connections s
            /\ callUpdates s' = callUpdates s
            /\ connectionCounter s' = connectionCounter s
            /\ (outbox s' = outbox s
                \/ (exists text, outbox s' = outbox s ++ [(cid, error text)])
                \/ (exists c room p,
                      connections s !! cid = Some c
                      /\ rooms s !! default ""%string (roomId c) = Some room
                      /\ participants room !! default ""%string (targetUserId data) = Some p
                      /\ outbox s'
                         = outbox s ++ [(p_connectionId p,
                               relayed ty (default ""%string (payload data)) (userId c)
                                 (if b then userType c else None))]))) as Herr.
  { intros text. destruct (Hsend cid (error text)) as (?&?&?&?&[?|?]); unfold sendError;
      repeat split; eauto. }
  unfold relay.
  destruct (connections s !! cid) as [c|] eqn:Hc; [|apply Herr].
  destruct (negb (truthy (roomId c))); [apply Herr|].
  destruct (negb _); [apply Herr|].
  destruct (rooms s !! default ""%string (roomId c)) as [room|] eqn:Hroom; [|apply Herr].
  destruct (participants room !! default ""%string (targetUserId data)) as [p|] eqn:Hp;
    [|apply Herr].
  match goal with |- context [sendMessage s ?to ?m] =>
    destruct (Hsend to m) as (?&?&?&?&[?|Hout]) end; repeat split; auto.
  right. right. exists c, room, p. by rewrite Hout.
Qed.

(** ** After a disconnect *)

(** X14.  [handleDisconnection] unregisters the connection, and from
    then on nothing that refers to its id has any effect: messages,
    a second close, heartbeats and pongs leave the state as it is. *)
Theorem disconnected_connection_is_inert (s : State) (cid : nat) :
  let s1 := handleDisconnection s cid in
  connections s1 !! cid = None
  /\ (forall now m, handleMessage s1 now cid m = s1)
  /\ handleDisconnection s1 cid = s1
  /\ heartbeat s1 cid = s1
  /\ on_pong s1 cid = s1
  /\ (forall m, sendMessage s1 cid m = s1).
Proof.
  intros s1.
  assert (connections s1 !! cid = None) as Hgone.
  { unfold s1, handleDisconnection.
    destruct (connections s !! cid) as [c|] eqn:Hc; [|done].
    simpl. apply lookup_delete_eq. }
  split; [done|]. split.
  { intros now m. unfold handleMessage. by rewrite Hgone. }
  split. { unfold handleDisconnection. by rewrite Hgone. }
  split. { unfold heartbeat. by rewrite Hgone. }
  split.
  { unfold on_pong, set_connections. destruct s1 as [r c n o u]. simpl in *.
    f_equal. apply map_eq. intros i. destruct (decide (i = cid)) as [->|Hne].
    - by rewrite lookup_alter_eq, Hgone.
    - by rewrite lookup_alter_ne. }
  intros m. unfold sendMessage, can_send. by rewrite Hgone.
Qed.

(** ** Connection ids *)

Lemma counter_sendMessage s cid m :
  connectionCounter (sendMessage s cid m) = connectionCounter s.
Proof. unfold sendMessage. by destruct (can_send s cid). Qed.

Lemma counter_broadcastToRoom s rid m ex :
  connectionCounter (broadcastToRoom s rid m ex) = connectionCounter s.
Proof. unfold broadcastToRoom. by destruct (rooms s !! rid). Qed.

Lemma ids_ok_frame s s' :
  connections s' = connections s -> connectionCounter s' = connectionCounter s ->
  ids_ok s -> ids_ok s'.
Proof. intros Hc Hn Hok cid c. rewrite Hc, Hn. apply Hok. Qed.

Lemma ids_ok_update s s' cid c c' :
  connections s !! cid = Some c -> c_id c' = c_id c ->
  connections s' = <[cid := c']> (connections s) ->
  connectionCounter s' = connectionCounter s ->
  ids_ok s -> ids_ok s'.
Proof.
  intros Hc Hid Hcs Hn Hok i ci. rewrite Hcs, Hn, lookup_insert.
  case_decide as Hi.
  - intros [= <-]. subst i. rewrite Hid. by apply Hok.
  - apply Hok.
Qed.

Lemma ids_ok_alter s s' cid f :
  (forall c, c_id (f c) = c_id c) ->
  connections s' = alter f cid (connections s) ->
  connectionCounter s' = connectionCounter s ->
  ids_ok s -> ids_ok s'.
Proof.
  intros Hid Hcs Hn Hok i ci. rewrite Hcs, Hn.
  destruct (decide (i = cid)) as [->|Hne].
  - rewrite lookup_alter_eq. destruct (connections s !! cid) as [c|] eqn:Hc; [|done].
    intros [= <-]. rewrite Hid. by apply Hok.
  - rewrite lookup_alter_ne by done. apply Hok.
Qed.

Lemma ids_ok_sub s s' :
  connections s' ⊆ connections s -> connectionCounter s' = connectionCounter s ->
  ids_ok s -> ids_ok s'.
Proof.
  intros Hsub Hn Hok i ci Hi. rewrite Hn. apply Hok.
  by eapply lookup_weaken.
Qed.

Lemma handleLeaveRoom_connections s cid c :
  connections s !! cid = Some c -> truthy (roomId c) = true ->
  connections (handleLeaveRoom s cid) = <[cid := with_room c None]> (connections s)
  /\ connectionCounter (handleLeaveRoom s cid) = connectionCounter s.
Proof.
  intros Hc Hin. unfold handleLeaveRoom. rewrite Hc, Hin. simpl negb. cbv iota.
  rewrite connections_sendMessage, counter_sendMessage. simpl.
  destruct (rooms s !! default ""%string (roomId c)) as [room|]; [|done].
  destruct (size _ =? 0)%nat; simpl;
    by rewrite connections_broadcastToRoom, counter_broadcastToRoom.
Qed.

Lemma handleLeaveRoom_ids s cid : ids_ok s -> ids_ok (handleLeaveRoom s cid).
Proof.
  intros Hok.
  destruct (connections s !! cid) as [c|] eqn:Hc;
    [|unfold handleLeaveRoom; by rewrite Hc].
  destruct (truthy (roomId c)) eqn:Hin;
    [|unfold handleLeaveRoom; by rewrite Hc, Hin].
  destruct (handleLeaveRoom_connections s cid c Hc Hin) as [Hcs Hn].
  by eapply (ids_ok_update s _ cid c (with_room c None)).
Qed.

Lemma handleJoinRoom_ids s now cid data : ids_ok s -> ids_ok (handleJoinRoom s now cid data).
Proof.
  intros Hok. unfold handleJoinRoom, sendError.
  destruct (connections s !! cid) as [c|] eqn:Hc.
  2:{ eapply ids_ok_frame; [apply connections_sendMessage|apply counter_sendMessage|done]. }
  destruct (negb (truthy (j_roomId data) && truthy (j_userId data)
                  && truthy (j_userType data))).
  { eapply ids_ok_frame; [apply connections_sendMessage|apply counter_sendMessage|done]. }
  destruct (negb _).
  { eapply ids_ok_frame; [apply connections_sendMessage|apply counter_sendMessage|done]. }
  set (s1 := if truthy (roomId c) then handleLeaveRoom s cid else s).
  assert (ids_ok s1) as Hok1.
  { unfold s1. destruct (truthy (roomId c)); [by apply handleLeaveRoom_ids|done]. }
  eapply (ids_ok_alter s1 _ cid
            (fun c0 => {| c_id := c_id c0; userId := Some (default ""%string (j_userId data));
                          userType := Some (default ""%string (j_userType data));
                          roomId := Some (default ""%string (j_roomId data));
                          connectedAt := connectedAt c0;
                          isAlive := isAlive c0; readyState := readyState c0 |}));
    [| | |exact Hok1].
  - intros c0. reflexivity.
  - rewrite connections_sendMessage, connections_broadcastToRoom. reflexivity.
  - by rewrite counter_sendMessage, counter_broadcastToRoom.
Qed.

Lemma relay_ids label ty b s cid data : ids_ok s -> ids_ok (relay label ty b s cid data).
Proof.
  intros Hok. unfold relay, sendError.
  repeat (match goal with
          | |- context [match ?x with _ => _ end] => destruct x
          end; try (eapply ids_ok_frame;
                    [apply connections_sendMessage|apply counter_sendMessage|done])).
Qed.

Lemma handleCallStatus_ids s cid data : ids_ok s -> ids_ok (handleCallStatus s cid data).
Proof.
  intros Hok. unfold handleCallStatus, sendError.
  destruct (connections s !! cid) as [c|];
    [|eapply ids_ok_frame; [apply connections_sendMessage|apply counter_sendMessage|done]].
  destruct (negb (truthy (roomId c)));
    [eapply ids_ok_frame; [apply connections_sendMessage|apply counter_sendMessage|done]|].
  destruct (negb (truthy (d_status data)));
    [eapply ids_ok_frame; [apply connections_sendMessage|apply counter_sendMessage|done]|].
  destruct (rooms s !! default ""%string (roomId c)) as [room|];
    [|eapply ids_ok_frame; [apply connections_sendMessage|apply counter_sendMessage|done]].
  eapply ids_ok_frame; [| |exact Hok].
  - rewrite connections_broadcastToRoom. by destruct (call_ended _).
  - rewrite counter_broadcastToRoom. by destruct (call_ended _).
Qed.

Lemma handleDisconnection_connections s cid :
  connections (handleDisconnection s cid) = delete cid (connections s)
  /\ connectionCounter (handleDisconnection s cid) = connectionCounter s.
Proof.
  unfold handleDisconnection.
  destruct (connections s !! cid) as [c|] eqn:Hc.
  2:{ split; [|done]. symmetry. by apply delete_id. }
  simpl. destruct (truthy (roomId c)); [|done].
  destruct (rooms s !! default ""%string (roomId c)) as [room|]; [|done].
  destruct (size _ =? 0)%nat; destruct (in_call _); simpl;
    by rewrite connections_broadcastToRoom, counter_broadcastToRoom.
Qed.

Lemma step_ids s e : ids_ok s -> ids_ok (step s e).
Proof.
  intros Hok. destruct e as [now|now cid m|cid|cid|cid|cid n|now]; simpl.
  - unfold handleConnection. intros i ci.
    rewrite connections_sendMessage, counter_sendMessage. simpl.
    rewrite lookup_insert. case_decide as Hi.
    + intros [= <-]. simpl. lia.
    + intros Hci. apply Hok in Hci. lia.
  - unfold handleMessage. destruct (connections s !! cid); [|done].
    destruct m; unfold sendError, handleOffer, handleAnswer, handleIceCandidate;
      try (by apply relay_ids);
      try (eapply ids_ok_frame;
           [apply connections_sendMessage|apply counter_sendMessage|done]).
    + by apply handleJoinRoom_ids.
    + by apply handleLeaveRoom_ids.
    + by apply handleCallStatus_ids.
  - destruct (handleDisconnection_connections s cid) as [Hcs Hn].
    eapply ids_ok_sub; [|exact Hn|exact Hok]. rewrite Hcs. apply delete_subseteq.
  - unfold heartbeat. destruct (connections s !! cid) as [c|] eqn:Hc; [|done].
    destruct (negb (isAlive c)).
    + by eapply (ids_ok_update s _ cid c (with_readyState c 3)).
    + by eapply (ids_ok_update s _ cid c (with_alive c false)).
  - by eapply (ids_ok_alter s _ cid (fun c => with_alive c true)).
  - by eapply (ids_ok_alter s _ cid (fun c => with_readyState c n)).
  - eapply (ids_ok_sub s); [|reflexivity|exact Hok]. simpl. apply map_filter_subseteq.
Qed.

(** X15.  Connection ids are never reused: in every reachable state
    each connection is stored under its own id, all ids in use lie
    between 1 and the counter, and the next connection is registered
    under an id that no connection holds, with the counter moved past
    it. *)
Theorem connection_ids_are_fresh (es : list Event) (now : Z) :
  let s := run es init in
  ids_ok s
  /\ connections s !! S (connectionCounter s) = None
  /\ connectionCounter (handleConnection s now) = S (connectionCounter s)
  /\ c_id <$> connections (handleConnection s now) !! S (connectionCounter s)
     = Some (S (connectionCounter s))
  /\ (forall cid, cid <> S (connectionCounter s) ->
        connections (handleConnection s now) !! cid = connections s !! cid).
Proof.
  intros s.
  assert (forall es s0, ids_ok s0 -> ids_ok (run es s0)) as Hrun.
  { clear. induction es as [|e es IH]; intros s0 H0; [done|].
    simpl. apply IH. by apply step_ids. }
  assert (ids_ok s) as Hok.
  { apply Hrun. intros cid c Hc. simpl in Hc. by rewrite lookup_empty in Hc. }
  split; [done|]. split.
  { destruct (connections s !! S (connectionCounter s)) as [c|] eqn:Hc; [|done].
    apply Hok in Hc. lia. }
  unfold handleConnection.
  rewrite counter_sendMessage, connections_sendMessage. simpl.
  split; [done|]. split.
  { by rewrite lookup_insert_eq. }
  intros cid Hne. by rewrite lookup_insert_ne.
Qed.

(** ** Leaving a room *)

(** X16.  Leaving is idempotent: after [handleLeaveRoom] the
    connection is still registered, keeps its user id and is in no
    room, and a second [handleLeaveRoom] changes nothing and sends
    nothing. *)
Theorem handleLeaveRoom_idempotent (s : State) (cid : nat) (c : ConnectionInfo) :
  connections s !! cid = Some c ->
  let s1 := handleLeaveRoom s cid in
  (exists c1, connections s1 !! cid = Some c1
              /\ truthy (roomId c1) = false /\ userId c1 = userId c
              /\ readyState c1 = readyState c)
  /\ handleLeaveRoom s1 cid = s1.
Proof.
  intros Hc s1.
  assert (exists c1, connections s1 !! cid = Some c1
                     /\ truthy (roomId c1) = false /\ userId c1 = userId c
                     /\ readyState c1 = readyState c) as Hc1.
  { destruct (truthy (roomId c)) eqn:Hin.
    - destruct (handleLeaveRoom_connections s cid c Hc Hin) as [Hcs _].
      exists (with_room c None). unfold s1. rewrite Hcs. by rewrite lookup_insert_eq.
    - exists c. unfold s1, handleLeaveRoom. by rewrite Hc, Hin. }
  split; [done|].
  destruct Hc1 as (c1 & Hc1 & Hout & _).
  unfold handleLeaveRoom at 1. by rewrite Hc1, Hout.
Qed.

(** ** Heartbeat *)

(** X17.  A connection that lets two heartbeats pass without a pong has
    its socket terminated, after which nothing is sent to it; a pong
    between the two heartbeats keeps the socket as it was. *)
Theorem heartbeat_terminates_silent_connection
    (s : State) (cid : nat) (c : ConnectionInfo) :
  connections s !! cid = Some c ->
  let missed := heartbeat (heartbeat s cid) cid in
  let answered := heartbeat (on_pong (heartbeat s cid) cid) cid in
  (readyState <$> connections missed !! cid = Some 3%nat
   /\ forall m, sendMessage missed cid m = missed)
  /\ (isAlive c = true ->
      connections answered !! cid = Some (with_alive c false)).
Proof.
  intros Hc missed answered.
  assert (exists c1, connections (heartbeat s cid) !! cid = Some c1
                     /\ isAlive c1 = false
                     /\ (isAlive c = true -> c1 = with_alive c false)) as (c1 & Hc1 & Hdead & Hsame).
  { unfold heartbeat. rewrite Hc. destruct (isAlive c) eqn:Ha; simpl.
    - exists (with_alive c false). by rewrite lookup_insert_eq.
    - exists (with_readyState c 3). by rewrite lookup_insert_eq. }
  split.
  - assert (readyState <$> connections missed !! cid = Some 3%nat) as Hterm.
    { unfold missed. unfold heartbeat at 1. rewrite Hc1, Hdead. simpl.
      by rewrite lookup_insert_eq. }
    split; [done|].
    intros m. unfold sendMessage, can_send.
    destruct (connections missed !! cid) as [c2|]; [|done].
    simpl in Hterm. injection Hterm as ->. done.
  - intros Ha. specialize (Hsame Ha). subst c1.
    unfold answered. unfold heartbeat at 1. unfold on_pong at 1. simpl.
    rewrite lookup_alter_eq, Hc1. simpl.
    rewrite lookup_insert_eq. f_equal.
Qed.

(** ** The periodic sweep *)

(** X18.  The sweep of [cleanup] over the rooms never finds anything:
    in a reachable state it leaves the rooms map as it is, since no
    room of the map is empty.  It keeps exactly the connections that
    are alive or at most five minutes old and sends nothing; the close
    event of a connection it dropped is then ignored, so that
    connection's entry stays in its room. *)
Theorem cleanup_never_removes_a_room (es : list Event) (now : Z) :
  let s := run es init in
  rooms (cleanup s now) = rooms s
  /\ (forall cid c,
        connections (cleanup s now) !! cid = Some c
        <-> connections s !! cid = Some c
            /\ (now - connectedAt c <= 5 * 60 * 1000 \/ isAlive c = true))
  /\ (forall cid c,
        connections s !! cid = Some c ->
        now - connectedAt c > 5 * 60 * 1000 -> isAlive c = false ->
        handleDisconnection (cleanup s now) cid = cleanup s now)
  /\ outbox (cleanup s now) = outbox s
  /\ callUpdates (cleanup s now) = callUpdates s.
Proof.
  intros s.
  assert (forall cid c,
        connections (cleanup s now) !! cid = Some c
        <-> connections s !! cid = Some c
            /\ (now - connectedAt c <= 5 * 60 * 1000 \/ isAlive c = true)) as Hkept.
  { intros cid c. unfold cleanup. simpl. rewrite map_lookup_filter_Some. simpl.
    split; intros [Hc Hkeep]; (split; [done|]).
    + destruct (isAlive c); [by right|]. left.
      destruct (decide (now - connectedAt c <= 5 * 60 * 1000)) as [|Hold]; [done|].
      exfalso. apply Hkeep. split; [lia|done].
    + intros [Hage Hdead]. destruct Hkeep as [Hyoung|Halive]; [lia|congruence]. }
  split; [|split; [done|split; [|done]]].
  - unfold cleanup. simpl. apply map_filter_id.
    intros rid r Hr [Hsize _]. simpl in Hsize.
    by apply (reachable_rooms_nonempty es rid r Hr).
  - intros cid c Hc Hold Hdead. unfold handleDisconnection.
    destruct (connections (cleanup s now) !! cid) as [c'|] eqn:Hc'; [|done].
    apply Hkept in Hc' as [Hc' Hkeep]. rewrite Hc in Hc'. injection Hc' as <-.
    destruct Hkeep; [lia|congruence].
Qed.

(** ** Who receives what *)

Lemma can_send_frame s s' cid :
  connections s' = connections s -> can_send s' cid = can_send s cid.
Proof. intros H. unfold can_send. by rewrite H. Qed.

Lemma hands_out_refl cid s : hands_out cid s s.
Proof. split; [done|]. exists []. split; [|done]. unfold sent. by rewrite app_nil_r. Qed.

Lemma hands_out_trans cid s1 s2 s3 :
  hands_out cid s1 s2 -> hands_out cid s2 s3 -> hands_out cid s1 s3.
Proof.
  intros [Hc1 (l1 & Hs1 & Hl1)] [Hc2 (l2 & Hs2 & Hl2)]. split.
  { intros c. by rewrite Hc2. }
  exists (l1 ++ l2). split.
  { unfold sent in *. by rewrite Hs2, Hs1, app_assoc. }
  apply Forall_app. split; [done|].
  eapply Forall_impl; [exact Hl2|]. intros x [Hx He]. by rewrite <- Hc1.
Qed.

Lemma hands_out_silent cid s s' :
  outbox s' = outbox s -> (forall c, can_send s' c = can_send s c) ->
  hands_out cid s s'.
Proof.
  intros Ho Hc. split; [done|]. exists []. split; [|done].
  unfold sent. by rewrite app_nil_r.
Qed.

Lemma hands_out_sendMessage cid s to m :
  (is_error m = true -> to = cid) -> hands_out cid s (sendMessage s to m).
Proof.
  intros He. unfold sendMessage. destruct (can_send s to) eqn:Hto;
    [|apply hands_out_refl].
  split; [done|]. exists [(to, m)]. split; [done|]. by repeat constructor.
Qed.

Lemma recipients_spec s r ex c :
  c ∈ recipients s r ex -> can_send s c = true /\ Some c <> ex.
Proof.
  unfold recipients. intros Hin. apply list_elem_of_In, filter_In in Hin as [_ Hin].
  apply andb_true_iff in Hin as [Hne Hsend]. split; [done|].
  apply negb_true_iff in Hne. by apply bool_decide_eq_false in Hne.
Qed.

Lemma hands_out_broadcastToRoom cid s rid m ex :
  is_error m = false -> hands_out cid s (broadcastToRoom s rid m ex).
Proof.
  intros He. unfold broadcastToRoom. destruct (rooms s !! rid) as [r|];
    [|apply hands_out_refl].
  split; [done|]. eexists. split; [reflexivity|].
  apply Forall_forall. intros [c m'] Hin. apply list_elem_of_fmap in Hin as (c' & [= -> ->] & Hin).
  simpl. split; [by apply recipients_spec in Hin as [? _]|]. congruence.
Qed.

Lemma hands_out_sendError cid s text : hands_out cid s (sendError s cid text).
Proof. by apply hands_out_sendMessage. Qed.

Lemma can_send_insert s cid c c' to :
  connections s !! cid = Some c -> readyState c' = readyState c ->
  can_send (set_connections (insert cid c') s) to = can_send s to.
Proof.
  intros Hc Hr. unfold can_send. simpl. rewrite lookup_insert. case_decide as Hi; [|done].
  subst. by rewrite Hc, Hr.
Qed.

Lemma can_send_alter s cid f to :
  (forall c, readyState (f c) = readyState c) ->
  can_send (set_connections (alter f cid) s) to = can_send s to.
Proof.
  intros Hr. unfold can_send. simpl. destruct (decide (to = cid)) as [->|Hne].
  - rewrite lookup_alter_eq. destruct (connections s !! cid); simpl; [by rewrite Hr|done].
  - by rewrite lookup_alter_ne.
Qed.

Lemma hands_out_handleLeaveRoom s cid : hands_out cid s (handleLeaveRoom s cid).
Proof.
  unfold handleLeaveRoom.
  destruct (connections s !! cid) as [c|] eqn:Hc; [|apply hands_out_refl].
  destruct (negb (truthy (roomId c))); [apply hands_out_refl|].
  cbv zeta.
  match goal with |- hands_out _ _ (sendMessage ?x _ _) =>
    apply (hands_out_trans _ _ x); [|by apply hands_out_sendMessage] end.
  match goal with |- hands_out _ _ (set_connections _ ?s1) =>
    assert (hands_out cid s s1 /\ connections s1 = connections s) as [H1 Hcs] end.
  { destruct (rooms s !! default ""%string (roomId c)) as [room|];
      [|split; [apply hands_out_refl|done]].
    split.
    - destruct (size _ =? 0)%nat;
        (match goal with |- hands_out _ _ (set_rooms _ ?x) =>
           apply (hands_out_trans _ _ x); [|by apply hands_out_silent] end;
         match goal with |- hands_out _ _ (broadcastToRoom ?x _ _ _) =>
           apply (hands_out_trans _ _ x);
             [by apply hands_out_silent|by apply hands_out_broadcastToRoom] end).
    - destruct (size _ =? 0)%nat; simpl; by rewrite connections_broadcastToRoom. }
  match goal with |- hands_out _ _ (set_connections _ ?x) =>
    apply (hands_out_trans _ _ x); [exact H1|] end.
  apply hands_out_silent; [done|]. intros to.
  apply (can_send_insert _ cid c); [by rewrite Hcs|done].
Qed.

Lemma hands_out_handleJoinRoom s now cid data :
  hands_out cid s (handleJoinRoom s now cid data).
Proof.
  unfold handleJoinRoom.
  destruct (connections s !! cid) as [c|] eqn:Hc; [|apply hands_out_sendError].
  destruct (negb (truthy (j_roomId data) && truthy (j_userId data)
                  && truthy (j_userType data))); [apply hands_out_sendError|].
  destruct (negb _); [apply hands_out_sendError|].
  cbv zeta.
  set (s1 := if truthy (roomId c) then handleLeaveRoom s cid else s).
  assert (hands_out cid s s1) as H1.
  { unfold s1. destruct (truthy (roomId c));
      [apply hands_out_handleLeaveRoom|apply hands_out_refl]. }
  match goal with |- hands_out _ _ (sendMessage ?x _ _) =>
    apply (hands_out_trans _ _ x); [|by apply hands_out_sendMessage] end.
  match goal with |- hands_out _ _ (broadcastToRoom ?x _ _ _) =>
    apply (hands_out_trans _ _ x); [|by apply hands_out_broadcastToRoom] end.
  apply (hands_out_trans _ _ s1); [exact H1|].
  apply hands_out_silent; [done|]. intros to.
  rewrite can_send_alter by done. done.
Qed.

Lemma hands_out_relay label ty b s cid data : hands_out cid s (relay label ty b s cid data).
Proof.
  unfold relay.
  repeat (match goal with
          | |- context [match ?x with _ => _ end] => destruct x
          end; try apply hands_out_sendError).
  all: by apply hands_out_sendMessage.
Qed.

Lemma hands_out_handleCallStatus s cid data :
  hands_out cid s (handleCallStatus s cid data).
Proof.
  unfold handleCallStatus.
  destruct (connections s !! cid) as [c|]; [|apply hands_out_sendError].
  destruct (negb (truthy (roomId c))); [apply hands_out_sendError|].
  destruct (negb (truthy (d_status data))); [apply hands_out_sendError|].
  destruct (rooms s !! default ""%string (roomId c)) as [room|];
    [|apply hands_out_sendError].
  cbv zeta.
  match goal with |- hands_out _ _ (broadcastToRoom ?x _ _ _) =>
    apply (hands_out_trans _ _ x); [|by apply hands_out_broadcastToRoom] end.
  destruct (call_ended _); by apply hands_out_silent.
Qed.

Lemma hands_out_handleMessage s now cid m : hands_out cid s (handleMessage s now cid m).
Proof.
  unfold handleMessage. destruct (connections s !! cid); [|apply hands_out_refl].
  destruct m; try apply hands_out_sendError.
  - apply hands_out_handleJoinRoom.
  - apply hands_out_handleLeaveRoom.
  - apply hands_out_relay.
  - apply hands_out_relay.
  - apply hands_out_relay.
  - apply hands_out_handleCallStatus.
  - by apply hands_out_sendMessage.
Qed.

(** X19.  Whatever a client sends, the relay only hands messages to
    connections that are registered with an open socket, error
    messages go to the sender alone, and no socket is opened or closed
    by handling the message. *)
Theorem messages_reach_open_sockets_only
    (s : State) (now : Z) (cid : nat) (m : ClientMessage) :
  let s' := handleMessage s now cid m in
  (forall c, can_send s' c = can_send s c)
  /\ exists l, outbox s' = outbox s ++ l
       /\ Forall (fun x => can_send s (fst x) = true
                           /\ (is_error (snd x) = true -> fst x = cid)) l.
Proof. apply hands_out_handleMessage. Qed.

(** ** Joining and leaving again *)

(** X20.  A connection that is in no room, joins a room that does not
    exist yet and leaves it again restores the rooms map: the room it
    created is deleted.  The connection keeps the identity it joined
    with. *)
Theorem join_then_leave_restores_rooms
    (s : State) (now : Z) (cid : nat) (c : ConnectionInfo) (rid uid utype : string) :
  connections s !! cid = Some c -> roomId c = None ->
  rid <> ""%string -> uid <> ""%string ->
  utype = "blind"%string \/ utype = "volunteer"%string ->
  rooms s !! rid = None ->
  let joined := handleJoinRoom s now cid
                  {| j_roomId := Some rid; j_userId := Some uid; j_userType := Some utype |} in
  (exists room, rooms joined !! rid = Some room
                /\ status room = "waiting"%string
                /\ p_connectionId <$> participants room !! uid = Some cid
                /\ size (participants room) = 1%nat)
  /\ rooms (handleLeaveRoom joined cid) = rooms s
  /\ exists c', connections (handleLeaveRoom joined cid) !! cid = Some c'
                /\ userId c' = Some uid /\ userType c' = Some utype /\ roomId c' = None.
Proof.
  intros Hc Hnone Hrid Huid Htype Hfresh joined.
  set (p := {| p_connectionId := cid; p_userId := uid; p_userType := utype;
               joinedAt := now; isReady := false |}).
  set (room := {| r_id := rid; participants := {[ uid := p ]}; createdAt := now;
                  status := "waiting"; callId := None |}).
  set (c1 := {| c_id := c_id c; userId := Some uid; userType := Some utype;
                roomId := Some rid; connectedAt := connectedAt c;
                isAlive := isAlive c; readyState := readyState c |}).
  assert (rooms joined = <[rid := room]> (rooms s)
          /\ connections joined = <[cid := c1]> (connections s)) as [Hrooms Hconns].
  { unfold joined, handleJoinRoom. rewrite Hc.
    simpl j_roomId. simpl j_userId. simpl j_userType.
    rewrite !truthy_Some by (done || (destruct Htype; by subst)).
    simpl negb at 1. cbv iota. change (default ""%string (Some utype)) with utype.
    change (default ""%string (Some uid)) with uid.
    change (default ""%string (Some rid)) with rid.
    assert (bool_decide (utype = "blind"%string)
            || bool_decide (utype = "volunteer"%string) = true) as ->.
    { destruct Htype; subst; reflexivity. }
    simpl negb. cbv iota. rewrite Hnone. simpl truthy. cbv iota.
    rewrite Hfresh. frame. rewrite !insert_empty, map_size_singleton. simpl.
    split; [done|].
    apply map_eq. intros i. destruct (decide (i = cid)) as [->|Hne].
    - by rewrite lookup_alter_eq, lookup_insert_eq, Hc.
    - by rewrite lookup_alter_ne, lookup_insert_ne. }
  split.
  { exists room. rewrite Hrooms, lookup_insert_eq. repeat split.
    - simpl. by rewrite lookup_singleton_eq.
    - simpl. apply map_size_singleton. }
  assert (connections joined !! cid = Some c1) as Hc1.
  { by rewrite Hconns, lookup_insert_eq. }
  assert (rooms joined !! rid = Some room) as Hroom.
  { by rewrite Hrooms, lookup_insert_eq. }
  split.
  - unfold handleLeaveRoom. rewrite Hc1.
    change (roomId c1) with (Some rid). change (userId c1) with (Some uid).
    rewrite (truthy_Some rid Hrid). simpl negb. cbv iota.
    change (default ""%string (Some rid)) with rid. rewrite Hroom.
    frame. rewrite delete_singleton_eq, map_size_empty. frame.
    rewrite delete_insert_eq, Hrooms, delete_insert_eq. by apply delete_id.
  - destruct (handleLeaveRoom_connections joined cid c1 Hc1) as [Hcs _].
    { exact (truthy_Some rid Hrid). }
    exists (with_room c1 None). rewrite Hcs, lookup_insert_eq. done.
Qed.

(** ** Who is in a room *)

Lemma truthy_default o : truthy o = true -> default ""%string o <> ""%string.
Proof.
  destruct o as [x|]; simpl; [|done]. intros H Hx.
  apply negb_true_iff, bool_decide_eq_false in H. done.
Qed.

Lemma room_ok_status rid r st : room_ok rid r -> room_ok rid (with_status r st).
Proof. by intros (?&?&?). Qed.

Lemma room_ok_removed rid r u : room_ok rid r -> room_ok rid (remove_participant r u).
Proof.
  intros (Hid & Hrid & Hps). destruct u as [u|]; [|done].
  split; [done|]. split; [done|]. simpl. by apply map_Forall_delete.
Qed.

Lemma room_ok_joined rid r uid p :
  room_ok rid r -> participant_ok uid p ->
  room_ok rid (with_participants r (<[uid := p]> (participants r))).
Proof.
  intros (Hid & Hrid & Hps) Hp. split; [done|]. split; [done|]. simpl.
  by apply map_Forall_insert_2.
Qed.

Lemma handleLeaveRoom_rooms_ok s cid :
  map_Forall room_ok (rooms s) -> map_Forall room_ok (rooms (handleLeaveRoom s cid)).
Proof.
  intros Hok. unfold handleLeaveRoom.
  destruct (connections s !! cid) as [c|]; [|done].
  destruct (truthy (roomId c)); simpl; [|done].
  frame.
  destruct (rooms s !! default ""%string (roomId c)) as [room|] eqn:Hroom; [|done].
  destruct (size (participants (remove_participant room (userId c))) =? 0)%nat; frame.
  - rewrite delete_insert_eq. by apply map_Forall_delete.
  - rewrite insert_insert_eq. apply map_Forall_insert_2; [|done].
    apply room_ok_status, room_ok_removed. by apply (Hok _ _ Hroom).
Qed.

Lemma handleJoinRoom_rooms_ok s now cid data :
  map_Forall room_ok (rooms s) ->
  map_Forall room_ok (rooms (handleJoinRoom s now cid data)).
Proof.
  intros Hok. unfold handleJoinRoom, sendError.
  destruct (connections s !! cid) as [c|]; [|by frame].
  destruct (truthy (j_roomId data)) eqn:Hrid; [|by frame].
  destruct (truthy (j_userId data)) eqn:Huid; [|by frame].
  destruct (truthy (j_userType data)) eqn:Hty; [|by frame].
  simpl negb at 1. cbv iota.
  destruct (bool_decide (default ""%string (j_userType data) = "blind"%string)
            || bool_decide (default ""%string (j_userType data) = "volunteer"%string))
    eqn:Hvalid; [|by frame].
  simpl negb. cbv iota. frame.
  set (s1 := if truthy (roomId c) then handleLeaveRoom s cid else s).
  assert (map_Forall room_ok (rooms s1)) as Hok1.
  { unfold s1. destruct (truthy (roomId c)); [by apply handleLeaveRoom_rooms_ok|done]. }
  apply map_Forall_insert_2; [|done].
  assert (participant_ok (default ""%string (j_userId data))
            {| p_connectionId := cid; p_userId := default ""%string (j_userId data);
               p_userType := default ""%string (j_userType data);
               joinedAt := now; isReady := false |}) as Hp.
  { split; [done|]. split; [by apply truthy_default|]. simpl.
    apply orb_true_iff in Hvalid as [H|H]; apply bool_decide_eq_true in H; auto. }
  match goal with |- context [if ?b then _ else _] => destruct b end;
    try apply room_ok_status;
    (destruct (rooms s1 !! default ""%string (j_roomId data)) as [room|] eqn:Hroom;
     [apply room_ok_joined; [by apply (Hok1 _ _ Hroom)|done]|]).
  all: (split; [done|]; split; [by apply truthy_default|]).
  all: simpl; apply map_Forall_insert_2; [done|apply map_Forall_empty].
Qed.

Lemma handleCallStatus_rooms_ok s cid data :
  map_Forall room_ok (rooms s) ->
  map_Forall room_ok (rooms (handleCallStatus s cid data)).
Proof.
  intros Hok. unfold handleCallStatus, sendError.
  destruct (connections s !! cid) as [c|]; [|by frame].
  destruct (negb (truthy (roomId c))); [by frame|].
  destruct (negb (truthy (d_status data))); [by frame|].
  destruct (rooms s !! default ""%string (roomId c)) as [room|] eqn:Hroom; [|by frame].
  frame.
  assert (map_Forall room_ok (<[default ""%string (roomId c) :=
            with_status room (default ""%string (d_status data))]> (rooms s))).
  { apply map_Forall_insert_2; [|done]. apply room_ok_status. by apply (Hok _ _ Hroom). }
  by destruct (call_ended _).
Qed.

Lemma handleDisconnection_rooms_ok s cid :
  map_Forall room_ok (rooms s) ->
  map_Forall room_ok (rooms (handleDisconnection s cid)).
Proof.
  intros Hok. unfold handleDisconnection.
  destruct (connections s !! cid) as [c|]; [|done].
  simpl.
  destruct (truthy (roomId c)); [|done].
  destruct (rooms s !! default ""%string (roomId c)) as [room|] eqn:Hroom; [|done].
  destruct (size (participants (remove_participant room (userId c))) =? 0)%nat.
  - assert (map_Forall room_ok (delete (default ""%string (roomId c))
               (<[default ""%string (roomId c) := remove_participant room (userId c)]>
                  (rooms s)))) by (rewrite delete_insert_eq; by apply map_Forall_delete).
    destruct (in_call _); frame; done.
  - assert (map_Forall room_ok (<[default ""%string (roomId c) :=
                          with_status (remove_participant room (userId c)) "waiting"]>
               (<[default ""%string (roomId c) := remove_participant room (userId c)]>
                  (rooms s)))).
    { rewrite insert_insert_eq. apply map_Forall_insert_2; [|done].
      apply room_ok_status, room_ok_removed. by apply (Hok _ _ Hroom). }
    destruct (in_call _); frame; done.
Qed.

Lemma step_rooms_ok s e :
  map_Forall room_ok (rooms s) -> map_Forall room_ok (rooms (step s e)).
Proof.
  intros Hok. destruct e as [now|now cid m|cid|cid|cid|cid n|now]; simpl.
  - unfold handleConnection. by frame.
  - unfold handleMessage. destruct (connections s !! cid); [|done].
    destruct m; unfold sendError, handleOffer, handleAnswer, handleIceCandidate;
      rewrite ?relay_rooms; frame; try done.
    + by apply handleJoinRoom_rooms_ok.
    + by apply handleLeaveRoom_rooms_ok.
    + by apply handleCallStatus_rooms_ok.
  - by apply handleDisconnection_rooms_ok.
  - unfold heartbeat. destruct (connections s !! cid) as [c|]; [|done].
    by destruct (negb (isAlive c)).
  - done.
  - done.
  - unfold cleanup. simpl.
    intros rid r Hr. apply map_lookup_filter_Some in Hr as [Hr _]. by apply (Hok _ _ Hr).
Qed.

(** X21.  Everybody in a room passed the checks of [handleJoinRoom]:
    in every reachable state a room is stored under its own non-empty
    id, and each of its participants is stored under its own non-empty
    user id with the type blind or volunteer. *)
Theorem rooms_hold_validated_participants (es : list Event) (rid : string) (r : Room) :
  rooms (run es init) !! rid = Some r ->
  r_id r = rid /\ rid <> ""%string
  /\ forall u p, participants r !! u = Some p ->
       p_userId p = u /\ u <> ""%string
       /\ (p_userType p = "blind"%string \/ p_userType p = "volunteer"%string).
Proof.
  assert (forall es s, map_Forall room_ok (rooms s) ->
                       map_Forall room_ok (rooms (run es s))) as Hrun.
  { clear. induction es as [|e es IH]; intros s Hs; [done|].
    simpl. apply IH. by apply step_rooms_ok. }
  intros Hr. apply (Hrun es init) in Hr; [|apply map_Forall_empty].
  destruct Hr as (Hid & Hrid & Hps). repeat split; try done; by apply (Hps u p).
Qed.

(** ** Instances *)

Lemma handleLeaveRoom_idempotent_witness :
  handleLeaveRoom (handleLeaveRoom two_joined 1) 1 = handleLeaveRoom two_joined 1.
Proof.
  refine (proj2 (handleLeaveRoom_idempotent two_joined 1 blind_connection _)).
  vm_compute. reflexivity.
Defined.

Lemma heartbeat_terminates_silent_connection_witness :
  readyState <$> connections (heartbeat (heartbeat two_joined 1) 1) !! 1%nat = Some 3%nat.
Proof.
  refine (proj1 (proj1 (heartbeat_terminates_silent_connection
                          two_joined 1 blind_connection _))).
  vm_compute. reflexivity.
Defined.

Lemma join_then_leave_restores_rooms_witness :
  rooms (handleLeaveRoom (handleJoinRoom one_connected 5 1
                            {| j_roomId := Some "R"%string; j_userId := Some "b1"%string;
                               j_userType := Some "blind"%string |}) 1)
  = rooms one_connected.
Proof.
  refine (proj1 (proj2 (join_then_leave_restores_rooms
                          one_connected 5 1 new_connection "R" "b1" "blind" _ _ _ _ _ _))).
  - vm_compute. reflexivity.
  - reflexivity.
  - discriminate.
  - discriminate.
  - left. reflexivity.
  - vm_compute. reflexivity.
Defined.

Lemma rooms_hold_validated_participants_witness :
  r_id first_room = "R"%string /\ "R"%string <> ""%string
  /\ forall u p, participants first_room !! u = Some p ->
       p_userId p = u /\ u <> ""%string
       /\ (p_userType p = "blind"%string \/ p_userType p = "volunteer"%string).
Proof.
  apply (rooms_hold_validated_participants first_join "R" first_room).
  vm_compute. reflexivity.
Defined.

End SignalingDelivery.

(* ===================================================================== *)
(** * Payments of the reward queue *)
(* ===================================================================== *)

Section RewardsPayments.
Import Rewards RewardsScenario.

(** ** The amount of a call reward *)

(** X22.  [calculateRewardAmount] never gives less than the short-call
    reward, so every call reward is positive, whatever the duration
    (also 0 or negative); it never gives more than the long-call reward
    with both bonuses, and a longer call with the same rating and
    response time earns at least as much. *)
Theorem calculateRewardAmount_bounds (a b : CallDoc) :
  (Config.shortCall <= calculateRewardAmount a)%Q
  /\ (0 < calculateRewardAmount a)%Q
  /\ (calculateRewardAmount a
      <= Config.longCall + Config.perfectRating + Config.quickResponse)%Q
  /\ (durationSeconds a <= durationSeconds b -> rating a = rating b ->
      responseTimeMs a = responseTimeMs b ->
      (calculateRewardAmount a <= calculateRewardAmount b)%Q).
Proof.
  unfold calculateRewardAmount.
  repeat split.
  - destruct (durationSeconds a <=? 1800), (durationSeconds a <=? 3600),
      (bool_decide (rating a = Some 5)), (responseTimeMs a) as [t|];
      try destruct (negb (t =? 0) && (t <? 30000)); vm_compute; discriminate.
  - destruct (durationSeconds a <=? 1800), (durationSeconds a <=? 3600),
      (bool_decide (rating a = Some 5)), (responseTimeMs a) as [t|];
      try destruct (negb (t =? 0) && (t <? 30000)); vm_compute; reflexivity.
  - destruct (durationSeconds a <=? 1800), (durationSeconds a <=? 3600),
      (bool_decide (rating a = Some 5)), (responseTimeMs a) as [t|];
      try destruct (negb (t =? 0) && (t <? 30000)); vm_compute; discriminate.
  - intros Hd Hr Ht. rewrite <- Hr, <- Ht.
    destruct (durationSeconds a <=? 1800) eqn:Ha1, (durationSeconds a <=? 3600) eqn:Ha2,
      (durationSeconds b <=? 1800) eqn:Hb1, (durationSeconds b <=? 3600) eqn:Hb2;
      try (apply Z.leb_le in Ha1); try (apply Z.leb_le in Ha2);
      try (apply Z.leb_le in Hb1); try (apply Z.leb_le in Hb2);
      try (apply Z.leb_gt in Ha1); try (apply Z.leb_gt in Ha2);
      try (apply Z.leb_gt in Hb1); try (apply Z.leb_gt in Hb2); try lia;
      destruct (bool_decide (rating a = Some 5)), (responseTimeMs a) as [t|];
      try destruct (negb (t =? 0) && (t <? 30000)); vm_compute; discriminate.
Qed.

(** ** When the consumer runs *)

Lemma loop_head_consumer s :
  isProcessingQueue s = true ->
  consumer_inv (loop_head s).
Proof.
  intros Hrun. unfold loop_head.
  destruct (transactionQueue s) as [|tx q] eqn:Hq; split; simpl; done.
Qed.

Lemma consumer_inv_frame s s' :
  isProcessingQueue s' = isProcessingQueue s -> consumer s' = consumer s ->
  serverKeypair s' = serverKeypair s -> transactionQueue s' = transactionQueue s ->
  consumer_inv s -> consumer_inv s'.
Proof. intros H1 H2 H3 H4 [Hflag Hdrain]. split; rewrite ?H1, ?H2, ?H3, ?H4; done. Qed.

Lemma queued_consumer s q :
  consumer_inv s -> consumer_inv (processTransactionQueue (set_queue q s)).
Proof.
  intros [Hflag Hdrain]. unfold processTransactionQueue. simpl.
  destruct (isProcessingQueue s) eqn:Hrun; simpl.
  { split; simpl; [by rewrite Hrun|]. intros _ Hidle. exfalso. by apply Hflag. }
  destruct (serverKeypair s) eqn:Hkp; simpl.
  - by apply loop_head_consumer.
  - split; simpl; [by rewrite Hrun|]. by rewrite Hkp.
Qed.

Lemma queueRewardTransaction_consumer s env uid amt why cid ty :
  consumer_inv s -> consumer_inv (fst (queueRewardTransaction s env uid amt why cid ty)).
Proof.
  intros Hinv. unfold queueRewardTransaction.
  destruct (users s !! uid) as [user|]; [|done].
  destruct (negb (truthy (walletAddress user))); [done|].
  destruct (negb (q_walletValid env)); [done|].
  destruct (Qle_bool amt 0); [done|].
  simpl. by apply queued_consumer.
Qed.

Lemma queue_milestone_consumer s env uid cid ms :
  consumer_inv s -> consumer_inv (fst (queue_milestone s env uid cid ms)).
Proof.
  intros Hinv. unfold queue_milestone. destruct ms as [[reward why]|]; [|done].
  destruct (negb (Qle_bool reward 0)); [|done].
  by apply queueRewardTransaction_consumer.
Qed.

Lemma updateUserReputation_consumer s uid r :
  consumer_inv s -> consumer_inv (fst (updateUserReputation s uid r)).
Proof.
  intros Hinv. unfold updateUserReputation.
  destruct (users s !! uid) as [user|]; [|done].
  destruct (negb (truthy (walletAddress user))); [done|].
  simpl. by eapply consumer_inv_frame; [..|exact Hinv].
Qed.

Lemma processCompletedCall_consumer s env1 env2 cid :
  consumer_inv s -> consumer_inv (fst (processCompletedCall s env1 env2 cid)).
Proof.
  intros Hinv. unfold processCompletedCall.
  destruct (calls s !! cid) as [callData|]; [|done].
  destruct (negb (bool_decide (c_status callData = "completed"%string))); [done|].
  match goal with |- context [queueRewardTransaction ?a ?b ?c ?d ?e ?f ?g] =>
    pose proof (queueRewardTransaction_consumer a b c d e f g Hinv) as H1;
    destruct (queueRewardTransaction a b c d e f g) as [s1 [i|e1]] end; [|done].
  simpl in H1.
  match goal with |- context [queue_milestone ?a ?b ?c ?d ?e] =>
    pose proof (queue_milestone_consumer a b c d e H1) as H2;
    destruct (queue_milestone a b c d e) as [s2 [i2|e2]] end; [|done].
  simpl in H2.
  assert (consumer_inv (update_statistics s2 callData cid)) as H3.
  { by eapply consumer_inv_frame; [..|exact H2]. }
  match goal with |- context [updateUserReputation ?a ?b ?c] =>
    pose proof (updateUserReputation_consumer a b c H3) as H4;
    destruct (updateUserReputation a b c) as [s4 [u|e4]] end; done.
Qed.

Lemma retry_one_fold l : forall s,
  isProcessingQueue (foldl retry_one s l) = isProcessingQueue s
  /\ consumer (foldl retry_one s l) = consumer s
  /\ serverKeypair (foldl retry_one s l) = serverKeypair s
  /\ exists q, foldl retry_one s l = set_queue q (foldl retry_one s l).
Proof.
  induction l as [|tx l IH]; intros s; simpl.
  { repeat split. exists (transactionQueue s). by destruct s. }
  destruct (IH (retry_one s tx)) as (H1 & H2 & H3 & H4).
  rewrite H1, H2, H3. done.
Qed.

Lemma retryFailedTransactions_consumer s :
  consumer_inv s -> consumer_inv (fst (retryFailedTransactions s)).
Proof.
  intros [Hflag Hdrain]. unfold retryFailedTransactions. simpl.
  destruct (retry_one_fold (retryable s) s) as (H1 & H2 & H3 & _).
  set (s' := foldl retry_one s (retryable s)) in *.
  unfold processTransactionQueue. rewrite H1, H3.
  destruct (isProcessingQueue s) eqn:Hrun; simpl.
  { split; [by rewrite H1, H2|]. rewrite H2. intros _ Hidle.
    exfalso. by apply Hflag. }
  destruct (serverKeypair s) eqn:Hkp; simpl.
  - by apply loop_head_consumer.
  - split; [by rewrite H1, H2|]. by rewrite H3.
Qed.

Lemma requeue_or_fail_frame tx s :
  isProcessingQueue (fst (requeue_or_fail tx s)) = isProcessingQueue s
  /\ consumer (fst (requeue_or_fail tx s)) = consumer s
  /\ serverKeypair (fst (requeue_or_fail tx s)) = serverKeypair s.
Proof. unfold requeue_or_fail. by destruct (retryCount tx <? maxRetries)%nat. Qed.

Lemma resume_consumer s r : consumer_inv s -> consumer_inv (resume s r).
Proof.
  intros Hinv.
  assert (consumer s <> Idle -> isProcessingQueue s = true) as Hrun
    by apply (cons_flag s Hinv).
  unfold resume.
  destruct (consumer s) as [|tx|tx|tx|tx| |] eqn:Hc; destruct r; try exact Hinv;
    specialize (Hrun ltac:(done));
    try (split; simpl; done);
    try (by apply loop_head_consumer).
  - destruct (insufficient lamports tx); [|split; simpl; done].
    destruct (requeue_or_fail_frame (bump tx None) s) as (H1 & H2 & H3).
    destruct (requeue_or_fail (bump tx None) s) as [s' [|]]; simpl in *.
    + split; simpl; [by rewrite H1, Hrun|done].
    + apply loop_head_consumer. by rewrite H1.
  - unfold on_error. destruct (requeue_or_fail_frame (bump tx (Some msg)) s) as (H1 & H2 & H3).
    split; simpl; [by rewrite H1, Hrun|done].
  - unfold on_error. destruct (requeue_or_fail_frame (bump tx (Some msg)) s) as (H1 & H2 & H3).
    split; simpl; [by rewrite H1, Hrun|done].
  - unfold on_error. destruct (requeue_or_fail_frame (bump tx (Some msg)) s) as (H1 & H2 & H3).
    split; simpl; [by rewrite H1, Hrun|done].
  - unfold on_error. destruct (requeue_or_fail_frame (bump tx (Some msg)) s) as (H1 & H2 & H3).
    split; simpl; [by rewrite H1, Hrun|done].
Qed.

Lemma step_consumer s e : consumer_inv s -> consumer_inv (step s e).
Proof.
  intros Hinv. destruct e; cbn [step].
  - by apply queueRewardTransaction_consumer.
  - by apply processCompletedCall_consumer.
  - unfold processTransactionQueue.
    destruct (isProcessingQueue s) eqn:Hrun; simpl; [done|].
    destruct (serverKeypair s) eqn:Hkp; simpl; [by apply loop_head_consumer|done].
  - by apply retryFailedTransactions_consumer.
  - by apply resume_consumer.
  - by eapply consumer_inv_frame; [..|exact Hinv].
  - by eapply consumer_inv_frame; [..|exact Hinv].
Qed.

Lemma reachable_consumer kp es : consumer_inv (run es (init kp)).
Proof.
  assert (forall es s, consumer_inv s -> consumer_inv (run es s)) as Hrun.
  { clear. induction es as [|e es IH]; intros s Hs; [done|].
    simpl. apply IH. by apply step_consumer. }
  apply Hrun. split; simpl; done.
Qed.

(** X24.  In every reachable state [isProcessingQueue] is set exactly
    while the consumer is suspended inside its loop, so a second
    [processTransactionQueue] never starts a second pass; and a service
    with a server keypair whose consumer is idle has an empty queue:
    nothing that was accepted is left waiting without a consumer. *)
Theorem consumer_runs_while_flag_is_set (kp : bool) (es : list Event) :
  let s := run es (init kp) in
  (isProcessingQueue s = true <-> consumer s <> Idle)
  /\ (consumer s <> Idle -> processTransactionQueue s = s)
  /\ (serverKeypair s = true -> consumer s = Idle -> transactionQueue s = []).
Proof.
  intros s. destruct (reachable_consumer kp es) as [Hflag Hdrain]. fold s in Hflag, Hdrain.
  split; [done|]. split; [|done].
  intros Hbusy. apply Hflag in Hbusy. unfold processTransactionQueue. by rewrite Hbusy.
Qed.

(** ** A service without a server keypair *)

Lemma inert_frame s s' :
  serverKeypair s' = serverKeypair s -> consumer s' = consumer s ->
  isProcessingQueue s' = isProcessingQueue s -> transfers s' = transfers s ->
  settled s' = settled s -> failedTransactions s' = failedTransactions s ->
  inert s -> inert s'.
Proof. intros H1 H2 H3 H4 H5 H6 [? ? ? ? ? ?]. split; congruence. Qed.

Lemma inert_processTransactionQueue s : inert s -> processTransactionQueue s = s.
Proof.
  intros H. unfold processTransactionQueue.
  by rewrite (inert_keypair s H), (inert_flag s H).
Qed.

Lemma inert_queueRewardTransaction s env uid amt why cid ty :
  inert s ->
  inert (fst (queueRewardTransaction s env uid amt why cid ty))
  /\ transactionQueue s
       `prefix_of` transactionQueue (fst (queueRewardTransaction s env uid amt why cid ty)).
Proof.
  intros Hinv. unfold queueRewardTransaction.
  destruct (users s !! uid) as [user|]; [|done].
  destruct (negb (truthy (walletAddress user))); [done|].
  destruct (negb (q_walletValid env)); [done|].
  destruct (Qle_bool amt 0); [done|].
  simpl. rewrite inert_processTransactionQueue.
  - split; [by eapply inert_frame; [..|exact Hinv]|]. simpl. by apply prefix_app_r.
  - by eapply inert_frame; [..|exact Hinv].
Qed.

Lemma inert_queue_milestone s env uid cid ms :
  inert s ->
  inert (fst (queue_milestone s env uid cid ms))
  /\ transactionQueue s `prefix_of` transactionQueue (fst (queue_milestone s env uid cid ms)).
Proof.
  intros Hinv. unfold queue_milestone. destruct ms as [[reward why]|]; [|done].
  destruct (negb (Qle_bool reward 0)); [|done].
  by apply inert_queueRewardTransaction.
Qed.

Lemma inert_updateUserReputation s uid r :
  inert s ->
  inert (fst (updateUserReputation s uid r))
  /\ transactionQueue (fst (updateUserReputation s uid r)) = transactionQueue s.
Proof.
  intros Hinv. unfold updateUserReputation.
  destruct (users s !! uid) as [user|]; [|done].
  destruct (negb (truthy (walletAddress user))); [done|].
  simpl. split; [|done]. by eapply inert_frame; [..|exact Hinv].
Qed.

Lemma inert_processCompletedCall s env1 env2 cid :
  inert s ->
  inert (fst (processCompletedCall s env1 env2 cid))
  /\ transactionQueue s
       `prefix_of` transactionQueue (fst (processCompletedCall s env1 env2 cid)).
Proof.
  intros Hinv. unfold processCompletedCall.
  destruct (calls s !! cid) as [callData|]; [|done].
  destruct (negb (bool_decide (c_status callData = "completed"%string))); [done|].
  match goal with |- context [queueRewardTransaction ?a ?b ?c ?d ?e ?f ?g] =>
    destruct (inert_queueRewardTransaction a b c d e f g Hinv) as [H1 P1];
    destruct (queueRewardTransaction a b c d e f g) as [s1 [i|e1]] end; [|done].
  simpl in H1, P1.
  match goal with |- context [queue_milestone ?a ?b ?c ?d ?e] =>
    destruct (inert_queue_milestone a b c d e H1) as [H2 P2];
    destruct (queue_milestone a b c d e) as [s2 [i2|e2]] end; simpl in H2, P2;
    [|split; [done|by etrans]].
  assert (inert (update_statistics s2 callData cid)) as H3.
  { by eapply inert_frame; [..|exact H2]. }
  match goal with |- context [updateUserReputation ?a ?b ?c] =>
    destruct (inert_updateUserReputation a b c H3) as [H4 P4];
    destruct (updateUserReputation a b c) as [s4 [u|e4]] end; simpl in H4, P4;
    (split; [done|]); simpl; rewrite P4; simpl; by etrans.
Qed.

Lemma inert_step s e :
  inert s -> inert (step s e) /\ transactionQueue s `prefix_of` transactionQueue (step s e).
Proof.
  intros Hinv. destruct e; cbn [step].
  - by apply inert_queueRewardTransaction.
  - by apply inert_processCompletedCall.
  - by rewrite inert_processTransactionQueue.
  - unfold retryFailedTransactions, retryable.
    rewrite (inert_failed s Hinv), map_to_list_empty. simpl.
    by rewrite inert_processTransactionQueue.
  - unfold resume. rewrite (inert_consumer s Hinv). by destruct r.
  - split; [|done]. by eapply inert_frame; [..|exact Hinv].
  - split; [|done]. by eapply inert_frame; [..|exact Hinv].
Qed.

Lemma inert_run es : forall s,
  inert s -> inert (run es s) /\ transactionQueue s `prefix_of` transactionQueue (run es s).
Proof.
  induction es as [|e es IH]; intros s Hinv; [done|].
  simpl. destruct (inert_step s e Hinv) as [H1 P1].
  destruct (IH _ H1) as [H2 P2]. split; [done|by etrans].
Qed.

(** X25.  A service that starts without a server keypair never
    processes anything: whatever happens, its consumer stays idle, no
    transfer is made, nothing is settled or failed, and every accepted
    transaction stays in the queue, which only grows. *)
Theorem without_keypair_nothing_is_paid (es es' : list Event) :
  let s := run es (init false) in
  consumer s = Idle /\ isProcessingQueue s = false
  /\ transfers s = [] /\ settled s = [] /\ failedTransactions s = ∅
  /\ transactionQueue s `prefix_of` transactionQueue (run (es ++ es') (init false)).
Proof.
  intros s.
  assert (inert (init false)) as H0 by (by split).
  destruct (inert_run es _ H0) as [Hs _]. fold s in Hs.
  destruct Hs as [Hk Hc Hf Ht Hd Hx].
  repeat split; try done.
  unfold run. rewrite foldl_app. fold (run es (init false)). fold s.
  apply (inert_run es' s). by split.
Qed.

(** ** The order of processing *)

Lemma pending_loop_head_queue s : pending (loop_head s) = transactionQueue s.
Proof.
  unfold pending, loop_head.
  destruct (transactionQueue s) as [|tx q] eqn:Hq; simpl; by rewrite ?Hq.
Qed.

Lemma pending_loop_head s :
  in_flight (consumer s) = [] -> pending (loop_head s) = pending s.
Proof. intros Hfl. rewrite pending_loop_head_queue. unfold pending. by rewrite Hfl. Qed.

Lemma pending_processTransactionQueue s :
  (isProcessingQueue s = false -> consumer s = Idle) ->
  pending (processTransactionQueue s) = pending s.
Proof.
  intros Hidle. unfold processTransactionQueue.
  destruct (isProcessingQueue s) eqn:Hrun; simpl; [done|].
  destruct (serverKeypair s); simpl; [|done].
  rewrite pending_loop_head; [done|]. simpl. by rewrite Hidle.
Qed.

(** X23.  In a reachable state a rejected [queueRewardTransaction]
    changes nothing, and an accepted one returns the generated id and
    puts one new transaction, queued with retry count 0 and the amount
    asked for, behind everything the consumer still has to deal with;
    it touches neither the failed set nor the transfers. *)
Theorem queueRewardTransaction_appends_in_order
    (kp : bool) (es : list Event) (env : QueueEnv)
    (uid : string) (amt : Q) (why : string) (cid : option string) (ty : string) :
  let s := run es (init kp) in
  let r := queueRewardTransaction s env uid amt why cid ty in
  match snd r with
  | Thrown _ => fst r = s
  | Returned i =>
      i = q_txid env
      /\ (exists tx, pending (fst r) = pending s ++ [tx]
                     /\ id tx = i /\ userId tx = uid /\ amount tx = amt
                     /\ callId tx = cid /\ type tx = ty
                     /\ retryCount tx = 0%nat /\ status tx = queued)
      /\ failedTransactions (fst r) = failedTransactions s
      /\ transfers (fst r) = transfers s /\ settled (fst r) = settled s
  end.
Proof.
  intros s r. unfold r, queueRewardTransaction.
  destruct (users s !! uid) as [user|]; [|done].
  destruct (negb (truthy (walletAddress user))); [done|].
  destruct (negb (q_walletValid env)); [done|].
  destruct (Qle_bool amt 0); [done|].
  cbv zeta. cbn [snd fst id].
  destruct (reachable_consumer kp es) as [Hflag _]. fold s in Hflag.
  assert (isProcessingQueue s = false -> consumer s = Idle) as Hidle.
  { intros Hoff. destruct (consumer s) eqn:Hc; [done|..];
      (assert (isProcessingQueue s = true) by (by apply Hflag)); congruence. }
  split; [done|]. split.
  - eexists. split.
    + rewrite pending_processTransactionQueue by done.
      unfold pending. simpl. by rewrite app_assoc.
    + done.
  - unfold processTransactionQueue. simpl.
    destruct (isProcessingQueue s || negb (serverKeypair s)); [done|].
    unfold loop_head. simpl.
    by destruct (transactionQueue s ++ _).
Qed.

(** X29.  The consumer takes the transactions first in, first out: one
    resumption leaves the ids of the pending transactions as they are,
    or drops the first of them (settled or failed for good), or moves
    the first behind all the others (to be tried again). *)
Theorem resume_rotates_pending (s : State) (r : Resumption) :
  let before := map id (pending s) in
  let after := map id (pending (resume s r)) in
  after = before
  \/ exists i rest, before = i :: rest /\ (after = rest \/ after = rest ++ [i]).
Proof.
  intros before after. unfold before, after, resume.
  assert (forall tx s', transactionQueue s' = transactionQueue s ->
            consumer s = AwaitBalance tx \/
            consumer s = AwaitSend tx \/ consumer s = AwaitTxRecord tx \/
            consumer s = AwaitRewardRecord tx ->
            exists i rest, map id (pending s) = i :: rest
                           /\ (map id (pending (loop_head s')) = rest
                               \/ map id (pending (loop_head s')) = rest ++ [i])) as Hdrop.
  { intros tx s' Hq Hc. exists (id tx), (map id (transactionQueue s)).
    split.
    - unfold pending. by destruct Hc as [ -> | [ -> | [ -> | -> ] ] ].
    - left. by rewrite pending_loop_head_queue, Hq. }
  assert (forall tx e, in_flight (consumer s) = [tx] ->
            exists i rest, map id (pending s) = i :: rest
              /\ (map id (pending (on_error s tx e)) = rest
                  \/ map id (pending (on_error s tx e)) = rest ++ [i])) as Herr.
  { intros tx e Hfl. exists (id tx), (map id (transactionQueue s)). split.
    - unfold pending. by rewrite Hfl.
    - unfold on_error, requeue_or_fail, pending. simpl retryCount.
      destruct (S (retryCount tx) <? maxRetries)%nat; simpl; [right|by left].
      by rewrite map_app. }
  destruct (consumer s) as [|tx|tx|tx|tx| |] eqn:Hc; destruct r;
    try (left; unfold pending; simpl; rewrite ?Hc; reflexivity);
    try (right; apply Herr; reflexivity).
  - destruct (insufficient lamports tx);
      [|left; unfold pending; simpl; rewrite ?Hc; reflexivity].
    right. unfold requeue_or_fail. simpl retryCount.
    destruct (S (retryCount tx) <? maxRetries)%nat.
    + exists (id tx), (map id (transactionQueue s)). split.
      { unfold pending. by rewrite Hc. }
      right. unfold pending. simpl. by rewrite map_app.
    + apply (Hdrop tx); [done|by left].
  - right. exists (id tx), (map id (transactionQueue s)). split.
    { unfold pending. by rewrite Hc. }
    by left.
  - left. rewrite pending_loop_head; [|by rewrite Hc]. unfold pending. by rewrite Hc.
  - left. rewrite pending_loop_head; [|by rewrite Hc]. unfold pending. by rewrite Hc.
Qed.

(** ** Transfers and bookkeeping *)

(** X26.  The transfer and its bookkeeping are not one step: when the
    transfer of a transaction is confirmed and the record of it is then
    rejected, the transaction goes back to the queue although it is
    marked completed, and the next pass sends the same amount to the
    same wallet a second time. *)
Theorem rejected_record_pays_twice
    (s : State) (tx : Transaction) (sig1 sig2 msg : string) (lamports : Z) :
  consumer s = AwaitSend tx -> transactionQueue s = [] ->
  (retryCount tx < 2)%nat -> insufficient lamports tx = false ->
  let again := bump (complete tx sig1) (Some msg) in
  let s1 := run [Resume (SignatureIs sig1); Resume (Rejected msg)] s in
  let s2 := run [Resume TimerFired; Resume (BalanceIs lamports);
                 Resume (SignatureIs sig2)] s1 in
  transactionQueue s1 = [again] /\ status again = completed
  /\ transfers s1 = transfers s ++ [(t_walletAddress tx, amount tx)]
  /\ transfers s2
     = transfers s ++ [(t_walletAddress tx, amount tx); (t_walletAddress tx, amount tx)]
  /\ consumer s2 = AwaitTxRecord (complete again sig2).
Proof.
  intros Hc Hq Hrc Hbal again s1 s2.
  assert (s1 = set_consumer Wait1
                 (set_queue [again] (add_transfer (t_walletAddress tx) (amount tx) s)))
    as Hs1.
  { unfold s1. simpl. unfold resume at 2. rewrite Hc. unfold resume. simpl.
    unfold on_error, requeue_or_fail. simpl retryCount.
    assert ((S (retryCount tx) <? maxRetries)%nat = true) as ->.
    { apply Nat.ltb_lt. unfold maxRetries. lia. }
    simpl. by rewrite Hq. }
  split; [by rewrite Hs1|]. split; [reflexivity|]. split; [by rewrite Hs1|].
  unfold s2. rewrite Hs1. cbn [run foldl step].
  set (paid1 := add_transfer (t_walletAddress tx) (amount tx) s).
  set (sa := resume _ TimerFired).
  assert (sa = set_consumer (AwaitBalance again) (set_queue [] paid1)) as -> by reflexivity.
  set (sb := resume _ (BalanceIs lamports)).
  assert (sb = set_consumer (AwaitSend again) (set_queue [] paid1)) as ->.
  { unfold sb, resume. cbn [consumer set_consumer].
    change (insufficient lamports again) with (insufficient lamports tx).
    by rewrite Hbal. }
  unfold resume. cbn. split; [|reflexivity].
  by rewrite <- app_assoc.
Qed.

(** ** What is paid, and to whom *)

Lemma paid_mono s s' tx :
  (forall x, x ∈ transfers s -> x ∈ transfers s') -> paid s tx -> paid s' tx.
Proof. intros Hsub Hp Hst. by apply Hsub, Hp. Qed.

Lemma pay_inv_build s :
  Forall (fun tx => valid tx /\ paid s tx) (transactionQueue s) ->
  Forall (fun tx => valid tx /\ paid s tx) (in_flight (consumer s)) ->
  map_Forall (fun _ tx => valid tx /\ paid s tx) (failedTransactions s) ->
  Forall (fun tx => valid tx /\ status tx = completed /\ paid s tx) (settled s) ->
  Forall (fun tx => status tx = completed) (sent_flight (consumer s)) ->
  Forall (fun wa => fst wa <> ""%string /\ (0 < snd wa)%Q) (transfers s) ->
  (length (settled s) + length (sent_flight (consumer s)) <= length (transfers s))%nat ->
  pay_inv s.
Proof. by split. Qed.

Lemma loop_head_pay s :
  Forall (fun tx => valid tx /\ paid s tx) (transactionQueue s) ->
  map_Forall (fun _ tx => valid tx /\ paid s tx) (failedTransactions s) ->
  Forall (fun tx => valid tx /\ status tx = completed /\ paid s tx) (settled s) ->
  Forall (fun wa => fst wa <> ""%string /\ (0 < snd wa)%Q) (transfers s) ->
  (length (settled s) <= length (transfers s))%nat ->
  pay_inv (loop_head s).
Proof.
  intros Hq Hx Hs Ht Hn. unfold loop_head.
  destruct (transactionQueue s) as [|tx q] eqn:Hqueue; apply pay_inv_build; simpl;
    rewrite ?Hqueue; try done; try lia.
  - by inversion Hq.
  - constructor; [|done]. by inversion Hq.
Qed.

Lemma pay_inv_weaken s :
  pay_inv s -> (length (settled s) <= length (transfers s))%nat.
Proof. intros H. pose proof (pay_count s H). lia. Qed.

Lemma processTransactionQueue_pay s : pay_inv s -> pay_inv (processTransactionQueue s).
Proof.
  intros H. unfold processTransactionQueue.
  destruct (isProcessingQueue s || negb (serverKeypair s)); [done|].
  pose proof (pay_inv_weaken s H). destruct H. by apply loop_head_pay.
Qed.

Lemma requeue_or_fail_parts tx s :
  pay_inv s -> valid tx -> paid s tx ->
  let s' := fst (requeue_or_fail tx s) in
  Forall (fun tx => valid tx /\ paid s' tx) (transactionQueue s')
  /\ map_Forall (fun _ tx => valid tx /\ paid s' tx) (failedTransactions s')
  /\ Forall (fun tx => valid tx /\ status tx = completed /\ paid s' tx) (settled s')
  /\ Forall (fun wa => fst wa <> ""%string /\ (0 < snd wa)%Q) (transfers s')
  /\ (length (settled s') <= length (transfers s'))%nat.
Proof.
  intros H Hv Hp. pose proof (pay_inv_weaken s H). destruct H.
  unfold requeue_or_fail. destruct (retryCount tx <? maxRetries)%nat; simpl.
  - split; [|done]. apply Forall_app. split; [done|]. by constructor.
  - split; [done|]. split; [|done]. by apply map_Forall_insert_2.
Qed.

Lemma parked_pay s c :
  in_flight c = [] -> sent_flight c = [] ->
  Forall (fun tx => valid tx /\ paid s tx) (transactionQueue s) ->
  map_Forall (fun _ tx => valid tx /\ paid s tx) (failedTransactions s) ->
  Forall (fun tx => valid tx /\ status tx = completed /\ paid s tx) (settled s) ->
  Forall (fun wa => fst wa <> ""%string /\ (0 < snd wa)%Q) (transfers s) ->
  (length (settled s) <= length (transfers s))%nat ->
  pay_inv (set_consumer c s).
Proof.
  intros Hfl Hsent Hq Hx Hs Ht Hn. apply pay_inv_build; simpl; rewrite ?Hfl, ?Hsent;
    try done. simpl. lia.
Qed.

Lemma on_error_pay s tx msg :
  pay_inv s -> valid tx -> paid s tx -> pay_inv (on_error s tx msg).
Proof.
  intros H Hv Hp. unfold on_error.
  destruct (requeue_or_fail_parts (bump tx (Some msg)) s H) as (?&?&?&?&?); try done.
  by apply parked_pay.
Qed.

Lemma flight_ok s tx :
  pay_inv s -> in_flight (consumer s) = [tx] -> valid tx /\ paid s tx.
Proof. intros H Hfl. pose proof (pay_flight s H) as Hf. rewrite Hfl in Hf. by inversion Hf. Qed.

Lemma resume_pay s r : pay_inv s -> pay_inv (resume s r).
Proof.
  intros H. pose proof (pay_inv_weaken s H) as Hn. unfold resume.
  destruct (consumer s) as [|tx|tx|tx|tx| |] eqn:Hc; destruct r; try exact H;
    try (destruct (flight_ok s tx H) as [Hv Hp]; [by rewrite Hc|]);
    try (by apply on_error_pay);
    try (destruct H; by apply loop_head_pay).
  - (* the balance is known *)
    destruct (insufficient lamports tx).
    + destruct (requeue_or_fail_parts (bump tx None) s H) as (?&?&?&?&?); try done.
      destruct (requeue_or_fail (bump tx None) s) as [s' [|]]; simpl in *.
      * by apply parked_pay.
      * by apply loop_head_pay.
    + destruct H as [Hq Hf Hx Hs Hsent Ht Hcnt].
      apply pay_inv_build; simpl; try done; first [by constructor|lia].
  - (* the transfer is confirmed *)
    assert (forall x, x ∈ transfers s ->
              x ∈ transfers (add_transfer (t_walletAddress tx) (amount tx) s)) as Hsub.
    { intros x Hx. simpl. apply elem_of_app. by left. }
    destruct Hv as (Ha & Hw & Hsig). destruct H as [Hq Hf Hx Hs Hsent Ht Hcnt].
    apply pay_inv_build; simpl.
    + eapply Forall_impl; [exact Hq|]. intros t [? ?]. split; [done|].
      by eapply paid_mono.
    + constructor; [|done]. split.
      * repeat split; try done.
      * intros _. simpl. apply elem_of_app. right. by left.
    + eapply map_Forall_impl; [exact Hx|]. intros k t [? ?]. split; [done|].
      by eapply paid_mono.
    + eapply Forall_impl; [exact Hs|]. intros t (? & ? & ?).
      split; [done|]. split; [done|]. by eapply paid_mono.
    + by constructor.
    + apply Forall_app. split; [done|]. by constructor.
    + rewrite length_app. simpl. lia.
  - (* the transaction record is stored *)
    destruct H as [Hq Hf Hx Hs Hsent Ht Hcnt]. rewrite Hc in *. by apply pay_inv_build.
  - (* the reward record is stored *)
    destruct H as [Hq Hf Hx Hs Hsent Ht Hcnt]. rewrite Hc in *. simpl in *.
    apply pay_inv_build; simpl; try done.
    + apply Forall_app. split; [done|]. constructor; [|done].
      split; [done|]. split; [by inversion Hsent|done].
    + rewrite length_app. simpl. lia.
Qed.

Lemma queueRewardTransaction_pay s env uid amt why cid ty :
  pay_inv s -> pay_inv (fst (queueRewardTransaction s env uid amt why cid ty)).
Proof.
  intros H. unfold queueRewardTransaction.
  destruct (users s !! uid) as [user|]; [|done].
  destruct (truthy (walletAddress user)) eqn:Hw; [|done].
  simpl negb. cbv iota.
  destruct (negb (q_walletValid env)); [done|].
  destruct (Qle_bool amt 0) eqn:Hamt; [done|].
  simpl. apply processTransactionQueue_pay.
  destruct H as [Hq Hf Hx Hs Hsent Ht Hcnt]. apply pay_inv_build; simpl; try done.
  apply Forall_app. split; [done|]. constructor; [|done]. split.
  - split; simpl.
    + apply Qnot_le_lt. intros Hle. apply Qle_bool_iff in Hle. congruence.
    + split.
      * destruct (walletAddress user) as [w|]; simpl in *; [|done].
        intros ->. done.
      * split; [done|]. by intros [x Hsome].
  - done.
Qed.

Lemma queue_milestone_pay s env uid cid ms :
  pay_inv s -> pay_inv (fst (queue_milestone s env uid cid ms)).
Proof.
  intros H. unfold queue_milestone. destruct ms as [[reward why]|]; [|done].
  destruct (negb (Qle_bool reward 0)); [|done].
  by apply queueRewardTransaction_pay.
Qed.

Lemma pay_inv_users s u : pay_inv s -> pay_inv (set_users u s).
Proof. intros H. destruct H. by apply pay_inv_build. Qed.

Lemma updateUserReputation_pay s uid r :
  pay_inv s -> pay_inv (fst (updateUserReputation s uid r)).
Proof.
  intros H. unfold updateUserReputation.
  destruct (users s !! uid) as [user|]; [|done].
  destruct (negb (truthy (walletAddress user))); [done|].
  simpl. by apply pay_inv_users.
Qed.

Lemma processCompletedCall_pay s env1 env2 cid :
  pay_inv s -> pay_inv (fst (processCompletedCall s env1 env2 cid)).
Proof.
  intros Hinv. unfold processCompletedCall.
  destruct (calls s !! cid) as [callData|]; [|done].
  destruct (negb (bool_decide (c_status callData = "completed"%string))); [done|].
  match goal with |- context [queueRewardTransaction ?a ?b ?c ?d ?e ?f ?g] =>
    pose proof (queueRewardTransaction_pay a b c d e f g Hinv) as H1;
    destruct (queueRewardTransaction a b c d e f g) as [s1 [i|e1]] end; [|done].
  simpl in H1.
  match goal with |- context [queue_milestone ?a ?b ?c ?d ?e] =>
    pose proof (queue_milestone_pay a b c d e H1) as H2;
    destruct (queue_milestone a b c d e) as [s2 [i2|e2]] end; [|done].
  simpl in H2.
  assert (pay_inv (update_statistics s2 callData cid)) as H3 by (by apply pay_inv_users).
  match goal with |- context [updateUserReputation ?a ?b ?c] =>
    pose proof (updateUserReputation_pay a b c H3) as H4;
    destruct (updateUserReputation a b c) as [s4 [u|e4]] end; done.
Qed.

Lemma step_pay s e : retry_inv s -> pay_inv s -> pay_inv (step s e).
Proof.
  intros Hretry H. destruct e; cbn [step].
  - by apply queueRewardTransaction_pay.
  - by apply processCompletedCall_pay.
  - by apply processTransactionQueue_pay.
  - rewrite (retryFailedTransactions_noop s Hretry). simpl.
    by apply processTransactionQueue_pay.
  - by apply resume_pay.
  - by apply pay_inv_users.
  - destruct H. by apply pay_inv_build.
Qed.

Lemma reachable_pay kp es : pay_inv (run es (init kp)).
Proof.
  assert (forall es s, retry_inv s -> pay_inv s -> pay_inv (run es s)) as Hrun.
  { clear. induction es as [|e es IH]; intros s Hr Hs; [done|].
    simpl. apply IH; [by apply step_inv|by apply step_pay]. }
  apply Hrun; [apply retry_inv_init|].
  apply pay_inv_build; simpl; done.
Qed.

(** X27.  Only what [queueRewardTransaction] validated is ever paid:
    in every reachable state each transaction, wherever it is, has a
    positive amount and a non-empty wallet address and is marked
    completed exactly when it carries a signature, and each confirmed
    transfer is a positive amount sent to a non-empty address. *)
Theorem only_validated_rewards_are_paid (kp : bool) (es : list Event) :
  let s := run es (init kp) in
  Forall valid (all_transactions s)
  /\ Forall (fun wa => fst wa <> ""%string /\ (0 < snd wa)%Q) (transfers s).
Proof.
  intros s. destruct (reachable_pay kp es) as [Hq Hf Hx Hs _ Ht _]. fold s in Hq, Hf, Hx, Hs, Ht.
  split; [|done].
  unfold all_transactions, failed_list. rewrite !Forall_app. repeat split.
  - eapply Forall_impl; [exact Hq|]. by intros tx [? _].
  - eapply Forall_impl; [exact Hf|]. by intros tx [? _].
  - apply map_Forall_to_list in Hx. apply Forall_fmap.
    eapply Forall_impl; [exact Hx|]. by intros [k tx] [? _].
  - eapply Forall_impl; [exact Hs|]. by intros tx [? _].
Qed.

(** X28.  Nothing is booked that was not sent: in every reachable
    state each settled transaction is marked completed, each
    transaction marked completed, wherever it is, has a confirmed
    transfer of its amount to its wallet, and there are at least as many
    confirmed transfers as settled transactions. *)
Theorem settled_rewards_were_transferred (kp : bool) (es : list Event) :
  let s := run es (init kp) in
  Forall (fun tx => status tx = completed) (settled s)
  /\ Forall (paid s) (all_transactions s)
  /\ (length (settled s) <= length (transfers s))%nat.
Proof.
  intros s. pose proof (reachable_pay kp es) as Hinv. fold s in Hinv.
  pose proof (pay_inv_weaken s Hinv) as Hn.
  destruct Hinv as [Hq Hf Hx Hs _ _ _].
  split; [|split; [|done]].
  - eapply Forall_impl; [exact Hs|]. by intros tx (_ & ? & _).
  - unfold all_transactions, failed_list. rewrite !Forall_app. repeat split.
    + eapply Forall_impl; [exact Hq|]. by intros tx [_ ?].
    + eapply Forall_impl; [exact Hf|]. by intros tx [_ ?].
    + apply map_Forall_to_list in Hx. apply Forall_fmap.
      eapply Forall_impl; [exact Hx|]. by intros [k tx] [_ ?].
    + eapply Forall_impl; [exact Hs|]. by intros tx (_ & _ & ?).
Qed.

(** ** Instances *)

Lemma rejected_record_pays_twice_witness :
  transfers (run [Resume TimerFired; Resume (BalanceIs 5000000000);
                  Resume (SignatureIs "sig2")]
               (run [Resume (SignatureIs "sig1"); Resume (Rejected "db")] sending))
  = transfers sending ++ [("Wallet1111"%string, 1 # 100); ("Wallet1111"%string, 1 # 100)].
Proof.
  refine (proj1 (proj2 (proj2 (proj2
            (rejected_record_pays_twice sending bonus_tx "sig1" "sig2" "db" 5000000000
               _ _ _ _))))).
  - vm_compute. reflexivity.
  - vm_compute. reflexivity.
  - simpl. lia.
  - vm_compute. reflexivity.
Defined.

End RewardsPayments.

(* ===================================================================== *)
(** * The reputation update of the end-call route *)
(* ===================================================================== *)

Section CallsRouteProperties.
Import CallsRoute.



End CallsRouteProperties.
